(** * AES (Rijndael) block cipher of [AES.cpp]: shallow embedding and properties

    The C++ class [AES] is embedded as a record of its data members and one
    Rocq function per method.

    - [uint8_t] and [uint32_t] values are [Z] with the truncation written
      out ([u8], [u32]).  [int] and [size_t] values are [Z] as they are,
      which is exact as long as no [int] expression leaves the range of
      [int]: so it is for the [Nk] and [Nr] that [initKey] sets.  The
      theorems on what a method does for other values of [Nk] or [Nr]
      bound them, by the length of the schedule or by the range of [int].
      [/] and [%] on [int] are [Z.quot] and [Z.rem].
    - [std::vector] is [list]: [push_back] appends, [at] is [at_], the
      unchecked [operator[]] is [index].  The array [uint8_t state[4][4]] is
      a list of four rows of four cells, read by [get] and written by [put].
    - The exceptions that [vector::at] and [std::stoi] raise are values of
      [exn], carried by [result]; the methods that cannot raise are plain
      functions.  A [for] loop is [for_] or, when its body may raise,
      [forM], over the loop's mutable variables.
    - What the constructor and [initKey] write to [cout] is returned as a
      list of strings, since the [encrypt] flag decides it.  The trace that
      [Cipher], [Decipher] and [AddRoundKey] write never feeds back into the
      object and is left out; [printState] is modelled by the text it
      writes. *)

From Stdlib Require Import ZArith List String Ascii Bool Lia Btauto.
From coqutil Require Import Z.bitblast.
Import ListNotations.
Local Open Scope Z_scope.

(* ================================================================== *)
(** * Machine integers, exceptions, loops *)

(** [static_cast<uint8_t>] and storing into a [uint8_t]. *)
Definition u8 (x : Z) : Z := x mod 256.

(** [static_cast<uint32_t>] and arithmetic in [uint32_t]. *)
Definition u32 (x : Z) : Z := x mod 4294967296.

Definition is_byte (x : Z) : bool := (0 <=? x) && (x <? 256).

Inductive exn : Set :=
| out_of_range       (* std::out_of_range: vector::at, stoi *)
| invalid_argument   (* std::invalid_argument: stoi *)
| undefined.         (* behaviour the language leaves undefined *)

Inductive result (A : Type) : Type :=
| Ok (a : A)
| Throw (e : exn).
Arguments Ok {A} a.
Arguments Throw {A} e.

Definition bind {A B : Type} (m : result A) (k : A -> result B) : result B :=
  match m with
  | Ok a => k a
  | Throw e => Throw e
  end.

Notation "x <- m ;; k" := (bind m (fun x => k))
  (at level 61, m at next level, right associativity).

(** [v.at(i)] for an [int] index: a negative index converts to a huge
    [size_t] and is out of range like any index past the end. *)
Definition at_ (v : list Z) (i : Z) : result Z :=
  if i <? 0 then Throw out_of_range
  else match nth_error v (Z.to_nat i) with
       | Some x => Ok x
       | None => Throw out_of_range
       end.

(** [v[i]], unchecked. *)
Definition index (v : list Z) (i : Z) : result Z :=
  if i <? 0 then Throw undefined
  else match nth_error v (Z.to_nat i) with
       | Some x => Ok x
       | None => Throw undefined
       end.

(** [for (int i = lo; i < hi; i++) body] over a loop state. *)
Fixpoint for_ {St : Type} (n : nat) (i : Z) (body : Z -> St -> St) (s : St) : St :=
  match n with
  | O => s
  | S n' => for_ n' (i + 1) body (body i s)
  end.

Definition for_range {St : Type} (lo hi : Z) (body : Z -> St -> St) (s : St) : St :=
  for_ (Z.to_nat (hi - lo)) lo body s.

(** The same loop with a body that may throw, and with a stride. *)
Fixpoint forM {St : Type} (n : nat) (i step : Z)
    (body : Z -> St -> result St) (s : St) : result St :=
  match n with
  | O => Ok s
  | S n' => s' <- body i s ;; forM n' (i + step) step body s'
  end.

Definition forM_range {St : Type} (lo hi step : Z)
    (body : Z -> St -> result St) (s : St) : result St :=
  forM (Z.to_nat ((hi - lo + step - 1) / step)) lo step body s.

(* ================================================================== *)
(** * Finite field arithmetic *)

(** [AES::ffAdd] *)
Definition ffAdd (a b : Z) : Z := u8 (Z.lxor a b).

(** [AES::xtime] *)
Definition xtime (byte : Z) : Z :=
  let result := u8 (Z.shiftl byte 1) in
  if Z.land byte 0x80 =? 0 then result
  else u8 (Z.lxor result 0x1b).

(** [AES::ffMultiply]; the loop state is [(a, b, sum)]. *)
Definition ffMultiply_body (i : Z) (s : Z * Z * Z) : Z * Z * Z :=
  let '(a, b, sum) := s in
  let sum := if Z.land a 0x1 =? 0 then sum else u8 (Z.lxor sum b) in
  if i <? 7 then (u8 (Z.shiftr a 1), xtime b, sum)
  else (a, b, sum).

Definition ffMultiply (a b : Z) : Z :=
  let '(_, _, sum) := for_range 0 8 ffMultiply_body (a, b, 0) in
  sum.

(* ================================================================== *)
(** * Substitution tables *)

(** Modelled from the spec: the member table [SBox] is declared in [AES.h],
    which is not among the sources; section 4.2 fixes it as the standard
    AES forward substitution table. *)
Definition SBox : list Z :=
  [0x63; 0x7c; 0x77; 0x7b; 0xf2; 0x6b; 0x6f; 0xc5; 0x30; 0x01; 0x67; 0x2b; 0xfe; 0xd7; 0xab; 0x76;
   0xca; 0x82; 0xc9; 0x7d; 0xfa; 0x59; 0x47; 0xf0; 0xad; 0xd4; 0xa2; 0xaf; 0x9c; 0xa4; 0x72; 0xc0;
   0xb7; 0xfd; 0x93; 0x26; 0x36; 0x3f; 0xf7; 0xcc; 0x34; 0xa5; 0xe5; 0xf1; 0x71; 0xd8; 0x31; 0x15;
   0x04; 0xc7; 0x23; 0xc3; 0x18; 0x96; 0x05; 0x9a; 0x07; 0x12; 0x80; 0xe2; 0xeb; 0x27; 0xb2; 0x75;
   0x09; 0x83; 0x2c; 0x1a; 0x1b; 0x6e; 0x5a; 0xa0; 0x52; 0x3b; 0xd6; 0xb3; 0x29; 0xe3; 0x2f; 0x84;
   0x53; 0xd1; 0x00; 0xed; 0x20; 0xfc; 0xb1; 0x5b; 0x6a; 0xcb; 0xbe; 0x39; 0x4a; 0x4c; 0x58; 0xcf;
   0xd0; 0xef; 0xaa; 0xfb; 0x43; 0x4d; 0x33; 0x85; 0x45; 0xf9; 0x02; 0x7f; 0x50; 0x3c; 0x9f; 0xa8;
   0x51; 0xa3; 0x40; 0x8f; 0x92; 0x9d; 0x38; 0xf5; 0xbc; 0xb6; 0xda; 0x21; 0x10; 0xff; 0xf3; 0xd2;
   0xcd; 0x0c; 0x13; 0xec; 0x5f; 0x97; 0x44; 0x17; 0xc4; 0xa7; 0x7e; 0x3d; 0x64; 0x5d; 0x19; 0x73;
   0x60; 0x81; 0x4f; 0xdc; 0x22; 0x2a; 0x90; 0x88; 0x46; 0xee; 0xb8; 0x14; 0xde; 0x5e; 0x0b; 0xdb;
   0xe0; 0x32; 0x3a; 0x0a; 0x49; 0x06; 0x24; 0x5c; 0xc2; 0xd3; 0xac; 0x62; 0x91; 0x95; 0xe4; 0x79;
   0xe7; 0xc8; 0x37; 0x6d; 0x8d; 0xd5; 0x4e; 0xa9; 0x6c; 0x56; 0xf4; 0xea; 0x65; 0x7a; 0xae; 0x08;
   0xba; 0x78; 0x25; 0x2e; 0x1c; 0xa6; 0xb4; 0xc6; 0xe8; 0xdd; 0x74; 0x1f; 0x4b; 0xbd; 0x8b; 0x8a;
   0x70; 0x3e; 0xb5; 0x66; 0x48; 0x03; 0xf6; 0x0e; 0x61; 0x35; 0x57; 0xb9; 0x86; 0xc1; 0x1d; 0x9e;
   0xe1; 0xf8; 0x98; 0x11; 0x69; 0xd9; 0x8e; 0x94; 0x9b; 0x1e; 0x87; 0xe9; 0xce; 0x55; 0x28; 0xdf;
   0x8c; 0xa1; 0x89; 0x0d; 0xbf; 0xe6; 0x42; 0x68; 0x41; 0x99; 0x2d; 0x0f; 0xb0; 0x54; 0xbb; 0x16].

(** Modelled from the spec: the member table [InvSBox] is declared in
    [AES.h], which is not among the sources; section 4.2 fixes it as the
    standard AES inverse substitution table. *)
Definition InvSBox : list Z :=
  [0x52; 0x09; 0x6a; 0xd5; 0x30; 0x36; 0xa5; 0x38; 0xbf; 0x40; 0xa3; 0x9e; 0x81; 0xf3; 0xd7; 0xfb;
   0x7c; 0xe3; 0x39; 0x82; 0x9b; 0x2f; 0xff; 0x87; 0x34; 0x8e; 0x43; 0x44; 0xc4; 0xde; 0xe9; 0xcb;
   0x54; 0x7b; 0x94; 0x32; 0xa6; 0xc2; 0x23; 0x3d; 0xee; 0x4c; 0x95; 0x0b; 0x42; 0xfa; 0xc3; 0x4e;
   0x08; 0x2e; 0xa1; 0x66; 0x28; 0xd9; 0x24; 0xb2; 0x76; 0x5b; 0xa2; 0x49; 0x6d; 0x8b; 0xd1; 0x25;
   0x72; 0xf8; 0xf6; 0x64; 0x86; 0x68; 0x98; 0x16; 0xd4; 0xa4; 0x5c; 0xcc; 0x5d; 0x65; 0xb6; 0x92;
   0x6c; 0x70; 0x48; 0x50; 0xfd; 0xed; 0xb9; 0xda; 0x5e; 0x15; 0x46; 0x57; 0xa7; 0x8d; 0x9d; 0x84;
   0x90; 0xd8; 0xab; 0x00; 0x8c; 0xbc; 0xd3; 0x0a; 0xf7; 0xe4; 0x58; 0x05; 0xb8; 0xb3; 0x45; 0x06;
   0xd0; 0x2c; 0x1e; 0x8f; 0xca; 0x3f; 0x0f; 0x02; 0xc1; 0xaf; 0xbd; 0x03; 0x01; 0x13; 0x8a; 0x6b;
   0x3a; 0x91; 0x11; 0x41; 0x4f; 0x67; 0xdc; 0xea; 0x97; 0xf2; 0xcf; 0xce; 0xf0; 0xb4; 0xe6; 0x73;
   0x96; 0xac; 0x74; 0x22; 0xe7; 0xad; 0x35; 0x85; 0xe2; 0xf9; 0x37; 0xe8; 0x1c; 0x75; 0xdf; 0x6e;
   0x47; 0xf1; 0x1a; 0x71; 0x1d; 0x29; 0xc5; 0x89; 0x6f; 0xb7; 0x62; 0x0e; 0xaa; 0x18; 0xbe; 0x1b;
   0xfc; 0x56; 0x3e; 0x4b; 0xc6; 0xd2; 0x79; 0x20; 0x9a; 0xdb; 0xc0; 0xfe; 0x78; 0xcd; 0x5a; 0xf4;
   0x1f; 0xdd; 0xa8; 0x33; 0x88; 0x07; 0xc7; 0x31; 0xb1; 0x12; 0x10; 0x59; 0x27; 0x80; 0xec; 0x5f;
   0x60; 0x51; 0x7f; 0xa9; 0x19; 0xb5; 0x4a; 0x0d; 0x2d; 0xe5; 0x7a; 0x9f; 0x93; 0xc9; 0x9c; 0xef;
   0xa0; 0xe0; 0x3b; 0x4d; 0xae; 0x2a; 0xf5; 0xb0; 0xc8; 0xeb; 0xbb; 0x3c; 0x83; 0x53; 0x99; 0x61;
   0x17; 0x2b; 0x04; 0x7e; 0xba; 0x77; 0xd6; 0x26; 0xe1; 0x69; 0x14; 0x63; 0x55; 0x21; 0x0c; 0x7d].

(** [AES::sBoxSub]: the index [(row * 16) + col] is at most 255. *)
Definition sBoxSub (byte : Z) : Z :=
  let row := Z.land (Z.shiftr byte 4) 0xF in
  let col := Z.land byte 0xF in
  nth (Z.to_nat (row * 16 + col)) SBox 0.

(** [AES::InvsBoxSub] *)
Definition InvsBoxSub (byte : Z) : Z :=
  let row := Z.land (Z.shiftr byte 4) 0xF in
  let col := Z.land byte 0xF in
  nth (Z.to_nat (row * 16 + col)) InvSBox 0.

(* ================================================================== *)
(** * Words and the object *)

(** The expression [uint32_t(b0) << 24 | uint32_t(b1) << 16 |
    uint32_t(b2) << 8 | uint32_t(b3)] that the source repeats wherever it
    builds a word from four bytes.  (In [ShiftRows] and [InvShiftRows] the
    shift is done in [int] and cast afterwards; the 32 bits are the same.) *)
Definition pack_word (b0 b1 b2 b3 : Z) : Z :=
  Z.lor (Z.lor (Z.lor (u32 (Z.shiftl b0 24)) (u32 (Z.shiftl b1 16)))
               (u32 (Z.shiftl b2 8)))
        (u32 b3).

(** [static_cast<uint8_t>((word >> k) & 0xFF)] *)
Definition byte_of (word k : Z) : Z := u8 (Z.land (Z.shiftr word k) 0xFF).

(** [AES::rotWord] *)
Definition rotWord (word : Z) : Z :=
  let b0 := byte_of word 24 in
  let b1 := byte_of word 16 in
  let b2 := byte_of word 8 in
  let b3 := byte_of word 0 in
  pack_word b1 b2 b3 b0.

(** [AES::subWord] *)
Definition subWord (word : Z) : Z :=
  let b0 := byte_of word 24 in
  let b1 := byte_of word 16 in
  let b2 := byte_of word 8 in
  let b3 := byte_of word 0 in
  pack_word (sBoxSub b0) (sBoxSub b1) (sBoxSub b2) (sBoxSub b3).

(** [AES::InvsubWord] *)
Definition InvsubWord (word : Z) : Z :=
  let b0 := byte_of word 24 in
  let b1 := byte_of word 16 in
  let b2 := byte_of word 8 in
  let b3 := byte_of word 0 in
  pack_word (InvsBoxSub b0) (InvsBoxSub b1) (InvsBoxSub b2) (InvsBoxSub b3).

(** [uint8_t state[4][4]], indexed [state[row][column]]. *)
Definition State : Type := list (list Z).

Definition is_state (st : State) : bool :=
  (List.length st =? 4)%nat
  && forallb (fun row => (List.length row =? 4)%nat && forallb is_byte row) st.

Fixpoint upd {A : Type} (n : nat) (f : A -> A) (l : list A) : list A :=
  match l, n with
  | [], _ => []
  | x :: l', O => f x :: l'
  | x :: l', S n' => x :: upd n' f l'
  end.

(** [state[r][c]] read and written. *)
Definition get (st : State) (r c : Z) : Z :=
  nth (Z.to_nat c) (nth (Z.to_nat r) st []) 0.

Definition put (st : State) (r c : Z) (v : Z) : State :=
  upd (Z.to_nat r) (upd (Z.to_nat c) (fun _ => v)) st.

(** The data members of [class AES] that the methods use. *)
Module AES.
Record t : Type := mk {
  Nb : Z;
  Nk : Z;
  Nr : Z;
  state : State;
  key : list Z;
  w : list Z;
  Rcon : list Z
}.
End AES.

Definition set_sizes (this : AES.t) (nk nr : Z) : AES.t :=
  AES.mk (AES.Nb this) nk nr (AES.state this) (AES.key this) (AES.w this) (AES.Rcon this).
Definition set_state (this : AES.t) (st : State) : AES.t :=
  AES.mk (AES.Nb this) (AES.Nk this) (AES.Nr this) st (AES.key this) (AES.w this) (AES.Rcon this).
Definition set_key (this : AES.t) (k : list Z) : AES.t :=
  AES.mk (AES.Nb this) (AES.Nk this) (AES.Nr this) (AES.state this) k (AES.w this) (AES.Rcon this).
Definition set_w (this : AES.t) (ks : list Z) : AES.t :=
  AES.mk (AES.Nb this) (AES.Nk this) (AES.Nr this) (AES.state this) (AES.key this) ks (AES.Rcon this).
Definition set_Rcon (this : AES.t) (rc : list Z) : AES.t :=
  AES.mk (AES.Nb this) (AES.Nk this) (AES.Nr this) (AES.state this) (AES.key this) (AES.w this) rc.

(* ================================================================== *)
(** * Key expansion *)

(** The word [temp] of one iteration of the second loop of
    [AES::KeyExpansion].  [i % Nk] with [Nk == 0] is undefined. *)
Definition next_temp (rcon : list Z) (Nk i temp : Z) : result Z :=
  if Nk =? 0 then Throw undefined
  else if Z.rem i Nk =? 0 then
    r <- index rcon (Z.quot i Nk - 1) ;;
    Ok (Z.lxor (subWord (rotWord temp)) r)
  else if (6 <? Nk) && (Z.rem i Nk =? 4) then Ok (subWord temp)
  else Ok temp.

(** [AES::KeyExpansion]: [w] is a by-value copy that is stored back into
    the object on the last line.  The [int] expressions [4 * i + 3],
    [i - 1] and [Nb * (Nr + 1)] are taken in [Z]: exact while they stay in
    the range of [int]. *)
Definition KeyExpansion (this : AES.t) (key : list Z) (w : list Z) (Nk : Z)
  : result AES.t :=
  w <- forM_range 0 Nk 1 (fun i w =>
         k0 <- at_ key (4 * i) ;;
         k1 <- at_ key (4 * i + 1) ;;
         k2 <- at_ key (4 * i + 2) ;;
         k3 <- at_ key (4 * i + 3) ;;
         Ok (w ++ [pack_word k0 k1 k2 k3])) w ;;
  w <- forM_range Nk (AES.Nb this * (AES.Nr this + 1)) 1 (fun i w =>
         temp <- at_ w (i - 1) ;;
         temp <- next_temp (AES.Rcon this) Nk i temp ;;
         prev <- at_ w (i - Nk) ;;
         Ok (w ++ [Z.lxor prev temp])) w ;;
  Ok (set_w this w).

(** [AES::initRcon]; the loop state is [(rvalue, this->Rcon)]. *)
Definition initRcon (this : AES.t) (Nr : Z) : AES.t :=
  let '(_, rcon) :=
    for_range 0 Nr (fun i '(rvalue, rcon) =>
      let rword := u32 (Z.shiftl rvalue 24) in
      (xtime rvalue, rcon ++ [rword])) (0x01, AES.Rcon this) in
  set_Rcon this rcon.

(* ================================================================== *)
(** * State transforms *)

(** [AES::AddRoundKey] *)
Definition AddRoundKey (state : State) (w : list Z) (index : Z) : result State :=
  forM_range 0 4 1 (fun i state =>
    let word := pack_word (get state 0 i) (get state 1 i)
                          (get state 2 i) (get state 3 i) in
    k <- at_ w (i + index) ;;
    let word := Z.lxor word k in
    let s0 := byte_of word 24 in
    let s1 := byte_of word 16 in
    let s2 := byte_of word 8 in
    let s3 := byte_of word 0 in
    Ok (put (put (put (put state 0 i s0) 1 i s1) 2 i s2) 3 i s3)) state.

(** [AES::SubBytes] *)
Definition SubBytes (state : State) : State :=
  for_range 0 4 (fun i state =>
    let word := pack_word (get state 0 i) (get state 1 i)
                          (get state 2 i) (get state 3 i) in
    let word := subWord word in
    let s0 := byte_of word 24 in
    let s1 := byte_of word 16 in
    let s2 := byte_of word 8 in
    let s3 := byte_of word 0 in
    put (put (put (put state 0 i s0) 1 i s1) 2 i s2) 3 i s3) state.

(** [AES::ShiftRows]: row [i] is rotated left by one position [i] times. *)
Definition ShiftRows (state : State) : State :=
  for_range 0 4 (fun i state =>
    for_range 0 i (fun j state =>
      let row := pack_word (get state i 0) (get state i 1)
                           (get state i 2) (get state i 3) in
      let r0 := byte_of row 24 in
      let r1 := byte_of row 16 in
      let r2 := byte_of row 8 in
      let r3 := byte_of row 0 in
      put (put (put (put state i 0 r1) i 1 r2) i 2 r3) i 3 r0) state) state.

(** [AES::MixColumns]: the loop runs over [this->Nb] columns. *)
Definition MixColumns (this : AES.t) (state : State) : State :=
  for_range 0 (AES.Nb this) (fun i state =>
    let s0 := get state 0 i in
    let s1 := get state 1 i in
    let s2 := get state 2 i in
    let s3 := get state 3 i in
    let state := put state 0 i
      (u8 (Z.lxor (Z.lxor (Z.lxor (ffMultiply 0x02 s0) (ffMultiply 0x03 s1)) s2) s3)) in
    let state := put state 1 i
      (u8 (Z.lxor (Z.lxor (Z.lxor s0 (ffMultiply 0x02 s1)) (ffMultiply 0x03 s2)) s3)) in
    let state := put state 2 i
      (u8 (Z.lxor (Z.lxor (Z.lxor s0 s1) (ffMultiply 0x02 s2)) (ffMultiply 0x03 s3))) in
    put state 3 i
      (u8 (Z.lxor (Z.lxor (Z.lxor (ffMultiply 0x03 s0) s1) s2) (ffMultiply 0x02 s3)))) state.

(** [AES::InvSubBytes] *)
Definition InvSubBytes (state : State) : State :=
  for_range 0 4 (fun i state =>
    let word := pack_word (get state 0 i) (get state 1 i)
                          (get state 2 i) (get state 3 i) in
    let word := InvsubWord word in
    let s0 := byte_of word 24 in
    let s1 := byte_of word 16 in
    let s2 := byte_of word 8 in
    let s3 := byte_of word 0 in
    put (put (put (put state 0 i s0) 1 i s1) 2 i s2) 3 i s3) state.

(** [AES::InvShiftRows]: row [i] is rotated right by one position [i] times. *)
Definition InvShiftRows (state : State) : State :=
  for_range 0 4 (fun i state =>
    for_range 0 i (fun j state =>
      let row := pack_word (get state i 0) (get state i 1)
                           (get state i 2) (get state i 3) in
      let r0 := byte_of row 24 in
      let r1 := byte_of row 16 in
      let r2 := byte_of row 8 in
      let r3 := byte_of row 0 in
      put (put (put (put state i 0 r3) i 1 r0) i 2 r1) i 3 r2) state) state.

(** [AES::InvMixColumns] *)
Definition InvMixColumns (this : AES.t) (state : State) : State :=
  for_range 0 (AES.Nb this) (fun i state =>
    let s0 := get state 0 i in
    let s1 := get state 1 i in
    let s2 := get state 2 i in
    let s3 := get state 3 i in
    let state := put state 0 i
      (u8 (Z.lxor (Z.lxor (Z.lxor (ffMultiply 0x0e s0) (ffMultiply 0x0b s1))
                          (ffMultiply 0x0d s2)) (ffMultiply 0x09 s3))) in
    let state := put state 1 i
      (u8 (Z.lxor (Z.lxor (Z.lxor (ffMultiply 0x09 s0) (ffMultiply 0x0e s1))
                          (ffMultiply 0x0b s2)) (ffMultiply 0x0d s3))) in
    let state := put state 2 i
      (u8 (Z.lxor (Z.lxor (Z.lxor (ffMultiply 0x0d s0) (ffMultiply 0x09 s1))
                          (ffMultiply 0x0e s2)) (ffMultiply 0x0b s3))) in
    put state 3 i
      (u8 (Z.lxor (Z.lxor (Z.lxor (ffMultiply 0x0b s0) (ffMultiply 0x0d s1))
                          (ffMultiply 0x09 s2)) (ffMultiply 0x0e s3)))) state.

(* ================================================================== *)
(** * The two state machines *)

(** The body of the loop of [AES::Cipher]; the loop state is
    [(this->state, index)]. *)
Definition Cipher_round (this : AES.t) (i : Z) (s : State * Z)
  : result (State * Z) :=
  let '(st, index) := s in
  let st := SubBytes st in
  let st := ShiftRows st in
  let st := MixColumns this st in
  st <- AddRoundKey st (AES.w this) index ;;
  Ok (st, index + 4).

(** [AES::Cipher].  The [int] expressions [Nr - 1] and [index + 4] are
    taken in [Z]: exact while they stay in the range of [int]. *)
Definition Cipher (this : AES.t) : result AES.t :=
  let index := 0 in
  st <- AddRoundKey (AES.state this) (AES.w this) index ;;
  let index := index + 4 in
  r <- forM_range 0 (AES.Nr this - 1) 1 (Cipher_round this) (st, index) ;;
  let '(st, index) := r in
  (* last round *)
  let st := SubBytes st in
  let st := ShiftRows st in
  st <- AddRoundKey st (AES.w this) index ;;
  Ok (set_state this st).

(** The body of the loop of [AES::Decipher]. *)
Definition Decipher_round (this : AES.t) (i : Z) (s : State * Z)
  : result (State * Z) :=
  let '(st, index) := s in
  let st := InvShiftRows st in
  let st := InvSubBytes st in
  st <- AddRoundKey st (AES.w this) index ;;
  let st := InvMixColumns this st in
  Ok (st, index - 4).

(** [AES::Decipher].  The [int] expressions [Nr * Nb], [Nr - 1] and
    [index - 4] are taken in [Z]: exact while they stay in the range of
    [int]. *)
Definition Decipher (this : AES.t) : result AES.t :=
  let index := AES.Nr this * AES.Nb this in
  st <- AddRoundKey (AES.state this) (AES.w this) index ;;
  let index := index - 4 in
  r <- forM_range 0 (AES.Nr this - 1) 1 (Decipher_round this) (st, index) ;;
  let '(st, index) := r in
  (* last round *)
  let st := InvShiftRows st in
  let st := InvSubBytes st in
  st <- AddRoundKey st (AES.w this) index ;;
  Ok (set_state this st).

(* ================================================================== *)
(** * Hexadecimal text: [std::stoi(s, 0, 16)] and [printState] *)

Definition code (c : ascii) : Z := Z.of_nat (nat_of_ascii c).

(** [isspace] in the C locale: space, and the controls 9 to 13. *)
Definition isspace (c : ascii) : bool :=
  (code c =? 32) || ((9 <=? code c) && (code c <=? 13)).

(** The value of a hexadecimal digit, of either case. *)
Definition hex_value (c : ascii) : option Z :=
  if (48 <=? code c) && (code c <=? 57) then Some (code c - 48)
  else if (97 <=? code c) && (code c <=? 102) then Some (code c - 87)
  else if (65 <=? code c) && (code c <=? 70) then Some (code c - 55)
  else None.

Definition is_hex (c : ascii) : bool :=
  match hex_value c with Some _ => true | None => false end.

Fixpoint skip_space (s : string) : string :=
  match s with
  | String c s' => if isspace c then skip_space s' else s
  | EmptyString => s
  end.

(** The value of the longest prefix of [s] made of hexadecimal digits. *)
Fixpoint hex_digits (s : string) (acc : Z) : Z :=
  match s with
  | String c s' =>
      match hex_value c with
      | Some d => hex_digits s' (acc * 16 + d)
      | None => acc
      end
  | EmptyString => acc
  end.

Definition starts_with_hex (s : string) : bool :=
  match s with
  | String c _ => is_hex c
  | EmptyString => false
  end.

(** A [0x] or [0X] prefix is consumed only when a digit follows it. *)
Definition strip_0x (s : string) : string :=
  match s with
  | String z (String x s') =>
      if (code z =? 48) && ((code x =? 120) || (code x =? 88)) && starts_with_hex s'
      then s' else s
  | _ => s
  end.

(** [std::stoi(s, 0, 16)]: optional white space, optional sign, optional
    prefix, then as many hexadecimal digits as there are; trailing text is
    ignored.  No digit: [std::invalid_argument]; a value outside [int]:
    [std::out_of_range]. *)
Definition stoi (s : string) : result Z :=
  let s := skip_space s in
  let '(neg, s) :=
    match s with
    | String c s' =>
        if code c =? 45 then (true, s')
        else if code c =? 43 then (false, s')
        else (false, s)
    | EmptyString => (false, s)
    end in
  let s := strip_0x s in
  if starts_with_hex s then
    let v := hex_digits s 0 in
    let v := if neg : bool then - v else v in
    if (-2147483648 <=? v) && (v <=? 2147483647) then Ok v
    else Throw out_of_range
  else Throw invalid_argument.

(** [s.substr(i, 2)] for [i] below the length of [s]. *)
Definition substr2 (s : string) (i : Z) : string :=
  substring (Z.to_nat i) 2 s.

Definition hex_char (d : Z) : ascii :=
  nth (Z.to_nat d) (list_ascii_of_string "0123456789abcdef") "0"%char.

(** [hex << setw(2) << setfill('0') << static_cast<int>(b)] for a byte. *)
Definition hex2 (b : Z) : string :=
  String (hex_char (b / 16)) (String (hex_char (b mod 16)) EmptyString).

(** What [AES::printState] writes: the grid column by column. *)
Definition printState (this : AES.t) : string :=
  for_range 0 4 (fun i out =>
    for_range 0 4 (fun j out =>
      (out ++ hex2 (get (AES.state this) j i))%string) out) EmptyString.

(* ================================================================== *)
(** * Construction *)

(** [AES::initState]: [state] is the member array as the constructor finds
    it; every cell is overwritten when no exception is raised. *)
Definition initState (input : string) (state : State) : result State :=
  bytes <- forM_range 0 (Z.of_nat (String.length input)) 2 (fun i bytes =>
             n <- stoi (substr2 input i) ;;
             let byte := u8 n in
             Ok (bytes ++ [byte])) [] ;;
  forM_range 0 4 1 (fun i state =>
    forM_range 0 4 1 (fun j state =>
      b <- at_ bytes (i * 4 + j) ;;
      Ok (put state j i b)) state) state.

Definition endl : string := String (ascii_of_nat 10) EmptyString.

(** The loop of [AES::initKey] that fills [this->key]. *)
Definition parse_key (key : string) (this : AES.t) : result AES.t :=
  forM_range 0 (Z.of_nat (String.length key)) 2 (fun i this =>
    n <- stoi (substr2 key i) ;;
    let byte := u8 n in
    Ok (set_key this (AES.key this ++ [byte]))) this.

(** [AES::initKey], paired with what it writes to [cout].  The [default]
    label returns without touching the object. *)
Definition initKey (key : string) (encrypt : bool) (this : AES.t)
  : list string * result AES.t :=
  let banner := if encrypt then [] else ["INVERSE CIPHER (DECRYPT):"; endl]%string in
  let bits := Z.of_nat (String.length key) / 2 * 8 in
  if bits =? 128 then
    (banner ++ (if encrypt then ["C.1   AES-128 (Nk=4, Nr=10)"; endl]%string else []),
     parse_key key (set_sizes this 4 10))
  else if bits =? 192 then
    (banner ++ (if encrypt then ["C.2   AES-192 (Nk=6, Nr=12)"; endl]%string else []),
     parse_key key (set_sizes this 6 12))
  else if bits =? 256 then
    (banner ++ (if encrypt then ["C.3   AES-256 (Nk=8, Nr=14)"; endl]%string else []),
     parse_key key (set_sizes this 8 14))
  else (banner, Ok this).

(** A 4x4 grid of zero bytes. *)
Definition blank : State := repeat (repeat 0 4) 4.

(** The constructor [AES::AES(input, key, encrypt)], paired with what it
    writes to [cout].  [Nk0] and [Nr0] are whatever the storage of the two
    [int] members holds beforehand: [initKey] leaves them as they are for a
    key length it does not know.  Reading them is then undefined in C++, so
    on that path the model shows one course that the program may take; it
    is exact for a key of 16, 24 or 32 bytes, where [initKey] assigns both
    before they are read.  The vectors start empty, and the state array, of
    which [initState] overwrites every cell, starts as [blank].  An
    exception leaves no object. *)
Definition AES_ctor (Nk0 Nr0 : Z) (input key : string) (encrypt : bool)
  : list string * result AES.t :=
  let this := AES.mk 4 Nk0 Nr0 blank [] [] [] in
  match initState input (AES.state this) with
  | Throw e => ([], Throw e)
  | Ok st =>
      let this := set_state this st in
      let '(out, r) := initKey key encrypt this in
      match r with
      | Throw e => (out, Throw e)
      | Ok this =>
          let out :=
            (out ++ if encrypt
                    then [endl; "PLAINTEXT:          "%string; input; endl;
                          "KEY:                "%string; key; endl; endl]
                    else [])%list in
          let this := initRcon this (AES.Nr this) in
          (out, KeyExpansion this (AES.key this) (AES.w this) (AES.Nk this))
      end
  end.

(* ================================================================== *)
(** * Definitions used to state the properties *)

(** The 256 byte values and the 256 characters, for checks by enumeration. *)
Definition bytes256 : list Z := map Z.of_nat (seq 0 256).
Definition chars256 : list ascii := map ascii_of_nat (seq 0 256).

(** A state written out cell by cell, row after row. *)
Definition grid (a0 a1 a2 a3 b0 b1 b2 b3 c0 c1 c2 c3 d0 d1 d2 d3 : Z) : State :=
  [[a0; a1; a2; a3]; [b0; b1; b2; b3]; [c0; c1; c2; c3]; [d0; d1; d2; d3]].

(** The field modulus m(x) = x^8 + x^4 + x^3 + x + 1, one bit per
    coefficient. *)
Definition modulus : Z := 0x11b.

(** Polynomial remainder modulo [modulus] by long division: [poly_mod n p]
    cancels the coefficients of degree [n + 7] down to 8 of [p], highest
    first. *)
Fixpoint poly_mod (n : nat) (p : Z) : Z :=
  match n with
  | O => p
  | S n' =>
      poly_mod n' (if Z.testbit p (Z.of_nat n' + 8)
                   then Z.lxor p (Z.shiftl modulus (Z.of_nat n'))
                   else p)
  end.

(** x^i mod m(x): the monomial x^i has degree [i]. *)
Definition x_pow_mod (i : nat) : Z := poly_mod (i - 7) (2 ^ Z.of_nat i).

(** The four words of the round key at offset [index], as columns: the
    byte at bit [shift] of the word that [AddRoundKey] reads for column
    [col]. *)
Definition key_byte (w : list Z) (index col shift : Z) : Z :=
  byte_of (nth (Z.to_nat (col + index)) w 0) shift.

(** What [InvMixColumns] after [MixColumns] multiplies input byte [j] of a
    column by, for the row [k0 k1 k2 k3] of the inverse matrix: the sum over
    the four rows of the forward matrix, whose column [j] is a rotation of
    (2, 1, 1, 3). *)
Definition mix_coeff (k0 k1 k2 k3 : Z) (j : nat) (s : Z) : Z :=
  match j with
  | 0%nat => Z.lxor (Z.lxor (Z.lxor (ffMultiply k0 (ffMultiply 0x02 s)) (ffMultiply k1 s))
                            (ffMultiply k2 s)) (ffMultiply k3 (ffMultiply 0x03 s))
  | 1%nat => Z.lxor (Z.lxor (Z.lxor (ffMultiply k0 (ffMultiply 0x03 s)) (ffMultiply k1 (ffMultiply 0x02 s)))
                            (ffMultiply k2 s)) (ffMultiply k3 s)
  | 2%nat => Z.lxor (Z.lxor (Z.lxor (ffMultiply k0 s) (ffMultiply k1 (ffMultiply 0x03 s)))
                            (ffMultiply k2 (ffMultiply 0x02 s))) (ffMultiply k3 s)
  | _ => Z.lxor (Z.lxor (Z.lxor (ffMultiply k0 s) (ffMultiply k1 s))
                        (ffMultiply k2 (ffMultiply 0x03 s))) (ffMultiply k3 (ffMultiply 0x02 s))
  end.

(** Section 4.5 of the specification, Decrypt, step 2: rounds [r], [r + 1],
    ... ([n] of them), each InvShiftRows, InvSubBytes, AddRoundKey with the
    4-word slice of round [Nr - r], InvMixColumns. *)
Fixpoint spec_inv_rounds (this : AES.t) (n : nat) (r : Z) (st : State)
  : result State :=
  match n with
  | O => Ok st
  | S n' =>
      st <- AddRoundKey (InvSubBytes (InvShiftRows st)) (AES.w this)
                        (4 * (AES.Nr this - r)) ;;
      spec_inv_rounds this n' (r + 1) (InvMixColumns this st)
  end.

(** Section 4.5 of the specification, Decrypt: AddRoundKey with the last
    four words of the schedule, rounds 1 to [Nr - 1], and the final round on
    the words 0 to 3, without InvMixColumns. *)
Definition Decipher_spec (this : AES.t) : result AES.t :=
  st <- AddRoundKey (AES.state this) (AES.w this) (AES.Nr this * AES.Nb this) ;;
  st <- spec_inv_rounds this (Z.to_nat (AES.Nr this - 1)) 1 st ;;
  st <- AddRoundKey (InvSubBytes (InvShiftRows st)) (AES.w this) 0 ;;
  Ok (set_state this st).

(** The element that [v.at(i)] returns when [i] is in range. *)
Definition word_at (v : list Z) (i : Z) : Z := nth (Z.to_nat i) v 0.

(** Section 4.3 of the specification: the word [temp] that goes into word
    [i] of the schedule, from the word [last] before it. *)
Definition spec_temp (rcon : list Z) (Nk i last : Z) : Z :=
  if i mod Nk =? 0 then Z.lxor (subWord (rotWord last)) (word_at rcon (i / Nk - 1))
  else if (6 <? Nk) && (i mod Nk =? 4) then subWord last
  else last.

(** The object as [initKey] leaves it for a key of 16, 24 or 32 bytes, in
    the constructor: [Nb] is 4, [Nk] and [Nr] are one of the three pairs,
    the key bytes are stored, and the two other vectors are still empty. *)
Definition is_keyed (this : AES.t) : bool :=
  (AES.Nb this =? 4)
  && (((AES.Nk this =? 4) && (AES.Nr this =? 10))
      || ((AES.Nk this =? 6) && (AES.Nr this =? 12))
      || ((AES.Nk this =? 8) && (AES.Nr this =? 14)))
  && (4 * AES.Nk this <=? Z.of_nat (List.length (AES.key this)))
  && forallb is_byte (AES.key this)
  && (List.length (AES.w this) =? 0)%nat
  && (List.length (AES.Rcon this) =? 0)%nat.

(** The last two statements of the constructor. *)
Definition expand (this : AES.t) : result AES.t :=
  let this := initRcon this (AES.Nr this) in
  KeyExpansion this (AES.key this) (AES.w this) (AES.Nk this).

(** What section 4.3 of the specification says of the schedule, as far as
    its first [i] words: they are [i] words; those below [Nk] are the key,
    four bytes to a word, first byte highest; every later one is the word
    [Nk] places before it, exclusive-or [spec_temp] of the word just before
    it. *)
Definition schedule_prefix (rcon key : list Z) (Nk i : Z) (w : list Z) : Prop :=
  Z.of_nat (List.length w) = i /\
  (forall j, 0 <= j < Nk -> j < i ->
     word_at w j = pack_word (word_at key (4 * j)) (word_at key (4 * j + 1))
                             (word_at key (4 * j + 2)) (word_at key (4 * j + 3))) /\
  (forall j, Nk <= j < i ->
     word_at w j = Z.lxor (word_at w (j - Nk))
                          (spec_temp rcon Nk j (word_at w (j - 1)))).

(** Strings of hexadecimal digits. *)
Definition is_hex_string (s : string) : bool :=
  forallb is_hex (list_ascii_of_string s).

(** The byte that the parsing loops of [initState] and [initKey] push for
    the two characters at position [i], when [stoi] accepts them. *)
Definition chunk_byte (s : string) (i : Z) : Z :=
  match stoi (substr2 s i) with
  | Ok n => u8 n
  | Throw _ => 0
  end.

(** The bytes that the loop pushes in [n] iterations from position [lo]. *)
Definition chunk_bytes (s : string) (lo : Z) (n : nat) : list Z :=
  map (fun t => chunk_byte s (lo + 2 * Z.of_nat t)) (seq 0 n).

(** The second loop nest of [initState] when no read is out of range. *)
Definition fill_state (bytes : list Z) (state : State) : State :=
  for_ 4 0 (fun i state =>
    for_ 4 0 (fun j state => put state j i (word_at bytes (i * 4 + j))) state) state.

Definition stoi_ok (s : string) : bool :=
  match stoi s with Ok _ => true | Throw _ => false end.

(** The construction of the substitution table in the AES standard: the
    multiplicative inverse in the field, b^254 (0 for 0), followed by the
    affine map x + rot1 x + rot2 x + rot3 x + rot4 x + 0x63. *)
Definition ffInverse (b : Z) : Z :=
  let b2 := ffMultiply b b in
  let b4 := ffMultiply b2 b2 in
  let b8 := ffMultiply b4 b4 in
  let b16 := ffMultiply b8 b8 in
  let b32 := ffMultiply b16 b16 in
  let b64 := ffMultiply b32 b32 in
  let b128 := ffMultiply b64 b64 in
  ffMultiply (ffMultiply (ffMultiply (ffMultiply (ffMultiply (ffMultiply
    b2 b4) b8) b16) b32) b64) b128.

Definition rotl8 (x k : Z) : Z :=
  u8 (Z.lor (Z.shiftl x k) (Z.shiftr x (8 - k))).

Definition affine (x : Z) : Z :=
  Z.lxor (Z.lxor (Z.lxor (Z.lxor (Z.lxor x (rotl8 x 1)) (rotl8 x 2))
                         (rotl8 x 3)) (rotl8 x 4)) 0x63.

(* ================================================================== *)
(** * Definitions used to state further properties *)

(** The eight powers of two below 256. *)
Definition pow2s : list Z := [1; 2; 4; 8; 16; 32; 64; 128].

(** The values of a [uint32_t]. *)
Definition is_word (x : Z) : bool := (0 <=? x) && (x <? 4294967296).

(** The sixteen cells of a state in the order in which [printState] writes
    them and [initState] fills them: column by column. *)
Definition cells (st : State) : list Z :=
  flat_map (fun i => map (fun j => get st j i) [0; 1; 2; 3]) [0; 1; 2; 3].

(** Bytes written as two hexadecimal digits each. *)
Definition hex_of_bytes (l : list Z) : string :=
  fold_right (fun b s => (hex2 b ++ s)%string) EmptyString l.

(** The characters [+] and [-]. *)
Definition is_sign (c : ascii) : bool := (code c =? 43) || (code c =? 45).

Definition digit (c : ascii) : Z :=
  match hex_value c with Some d => d | None => 0 end.

(** The text of at most two characters at position [i] of [s] holds a
    number for [stoi]: it starts with a digit, or with a sign or a white
    space that a digit follows. *)
Definition chunk_ok (s : string) (i : nat) : bool :=
  match String.get i s with
  | None => false
  | Some c1 =>
      is_hex c1 ||
      match String.get (S i) s with
      | Some c2 => (isspace c1 || is_sign c1) && is_hex c2
      | None => false
      end
  end.

(** The number that this text holds. *)
Definition chunk_int (s : string) (i : nat) : Z :=
  match String.get i s, String.get (S i) s with
  | Some c1, Some c2 =>
      if is_hex c1 then (if is_hex c2 then 16 * digit c1 + digit c2 else digit c1)
      else if code c1 =? 45 then - digit c2 else digit c2
  | Some c1, None => digit c1
  | None, _ => 0
  end.

(** The number of two-character steps through [s]. *)
Definition chunk_count (s : string) : nat := (S (String.length s) / 2)%nat.

(** Every step through [s] finds a number, and the bytes they give. *)
Definition accepted (s : string) : bool :=
  forallb (fun k => chunk_ok s (2 * k)) (seq 0 (chunk_count s)).

Definition parsed (s : string) : list Z :=
  map (fun k => u8 (chunk_int s (2 * k))) (seq 0 (chunk_count s)).

(** The first [n] round constants: x^k mod m(x) in the top byte of a
    word. *)
Definition round_constants (n : Z) : list Z :=
  map (fun k => Z.shiftl (x_pow_mod k) 24) (seq 0 (Z.to_nat n)).

(* ================================================================== *)
(** * SHA-1 of [SHA1.cpp]: shallow embedding

    A [std::string] is a [string]; its characters are read as bytes through
    [code].  [uint32_t] and [uint64_t] values are [Z] with the truncation
    written out ([u32], [u64]).  The data members [H0] to [H4] are the
    record [SHA1.t]; the constant member [K] is a list.  What C++ leaves
    undefined - a shift of a 32-bit word by 32 or more, an unchecked read or
    write past the end of a vector or a string - is [Throw undefined]. *)

(** Arithmetic in [uint64_t] and [size_t]. *)
Definition u64 (x : Z) : Z := x mod 18446744073709551616.

(** [static_cast<char>(b)] *)
Definition char_of (b : Z) : ascii := ascii_of_nat (Z.to_nat (b mod 256)).

(** [s += static_cast<char>(b)] *)
Definition push_char (s : string) (b : Z) : string :=
  (s ++ String (char_of b) EmptyString)%string.

(** [for (int i = lo; i < hi; i += step) body] with a body that does not
    raise. *)
Fixpoint for_by {St : Type} (n : nat) (i step : Z) (body : Z -> St -> St) (s : St)
  : St :=
  match n with
  | O => s
  | S n' => for_by n' (i + step) step body (body i s)
  end.

Definition for_range_by {St : Type} (lo hi step : Z) (body : Z -> St -> St) (s : St)
  : St :=
  for_by (Z.to_nat ((hi - lo + step - 1) / step)) lo step body s.

(** [SHA1::pad_message] *)
Definition pad_message (message : string) : string :=
  let originalLength := u64 (Z.of_nat (String.length message) * 8) in
  let paddedMessage := push_char message 0x80 in
  let paddingLength :=
    u64 (u64 (448 - u64 (originalLength + 8) mod 512) + 512) mod 512 in
  let paddedMessage :=
    for_range_by 0 paddingLength 8
      (fun i paddedMessage => push_char paddedMessage 0x00) paddedMessage in
  let paddedMessage := push_char paddedMessage (Z.land (Z.shiftr originalLength 56) 0xFF) in
  let paddedMessage := push_char paddedMessage (Z.land (Z.shiftr originalLength 48) 0xFF) in
  let paddedMessage := push_char paddedMessage (Z.land (Z.shiftr originalLength 40) 0xFF) in
  let paddedMessage := push_char paddedMessage (Z.land (Z.shiftr originalLength 32) 0xFF) in
  let paddedMessage := push_char paddedMessage (Z.land (Z.shiftr originalLength 24) 0xFF) in
  let paddedMessage := push_char paddedMessage (Z.land (Z.shiftr originalLength 16) 0xFF) in
  let paddedMessage := push_char paddedMessage (Z.land (Z.shiftr originalLength 8) 0xFF) in
  let paddedMessage := push_char paddedMessage (Z.land originalLength 0xFF) in
  paddedMessage.

(** [SHA1::ROTL]: both shifts of the [uint32_t] are defined only for a
    count from 1 to 31. *)
Definition ROTL (x n : Z) : result Z :=
  if (0 <? n) && (n <? 32)
  then Ok (Z.lxor (u32 (Z.shiftl x n)) (Z.shiftr x (32 - n)))
  else Throw undefined.

(** [SHA1::Parity] *)
Definition Parity (x y z : Z) : Z := Z.lxor (Z.lxor x y) z.

(** [SHA1::Maj] *)
Definition Maj (x y z : Z) : Z :=
  Z.lxor (Z.lxor (Z.land x y) (Z.land x z)) (Z.land y z).

(** [SHA1::Ch]; [~x] on a [uint32_t]. *)
Definition Ch (x y z : Z) : Z :=
  Z.lxor (Z.land x y) (Z.land (u32 (Z.lnot x)) z).

Module SHA1.
Record t : Type := mk {
  H0 : Z;
  H1 : Z;
  H2 : Z;
  H3 : Z;
  H4 : Z
}.
End SHA1.

(** The constant member [K]. *)
Definition K : list Z := [0x5a827999; 0x6ed9eba1; 0x8f1bbcdc; 0xca62c1d6].

(** [static_cast<uint8_t>(block[k])] on a [std::string]: the character at
    [k], the terminating zero for [k == block.size()], undefined past
    that. *)
Definition char_at (block : string) (k : Z) : result Z :=
  if k <? 0 then Throw undefined
  else match String.get (Z.to_nat k) block with
       | Some c => Ok (code c)
       | None => if k =? Z.of_nat (String.length block) then Ok 0
                 else Throw undefined
       end.

(** [W[t] = v] on a vector, unchecked. *)
Definition store (W : list Z) (t v : Z) : result (list Z) :=
  if (0 <=? t) && (t <? Z.of_nat (List.length W))
  then Ok (upd (Z.to_nat t) (fun _ => v) W)
  else Throw undefined.

(** The body of the main loop of [SHA1::processBlock]; the loop state is
    [(a, b, c, d, e)]. *)
Definition processBlock_round (W : list Z) (i : Z) (s : Z * Z * Z * Z * Z)
  : result (Z * Z * Z * Z * Z) :=
  let '(a, b, c, d, e) := s in
  let '(f, k) :=
    if i <? 20 then (Ch b c d, nth 0 K 0)
    else if i <? 40 then (Parity b c d, nth 1 K 0)
    else if i <? 60 then (Maj b c d, nth 2 K 0)
    else (Parity b c d, nth 3 K 0) in
  r5 <- ROTL a 5 ;;
  w <- index W i ;;
  let temp := u32 (u32 (u32 (u32 (r5 + f) + e) + k) + w) in
  let e := d in
  let d := c in
  c <- ROTL b 30 ;;
  let b := a in
  let a := temp in
  Ok (a, b, c, d, e).

(** [SHA1::processBlock]; the word [(b0 << 24) | (b1 << 16) | (b2 << 8) | b3]
    of four bytes, stored into a [uint32_t], is [pack_word]. *)
Definition processBlock (this : SHA1.t) (block : string) : result SHA1.t :=
  W <- forM_range 0 16 1 (fun t W =>
         b0 <- char_at block (t * 4) ;;
         b1 <- char_at block (t * 4 + 1) ;;
         b2 <- char_at block (t * 4 + 2) ;;
         b3 <- char_at block (t * 4 + 3) ;;
         store W t (pack_word b0 b1 b2 b3)) (repeat 0 80) ;;
  W <- forM_range 16 80 1 (fun t W =>
         w3 <- index W (t - 3) ;;
         w8 <- index W (t - 8) ;;
         w14 <- index W (t - 14) ;;
         w16 <- index W (t - 16) ;;
         r <- ROTL (Z.lxor (Z.lxor (Z.lxor w3 w8) w14) w16) 1 ;;
         store W t r) W ;;
  r <- forM_range 0 80 1 (processBlock_round W)
         (SHA1.H0 this, SHA1.H1 this, SHA1.H2 this, SHA1.H3 this, SHA1.H4 this) ;;
  let '(a, b, c, d, e) := r in
  Ok (SHA1.mk (u32 (SHA1.H0 this + a)) (u32 (SHA1.H1 this + b))
              (u32 (SHA1.H2 this + c)) (u32 (SHA1.H3 this + d))
              (u32 (SHA1.H4 this + e))).

(** The loop of [SHA1::processBlocks]. *)
Definition processBlocks_loop (paddedMessage : string) (this : SHA1.t)
  : result SHA1.t :=
  forM_range 0 (Z.of_nat (String.length paddedMessage)) 64 (fun i this =>
    let block := substring (Z.to_nat i) 64 paddedMessage in
    processBlock this block) this.

(** [SHA1::processBlocks]: the five hash values are set anew, whatever
    the object held. *)
Definition processBlocks (this : SHA1.t) (paddedMessage : string) : result SHA1.t :=
  let this := SHA1.mk 0x67452301 0xEFCDAB89 0x98BADCFE 0x10325476 0xC3D2E1F0 in
  processBlocks_loop paddedMessage this.

(** [hex << setfill('0') << setw(8) << w] for a [uint32_t]. *)
Definition hex8 (w : Z) : string :=
  string_of_list_ascii
    (map (fun k => hex_char (Z.land (Z.shiftr w k) 15)) [28; 24; 20; 16; 12; 8; 4; 0]).

(** [SHA1::getHash] *)
Definition getHash (this : SHA1.t) : string :=
  (hex8 (SHA1.H0 this) ++ hex8 (SHA1.H1 this) ++ hex8 (SHA1.H2 this)
   ++ hex8 (SHA1.H3 this) ++ hex8 (SHA1.H4 this))%string.

(** [SHA1::digest]: the object after the call, and the text returned. *)
Definition digest (this : SHA1.t) (message : string) : result (SHA1.t * string) :=
  let paddedMessage := pad_message message in
  this <- processBlocks this paddedMessage ;;
  Ok (this, getHash this).

(** What [pad_message] appends to a message of [n] bytes: the byte 0x80,
    zero bytes up to 56 modulo 64, and the bit length as eight bytes. *)
Definition padding (n : nat) : string :=
  String (char_of 0x80)
    (string_of_list_ascii
       (repeat (char_of 0) (Z.to_nat ((55 - Z.of_nat n) mod 64))) ++
     string_of_list_ascii
       (map (fun s => char_of (Z.land (Z.shiftr (u64 (Z.of_nat n * 8)) s) 255))
            [56; 48; 40; 32; 24; 16; 8; 0])).

(* ================================================================== *)
(** * Bytes *)

Lemma is_byte_iff x : is_byte x = true <-> 0 <= x < 256.
Proof.
  unfold is_byte. rewrite andb_true_iff, Z.leb_le, Z.ltb_lt. reflexivity.
Qed.

Lemma u8_byte x : is_byte (u8 x) = true.
Proof.
  apply is_byte_iff. unfold u8. apply Z.mod_pos_bound. lia.
Qed.

Lemma u8_small x : is_byte x = true -> u8 x = x.
Proof.
  intros H. apply is_byte_iff in H. unfold u8. apply Z.mod_small. lia.
Qed.

Lemma byte_mod x : is_byte x = true -> x mod 2 ^ 8 = x.
Proof. exact (u8_small x). Qed.

Lemma In_bytes256 x : is_byte x = true -> In x bytes256.
Proof.
  intros H. apply is_byte_iff in H. unfold bytes256.
  apply in_map_iff. exists (Z.to_nat x). split; [lia|].
  apply in_seq. lia.
Qed.

(** A property of bytes checked on the 256 of them holds of every byte. *)
Lemma byte_enum (P : Z -> bool) :
  forallb P bytes256 = true -> forall x, is_byte x = true -> P x = true.
Proof.
  intros H x Hx. rewrite forallb_forall in H. apply H, In_bytes256, Hx.
Qed.

Lemma lxor_byte x y : is_byte x = true -> is_byte y = true -> is_byte (Z.lxor x y) = true.
Proof.
  intros Hx Hy. apply byte_mod in Hx, Hy.
  rewrite <- Hx, <- Hy. clear.
  rewrite <- (u8_byte (Z.lxor (x mod 2 ^ 8) (y mod 2 ^ 8))).
  f_equal. unfold u8. change 256 with (2 ^ 8). Z.bitblast.
Qed.

Lemma u8_lxor x y : is_byte x = true -> is_byte y = true -> u8 (Z.lxor x y) = Z.lxor x y.
Proof. intros. apply u8_small, lxor_byte; assumption. Qed.

Create HintDb bytes.
#[export] Hint Resolve u8_byte lxor_byte : bytes.

(* ================================================================== *)
(** * Finite field arithmetic *)

Lemma xtime_byte b : is_byte (xtime b) = true.
Proof.
  unfold xtime. destruct (Z.land b 128 =? 0); apply u8_byte.
Qed.
#[export] Hint Resolve xtime_byte : bytes.

(** Equality of two exclusive-or combinations of the same terms. *)
Ltac lxor_ac :=
  apply Z.bits_inj'; intros ?n ?Hn; rewrite !Z.lxor_spec, ?Z.testbit_0_l; btauto.

(** [xtime] is a shift, and the reduction constant when the top bit of the
    argument is set. *)
Lemma xtime_testbit b :
  is_byte b = true ->
  xtime b = Z.lxor (u8 (Z.shiftl b 1)) (if Z.testbit b 7 then 0x1b else 0).
Proof.
  intros Hb. apply Z.eqb_eq. revert b Hb.
  apply (byte_enum (fun b => xtime b =?
           Z.lxor (u8 (Z.shiftl b 1)) (if Z.testbit b 7 then 0x1b else 0))).
  vm_compute. reflexivity.
Qed.

Lemma u8_shiftl_lxor b c :
  u8 (Z.shiftl (Z.lxor b c) 1) = Z.lxor (u8 (Z.shiftl b 1)) (u8 (Z.shiftl c 1)).
Proof. unfold u8. change 256 with (2 ^ 8). Z.bitblast. Qed.

Lemma xtime_lxor b c :
  is_byte b = true -> is_byte c = true ->
  xtime (Z.lxor b c) = Z.lxor (xtime b) (xtime c).
Proof.
  intros Hb Hc.
  rewrite !xtime_testbit by auto with bytes.
  rewrite u8_shiftl_lxor, Z.lxor_spec.
  destruct (Z.testbit b 7), (Z.testbit c 7); cbn [xorb]; lxor_ac.
Qed.

(** One pass of the loop of [ffMultiply] is linear in the pair
    [(b, sum)], for a fixed multiplicand [a]. *)
Lemma ffMultiply_loop_lxor n : forall i a b c s1 s2,
  is_byte b = true -> is_byte c = true ->
  is_byte s1 = true -> is_byte s2 = true ->
  snd (for_ n i ffMultiply_body (a, Z.lxor b c, Z.lxor s1 s2)) =
  Z.lxor (snd (for_ n i ffMultiply_body (a, b, s1)))
         (snd (for_ n i ffMultiply_body (a, c, s2))).
Proof.
  induction n as [|n IH]; intros i a b c s1 s2 Hb Hc H1 H2.
  - reflexivity.
  - cbn [for_]. unfold ffMultiply_body at 2 4 6.
    assert (Hs : u8 (Z.lxor (Z.lxor s1 s2) (Z.lxor b c)) =
                 Z.lxor (u8 (Z.lxor s1 b)) (u8 (Z.lxor s2 c))).
    { rewrite !u8_lxor by auto with bytes.
      rewrite !Z.lxor_assoc. f_equal.
      rewrite <- !Z.lxor_assoc. f_equal. apply Z.lxor_comm. }
    destruct (Z.land a 1 =? 0); destruct (i <? 7);
      rewrite ?Hs, ?xtime_lxor by assumption;
      apply IH; auto with bytes.
Qed.

Lemma ffMultiply_snd a b :
  ffMultiply a b = snd (for_ 8 0 ffMultiply_body (a, b, 0)).
Proof.
  unfold ffMultiply, for_range. change (Z.to_nat (8 - 0)) with 8%nat.
  destruct (for_ 8 0 ffMultiply_body (a, b, 0)) as [[a' b'] s]. reflexivity.
Qed.

Lemma ffMultiply_lxor a b c :
  is_byte b = true -> is_byte c = true ->
  ffMultiply a (Z.lxor b c) = Z.lxor (ffMultiply a b) (ffMultiply a c).
Proof.
  intros Hb Hc. rewrite !ffMultiply_snd.
  change 0 with (Z.lxor 0 0) at 2.
  apply ffMultiply_loop_lxor; auto.
Qed.

Lemma ffMultiply_loop_byte n : forall i a b s,
  is_byte s = true -> is_byte (snd (for_ n i ffMultiply_body (a, b, s))) = true.
Proof.
  induction n as [|n IH]; intros i a b s Hs.
  - exact Hs.
  - cbn [for_]. unfold ffMultiply_body at 2.
    destruct (Z.land a 1 =? 0); destruct (i <? 7); apply IH; auto with bytes.
Qed.

Lemma ffMultiply_byte a b : is_byte (ffMultiply a b) = true.
Proof. rewrite ffMultiply_snd. apply ffMultiply_loop_byte. reflexivity. Qed.
#[export] Hint Resolve ffMultiply_byte : bytes.

(** The low bit and the shift of an exclusive or. *)
Lemma low_bit_lxor a1 a2 :
  (Z.land (Z.lxor a1 a2) 1 =? 0) =
  Bool.eqb (Z.land a1 1 =? 0) (Z.land a2 1 =? 0).
Proof.
  change 1 with (Z.ones 1). rewrite !Z.land_ones by lia.
  change (2 ^ 1) with 2.
  assert (E : Z.lxor a1 a2 mod 2 = Z.lxor (a1 mod 2) (a2 mod 2)).
  { change 2 with (2 ^ 1). Z.bitblast. }
  rewrite E.
  pose proof (Z.mod_pos_bound a1 2 ltac:(lia)) as H1.
  pose proof (Z.mod_pos_bound a2 2 ltac:(lia)) as H2.
  assert (C1 : a1 mod 2 = 0 \/ a1 mod 2 = 1) by lia.
  assert (C2 : a2 mod 2 = 0 \/ a2 mod 2 = 1) by lia.
  destruct C1 as [-> | ->], C2 as [-> | ->]; reflexivity.
Qed.

Lemma u8_shiftr_lxor a1 a2 :
  u8 (Z.shiftr (Z.lxor a1 a2) 1) = Z.lxor (u8 (Z.shiftr a1 1)) (u8 (Z.shiftr a2 1)).
Proof. unfold u8. change 256 with (2 ^ 8). Z.bitblast. Qed.

(** One pass of the loop of [ffMultiply] is linear in the pair
    [(a, sum)] as well, for a fixed multiplier [b]. *)
Lemma ffMultiply_loop_lxor_l n : forall i a1 a2 b s1 s2,
  is_byte b = true -> is_byte s1 = true -> is_byte s2 = true ->
  snd (for_ n i ffMultiply_body (Z.lxor a1 a2, b, Z.lxor s1 s2)) =
  Z.lxor (snd (for_ n i ffMultiply_body (a1, b, s1)))
         (snd (for_ n i ffMultiply_body (a2, b, s2))).
Proof.
  induction n as [|n IH]; intros i a1 a2 b s1 s2 Hb H1 H2.
  - reflexivity.
  - cbn [for_]. unfold ffMultiply_body at 2 4 6.
    rewrite low_bit_lxor, u8_shiftr_lxor.
    assert (E1 : u8 (Z.lxor (Z.lxor s1 s2) b) = Z.lxor (u8 (Z.lxor s1 b)) s2).
    { rewrite !u8_lxor by auto with bytes. lxor_ac. }
    assert (E2 : u8 (Z.lxor (Z.lxor s1 s2) b) = Z.lxor s1 (u8 (Z.lxor s2 b))).
    { rewrite !u8_lxor by auto with bytes. lxor_ac. }
    assert (E3 : Z.lxor s1 s2 = Z.lxor (u8 (Z.lxor s1 b)) (u8 (Z.lxor s2 b))).
    { rewrite !u8_lxor by auto with bytes. lxor_ac. }
    destruct (i <? 7);
      (destruct (Z.land a1 1 =? 0), (Z.land a2 1 =? 0); cbn [Bool.eqb];
       [ | rewrite E2 | rewrite E1 | rewrite E3 ];
       apply IH; auto with bytes).
Qed.

Lemma ffMultiply_lxor_l a1 a2 b :
  is_byte b = true ->
  ffMultiply (Z.lxor a1 a2) b = Z.lxor (ffMultiply a1 b) (ffMultiply a2 b).
Proof.
  intros Hb. rewrite !ffMultiply_snd.
  change 0 with (Z.lxor 0 0) at 2.
  apply ffMultiply_loop_lxor_l; auto.
Qed.

Lemma testbit_high p k i : 0 <= p < 2 ^ k -> 0 <= k <= i -> Z.testbit p i = false.
Proof.
  intros Hp Hk. rewrite <- (Z.mod_small p (2 ^ k)) by exact Hp.
  apply Z.mod_pow2_bits_high. lia.
Qed.

(** A number with its top bit split off. *)
Lemma split_top_bit x n :
  0 <= n -> 2 ^ n <= x < 2 ^ (n + 1) -> Z.lxor (2 ^ n) (x - 2 ^ n) = x.
Proof.
  intros Hn Hx. rewrite Z.pow_add_r, Z.pow_1_r in Hx by lia.
  rewrite <- Z.add_nocarry_lxor; [lia|].
  apply Z.bits_inj'. intros i Hi.
  rewrite Z.land_spec, Z.bits_0, Z.pow2_bits_eqb by lia.
  destruct (Z.eqb_spec n i) as [<-|Hne]; [|reflexivity].
  rewrite (testbit_high (x - 2 ^ n) n n) by lia. reflexivity.
Qed.

(** Two additive functions on bytes that agree on the powers of two agree
    on every byte. *)
Lemma additive_basis (f g : Z -> Z) :
  (forall x y, is_byte x = true -> is_byte y = true ->
               f (Z.lxor x y) = Z.lxor (f x) (f y)) ->
  (forall x y, is_byte x = true -> is_byte y = true ->
               g (Z.lxor x y) = Z.lxor (g x) (g y)) ->
  (forall k, 0 <= k < 8 -> f (2 ^ k) = g (2 ^ k)) ->
  forall x, is_byte x = true -> f x = g x.
Proof.
  intros Hf Hg Hb.
  assert (Hzero : forall h : Z -> Z,
            (forall x y, is_byte x = true -> is_byte y = true ->
                         h (Z.lxor x y) = Z.lxor (h x) (h y)) -> h 0 = 0).
  { intros h Hh. specialize (Hh 0 0 eq_refl eq_refl).
    rewrite !Z.lxor_nilpotent in Hh. exact Hh. }
  assert (H : forall n : nat, (n <= 8)%nat ->
            forall x, 0 <= x < 2 ^ Z.of_nat n -> f x = g x).
  { induction n as [|n IH]; intros Hn x Hx.
    - change (2 ^ Z.of_nat 0) with 1 in Hx.
      assert (x = 0) by lia. subst x.
      rewrite (Hzero f Hf), (Hzero g Hg). reflexivity.
    - destruct (Z_lt_le_dec x (2 ^ Z.of_nat n)) as [Hlt|Hge];
        [apply IH; lia|].
      rewrite Nat2Z.inj_succ, <- Z.add_1_r in Hx.
      assert (H8 : 2 ^ (Z.of_nat n + 1) <= 2 ^ 8)
        by (apply Z.pow_le_mono_r; lia).
      change (2 ^ 8) with 256 in H8.
      assert (Hp : 0 < 2 ^ Z.of_nat n) by (apply Z.pow_pos_nonneg; lia).
      assert (Hd : 2 ^ (Z.of_nat n + 1) = 2 * 2 ^ Z.of_nat n)
        by (rewrite Z.pow_add_r, Z.pow_1_r by lia; lia).
      rewrite <- (split_top_bit x (Z.of_nat n)) by lia.
      rewrite Hf, Hg by (apply is_byte_iff; lia).
      rewrite Hb by lia. f_equal. apply IH; lia. }
  intros x Hx. apply (H 8%nat); [lia|].
  apply is_byte_iff in Hx. exact Hx.
Qed.

Lemma pow2_byte k : 0 <= k < 8 -> is_byte (2 ^ k) = true.
Proof.
  intros Hk. apply is_byte_iff. split; [apply Z.pow_nonneg; lia|].
  change 256 with (2 ^ 8). apply Z.pow_lt_mono_r; lia.
Qed.

Lemma ffMultiply_comm_pow2 j k :
  0 <= j < 8 -> 0 <= k < 8 -> ffMultiply (2 ^ j) (2 ^ k) = ffMultiply (2 ^ k) (2 ^ j).
Proof.
  intros Hj Hk.
  assert (Cj : j = 0 \/ j = 1 \/ j = 2 \/ j = 3 \/ j = 4 \/ j = 5 \/ j = 6 \/ j = 7) by lia.
  assert (Ck : k = 0 \/ k = 1 \/ k = 2 \/ k = 3 \/ k = 4 \/ k = 5 \/ k = 6 \/ k = 7) by lia.
  repeat (destruct Cj as [-> | Cj]; [|]);
    try subst j;
    repeat (destruct Ck as [-> | Ck]; [|]);
    try subst k; vm_compute; reflexivity.
Qed.

Lemma ffMultiply_comm a b :
  is_byte a = true -> is_byte b = true -> ffMultiply a b = ffMultiply b a.
Proof.
  intros Ha Hb. revert b Hb.
  apply (additive_basis (fun b => ffMultiply a b) (fun b => ffMultiply b a)).
  - intros x y Hx Hy. apply ffMultiply_lxor; assumption.
  - intros x y Hx Hy. apply ffMultiply_lxor_l, Ha.
  - intros k Hk. revert a Ha.
    apply (additive_basis (fun a => ffMultiply a (2 ^ k))
                          (fun a => ffMultiply (2 ^ k) a)).
    + intros x y Hx Hy. apply ffMultiply_lxor_l, pow2_byte, Hk.
    + intros x y Hx Hy. apply ffMultiply_lxor; assumption.
    + intros j Hj. apply ffMultiply_comm_pow2; assumption.
Qed.

Lemma ffMultiply_1_r b : is_byte b = true -> ffMultiply b 1 = b.
Proof.
  intros Hb. apply Z.eqb_eq. revert b Hb.
  apply (byte_enum (fun b => ffMultiply b 1 =? b)). vm_compute. reflexivity.
Qed.

Lemma ffMultiply_0_r a : is_byte a = true -> ffMultiply a 0 = 0.
Proof.
  intros Ha. apply Z.eqb_eq. revert a Ha.
  apply (byte_enum (fun a => ffMultiply a 0 =? 0)). vm_compute. reflexivity.
Qed.

Lemma ffMultiply_0_l b : is_byte b = true -> ffMultiply 0 b = 0.
Proof.
  intros Hb. apply Z.eqb_eq. revert b Hb.
  apply (byte_enum (fun b => ffMultiply 0 b =? 0)). vm_compute. reflexivity.
Qed.

(* ================================================================== *)
(** * Round constants *)

Lemma bound_of_bits p k :
  0 <= p -> 0 <= k -> (forall i, k <= i -> Z.testbit p i = false) -> p < 2 ^ k.
Proof.
  intros Hp Hk H.
  destruct (Z.eq_dec p 0) as [->|Hne]; [apply Z.pow_pos_nonneg; lia|].
  apply Z.log2_lt_pow2; [lia|].
  destruct (Z_lt_le_dec (Z.log2 p) k) as [Hlt|Hge]; [exact Hlt|].
  specialize (H (Z.log2 p) Hge).
  rewrite Z.bit_log2 in H by lia. discriminate.
Qed.

(** One step of the long division brings the degree down by one. *)
Lemma poly_mod_step_bound n p :
  0 <= p < 2 ^ (Z.of_nat n + 9) ->
  0 <= (if Z.testbit p (Z.of_nat n + 8)
        then Z.lxor p (Z.shiftl modulus (Z.of_nat n)) else p)
     < 2 ^ (Z.of_nat n + 8).
Proof.
  intros Hp.
  assert (Hm : 0 <= Z.shiftl modulus (Z.of_nat n)).
  { apply Z.shiftl_nonneg. unfold modulus. lia. }
  destruct (Z.testbit p (Z.of_nat n + 8)) eqn:Hb.
  - split; [apply Z.lxor_nonneg; lia|].
    apply bound_of_bits; [apply Z.lxor_nonneg; lia | lia |].
    intros i Hi. rewrite Z.lxor_spec, Z.shiftl_spec by lia.
    destruct (Z.eq_dec i (Z.of_nat n + 8)) as [->|Hne].
    + rewrite Hb. replace (Z.of_nat n + 8 - Z.of_nat n) with 8 by lia.
      reflexivity.
    + rewrite (testbit_high p (Z.of_nat n + 9) i) by lia.
      rewrite (testbit_high modulus 9 (i - Z.of_nat n)) by (unfold modulus; lia).
      reflexivity.
  - split; [lia|].
    apply bound_of_bits; [lia | lia |].
    intros i Hi.
    destruct (Z.eq_dec i (Z.of_nat n + 8)) as [->|Hne]; [exact Hb|].
    apply (testbit_high p (Z.of_nat n + 9) i); lia.
Qed.

(** Doubling before the division is [xtime] after it. *)
Lemma poly_mod_double n : forall p,
  0 <= p < 2 ^ (Z.of_nat n + 8) ->
  poly_mod (S n) (2 * p) = xtime (poly_mod n p).
Proof.
  induction n as [|n IH]; intros p Hp.
  - apply Z.eqb_eq.
    apply (byte_enum (fun p => poly_mod 1 (2 * p) =? xtime (poly_mod 0 p)));
      [vm_compute; reflexivity|].
    apply is_byte_iff. change (Z.of_nat 0 + 8) with 8 in Hp.
    change (2 ^ 8) with 256 in Hp. exact Hp.
  - change (poly_mod (S (S n)) (2 * p)) with
      (poly_mod (S n) (if Z.testbit (2 * p) (Z.of_nat (S n) + 8)
                       then Z.lxor (2 * p) (Z.shiftl modulus (Z.of_nat (S n)))
                       else 2 * p)).
    change (poly_mod (S n) p) with
      (poly_mod n (if Z.testbit p (Z.of_nat n + 8)
                   then Z.lxor p (Z.shiftl modulus (Z.of_nat n)) else p)).
    rewrite <- IH.
    + f_equal.
      replace (Z.of_nat (S n) + 8) with (Z.succ (Z.of_nat n + 8)) by lia.
      rewrite Z.double_bits_succ.
      destruct (Z.testbit p (Z.of_nat n + 8)); [|reflexivity].
      replace (Z.of_nat (S n)) with (Z.of_nat n + 1) by lia.
      rewrite <- Z.shiftl_shiftl by lia.
      assert (H2 : forall x, 2 * x = Z.shiftl x 1)
        by (intros x; rewrite Z.shiftl_mul_pow2 by lia; lia).
      rewrite !H2. symmetry. apply Z.shiftl_lxor.
    + apply poly_mod_step_bound.
      replace (Z.of_nat n + 9) with (Z.of_nat (S n) + 8) by lia. exact Hp.
Qed.

Lemma x_pow_mod_succ i : x_pow_mod (S i) = xtime (x_pow_mod i).
Proof.
  unfold x_pow_mod.
  destruct (le_lt_dec 7 i) as [Hge|Hlt].
  - replace (S i - 7)%nat with (S (i - 7)) by lia.
    replace (2 ^ Z.of_nat (S i)) with (2 * 2 ^ Z.of_nat i)
      by (rewrite Nat2Z.inj_succ, Z.pow_succ_r by lia; reflexivity).
    apply poly_mod_double. split; [apply Z.pow_nonneg; lia|].
    apply Z.pow_lt_mono_r; lia.
  - do 7 (destruct i as [|i]; [vm_compute; reflexivity|]). lia.
Qed.

Lemma x_pow_mod_iter i : x_pow_mod i = Nat.iter i xtime 1.
Proof.
  induction i as [|i IH]; [reflexivity|].
  rewrite x_pow_mod_succ, IH. reflexivity.
Qed.

Lemma iter_xtime_byte i : is_byte (Nat.iter i xtime 1) = true.
Proof. destruct i; [reflexivity|]. cbn [Nat.iter]. apply xtime_byte. Qed.

Lemma top_byte_word v : is_byte v = true -> u32 (Z.shiftl v 24) = Z.shiftl v 24.
Proof.
  intros Hv. apply is_byte_iff in Hv. unfold u32.
  rewrite Z.shiftl_mul_pow2 by lia. apply Z.mod_small.
  change (2 ^ 24) with 16777216. lia.
Qed.

(** The loop of [initRcon], iteration by iteration. *)
Lemma initRcon_loop n : forall i rvalue rcon,
  for_ n i (fun (_ : Z) '(rvalue, rcon) =>
              (xtime rvalue, rcon ++ [u32 (Z.shiftl rvalue 24)])) (rvalue, rcon) =
  (Nat.iter n xtime rvalue,
   rcon ++ map (fun k => u32 (Z.shiftl (Nat.iter k xtime rvalue) 24)) (seq 0 n)).
Proof.
  induction n as [|n IH]; intros i rvalue rcon.
  - cbn. rewrite app_nil_r. reflexivity.
  - cbn [for_]. rewrite IH. f_equal.
    + rewrite <- Nat.iter_succ_r. reflexivity.
    + cbn [seq map Nat.iter]. rewrite <- app_assoc. cbn [app]. do 2 f_equal.
      rewrite <- seq_shift, map_map. apply map_ext. intros k.
      rewrite Nat.iter_succ_r. reflexivity.
Qed.

Lemma initRcon_Rcon this Nr :
  AES.Rcon (initRcon this Nr) =
  AES.Rcon this ++ map (fun k => Z.shiftl (x_pow_mod k) 24) (seq 0 (Z.to_nat Nr)).
Proof.
  unfold initRcon, for_range. rewrite initRcon_loop. cbn [set_Rcon AES.Rcon].
  f_equal. rewrite Z.sub_0_r. apply map_ext. intros k.
  rewrite x_pow_mod_iter. apply top_byte_word, iter_xtime_byte.
Qed.

Lemma initRcon_fields this Nr :
  AES.Nb (initRcon this Nr) = AES.Nb this /\
  AES.Nk (initRcon this Nr) = AES.Nk this /\
  AES.Nr (initRcon this Nr) = AES.Nr this /\
  AES.state (initRcon this Nr) = AES.state this /\
  AES.key (initRcon this Nr) = AES.key this /\
  AES.w (initRcon this Nr) = AES.w this.
Proof.
  unfold initRcon.
  destruct (for_range 0 Nr _ _) as [rv rc]. cbn. repeat split.
Qed.

(** C5.  Starting from an empty [Rcon], [initRcon Nr] leaves [Nr] words;
    word [i] is x^i mod m(x) in the top byte of a 32-bit word, and each word
    after the first is the top byte of the one before, doubled by [xtime] and
    put back into the top byte. *)
Theorem initRcon_powers_of_x (this : AES.t) (Nr : Z) :
  AES.Rcon this = [] ->
  let rcon := AES.Rcon (initRcon this Nr) in
  List.length rcon = Z.to_nat Nr /\
  (forall i, (i < Z.to_nat Nr)%nat -> nth i rcon 0 = Z.shiftl (x_pow_mod i) 24) /\
  (forall i, (S i < Z.to_nat Nr)%nat ->
     nth (S i) rcon 0 = u32 (Z.shiftl (xtime (byte_of (nth i rcon 0) 24)) 24)).
Proof.
  intros Hempty rcon. subst rcon. rewrite initRcon_Rcon, Hempty. cbn [app].
  assert (Hnth : forall i, (i < Z.to_nat Nr)%nat ->
            nth i (map (fun k => Z.shiftl (x_pow_mod k) 24) (seq 0 (Z.to_nat Nr))) 0
            = Z.shiftl (x_pow_mod i) 24).
  { intros i Hi.
    rewrite (nth_indep _ 0 (Z.shiftl (x_pow_mod 0) 24))
      by (rewrite length_map, length_seq; exact Hi).
    rewrite (map_nth (fun k => Z.shiftl (x_pow_mod k) 24)).
    rewrite seq_nth by exact Hi. reflexivity. }
  split; [rewrite length_map, length_seq; reflexivity|].
  split; [exact Hnth|].
  intros i Hi. rewrite !Hnth by lia.
  rewrite x_pow_mod_succ.
  assert (Hb : is_byte (x_pow_mod i) = true)
    by (rewrite x_pow_mod_iter; apply iter_xtime_byte).
  rewrite top_byte_word by apply xtime_byte.
  do 2 f_equal.
  apply byte_mod in Hb. rewrite <- Hb.
  unfold byte_of, u8. change 256 with (2 ^ 8). change 255 with (Z.ones 8).
  Z.bitblast.
Qed.

Lemma initRcon_powers_of_x_witness :
  let this := AES.mk 4 4 10 [] [] [] [] in
  AES.Rcon this = [] /\
  List.length (AES.Rcon (initRcon this 10)) = 10%nat /\
  nth 8 (AES.Rcon (initRcon this 10)) 0 = Z.shiftl (x_pow_mod 8) 24.
Proof.
  intros this.
  destruct (initRcon_powers_of_x this 10 eq_refl) as [Hlen [Hnth _]].
  split; [reflexivity|]. split; [exact Hlen|].
  apply (Hnth 8%nat). vm_compute. lia.
Defined.

(* ================================================================== *)
(** * Words and their bytes *)

Ltac bit_blast :=
  Z.bitblast;
  repeat match goal with
         | |- context [Z.testbit ?x ?i] => rewrite (Z.testbit_neg_r x i) by lia
         end;
  try btauto.

(** Replace the bytes [a b c d] of the goal by [_ mod 2 ^ 8] and compare
    bit by bit. *)
Ltac word_bits Ha Hb Hc Hd :=
  apply byte_mod in Ha, Hb, Hc, Hd;
  rewrite <- Ha, <- Hb, <- Hc, <- Hd; clear;
  unfold byte_of, pack_word, u8, u32;
  change 256 with (2 ^ 8); change 4294967296 with (2 ^ 32);
  change 255 with (Z.ones 8);
  bit_blast.

Section Words.
Variables a b c d : Z.
Hypothesis Ha : is_byte a = true.
Hypothesis Hb : is_byte b = true.
Hypothesis Hc : is_byte c = true.
Hypothesis Hd : is_byte d = true.

Lemma byte_of_pack_24 : byte_of (pack_word a b c d) 24 = a.
Proof. word_bits Ha Hb Hc Hd. Qed.

Lemma byte_of_pack_16 : byte_of (pack_word a b c d) 16 = b.
Proof. word_bits Ha Hb Hc Hd. Qed.

Lemma byte_of_pack_8 : byte_of (pack_word a b c d) 8 = c.
Proof. word_bits Ha Hb Hc Hd. Qed.

Lemma byte_of_pack_0 : byte_of (pack_word a b c d) 0 = d.
Proof. word_bits Ha Hb Hc Hd. Qed.

Lemma byte_of_lxor_pack_24 k :
  byte_of (Z.lxor (pack_word a b c d) k) 24 = Z.lxor a (byte_of k 24).
Proof. word_bits Ha Hb Hc Hd. Qed.

Lemma byte_of_lxor_pack_16 k :
  byte_of (Z.lxor (pack_word a b c d) k) 16 = Z.lxor b (byte_of k 16).
Proof. word_bits Ha Hb Hc Hd. Qed.

Lemma byte_of_lxor_pack_8 k :
  byte_of (Z.lxor (pack_word a b c d) k) 8 = Z.lxor c (byte_of k 8).
Proof. word_bits Ha Hb Hc Hd. Qed.

Lemma byte_of_lxor_pack_0 k :
  byte_of (Z.lxor (pack_word a b c d) k) 0 = Z.lxor d (byte_of k 0).
Proof. word_bits Ha Hb Hc Hd. Qed.
End Words.

Lemma byte_of_byte word k : is_byte (byte_of word k) = true.
Proof. apply u8_byte. Qed.
#[export] Hint Resolve byte_of_byte : bytes.

(* ================================================================== *)
(** * The substitution tables *)

Lemma sBoxSub_byte x : is_byte x = true -> is_byte (sBoxSub x) = true.
Proof.
  revert x. apply (byte_enum (fun x => is_byte (sBoxSub x))).
  vm_compute. reflexivity.
Qed.

Lemma InvsBoxSub_byte x : is_byte x = true -> is_byte (InvsBoxSub x) = true.
Proof.
  revert x. apply (byte_enum (fun x => is_byte (InvsBoxSub x))).
  vm_compute. reflexivity.
Qed.
#[export] Hint Resolve sBoxSub_byte InvsBoxSub_byte : bytes.

Lemma InvsBoxSub_sBoxSub x : is_byte x = true -> InvsBoxSub (sBoxSub x) = x.
Proof.
  intros H. apply Z.eqb_eq. revert x H.
  apply (byte_enum (fun x => InvsBoxSub (sBoxSub x) =? x)).
  vm_compute. reflexivity.
Qed.

Lemma sBoxSub_InvsBoxSub x : is_byte x = true -> sBoxSub (InvsBoxSub x) = x.
Proof.
  intros H. apply Z.eqb_eq. revert x H.
  apply (byte_enum (fun x => sBoxSub (InvsBoxSub x) =? x)).
  vm_compute. reflexivity.
Qed.

(** The table taken from the specification is the one the AES standard
    constructs. *)
Lemma ffInverse_inverse x :
  is_byte x = true -> x <> 0 -> ffMultiply x (ffInverse x) = 1.
Proof.
  intros H Hx.
  assert (E : (x =? 0) || (ffMultiply x (ffInverse x) =? 1) = true).
  { revert x H Hx. intros x H _. revert x H.
    apply (byte_enum (fun x => (x =? 0) || (ffMultiply x (ffInverse x) =? 1))).
    vm_compute. reflexivity. }
  apply orb_true_iff in E. destruct E as [E|E]; apply Z.eqb_eq in E; [contradiction | exact E].
Qed.

Lemma SBox_standard x : is_byte x = true -> sBoxSub x = affine (ffInverse x).
Proof.
  intros H. apply Z.eqb_eq. revert x H.
  apply (byte_enum (fun x => sBoxSub x =? affine (ffInverse x))).
  vm_compute. reflexivity.
Qed.

(* ================================================================== *)
(** * States as grids *)

Lemma row_cells (row : list Z) :
  (List.length row =? 4)%nat = true -> exists a b c d, row = [a; b; c; d].
Proof.
  intros H. apply Nat.eqb_eq in H.
  destruct row as [|a [|b [|c [|d [|]]]]]; try discriminate H.
  exists a, b, c, d. reflexivity.
Qed.

Lemma state_grid st :
  is_state st = true ->
  exists a0 a1 a2 a3 b0 b1 b2 b3 c0 c1 c2 c3 d0 d1 d2 d3,
    st = grid a0 a1 a2 a3 b0 b1 b2 b3 c0 c1 c2 c3 d0 d1 d2 d3.
Proof.
  unfold is_state. intros H. apply andb_true_iff in H. destruct H as [Hl Hr].
  apply Nat.eqb_eq in Hl.
  destruct st as [|r0 [|r1 [|r2 [|r3 [|]]]]]; try discriminate Hl.
  cbn [forallb] in Hr. rewrite !andb_true_iff in Hr.
  destruct Hr as ([H0 _] & [H1 _] & [H2 _] & [H3 _] & _).
  destruct (row_cells r0 H0) as (a0 & a1 & a2 & a3 & ->).
  destruct (row_cells r1 H1) as (b0 & b1 & b2 & b3 & ->).
  destruct (row_cells r2 H2) as (c0 & c1 & c2 & c3 & ->).
  destruct (row_cells r3 H3) as (d0 & d1 & d2 & d3 & ->).
  exists a0, a1, a2, a3, b0, b1, b2, b3, c0, c1, c2, c3, d0, d1, d2, d3.
  reflexivity.
Qed.

Lemma is_state_grid a0 a1 a2 a3 b0 b1 b2 b3 c0 c1 c2 c3 d0 d1 d2 d3 :
  is_state (grid a0 a1 a2 a3 b0 b1 b2 b3 c0 c1 c2 c3 d0 d1 d2 d3) = true <->
  (is_byte a0 = true /\ is_byte a1 = true /\ is_byte a2 = true /\ is_byte a3 = true) /\
  (is_byte b0 = true /\ is_byte b1 = true /\ is_byte b2 = true /\ is_byte b3 = true) /\
  (is_byte c0 = true /\ is_byte c1 = true /\ is_byte c2 = true /\ is_byte c3 = true) /\
  (is_byte d0 = true /\ is_byte d1 = true /\ is_byte d2 = true /\ is_byte d3 = true).
Proof.
  unfold is_state, grid. cbn [List.length forallb Nat.eqb].
  rewrite !andb_true_iff. tauto.
Qed.

(** Name the sixteen cells of a state and record that each is a byte. *)
Ltac as_grid st H :=
  let E := fresh "E" in
  destruct (state_grid st H)
    as (?a0 & ?a1 & ?a2 & ?a3 & ?b0 & ?b1 & ?b2 & ?b3
        & ?c0 & ?c1 & ?c2 & ?c3 & ?d0 & ?d1 & ?d2 & ?d3 & E);
  subst st; apply is_state_grid in H;
  destruct H as ((? & ? & ? & ?) & (? & ? & ? & ?) & (? & ? & ? & ?) & (? & ? & ? & ?)).

Ltac grid_ok := apply is_state_grid; repeat split; auto 6 with bytes.

Ltac unpack :=
  rewrite ?byte_of_pack_24, ?byte_of_pack_16, ?byte_of_pack_8, ?byte_of_pack_0
    by auto 6 with bytes.

Section Grid.
Variables a0 a1 a2 a3 b0 b1 b2 b3 c0 c1 c2 c3 d0 d1 d2 d3 : Z.
Hypothesis Hst :
  is_state (grid a0 a1 a2 a3 b0 b1 b2 b3 c0 c1 c2 c3 d0 d1 d2 d3) = true.

Lemma SubBytes_grid :
  SubBytes (grid a0 a1 a2 a3 b0 b1 b2 b3 c0 c1 c2 c3 d0 d1 d2 d3) =
  grid (sBoxSub a0) (sBoxSub a1) (sBoxSub a2) (sBoxSub a3)
       (sBoxSub b0) (sBoxSub b1) (sBoxSub b2) (sBoxSub b3)
       (sBoxSub c0) (sBoxSub c1) (sBoxSub c2) (sBoxSub c3)
       (sBoxSub d0) (sBoxSub d1) (sBoxSub d2) (sBoxSub d3).
Proof.
  apply is_state_grid in Hst.
  destruct Hst as ((? & ? & ? & ?) & (? & ? & ? & ?) & (? & ? & ? & ?) & (? & ? & ? & ?)).
  unfold SubBytes. cbv -[byte_of pack_word subWord sBoxSub].
  unfold subWord. repeat unpack. reflexivity.
Qed.

Lemma InvSubBytes_grid :
  InvSubBytes (grid a0 a1 a2 a3 b0 b1 b2 b3 c0 c1 c2 c3 d0 d1 d2 d3) =
  grid (InvsBoxSub a0) (InvsBoxSub a1) (InvsBoxSub a2) (InvsBoxSub a3)
       (InvsBoxSub b0) (InvsBoxSub b1) (InvsBoxSub b2) (InvsBoxSub b3)
       (InvsBoxSub c0) (InvsBoxSub c1) (InvsBoxSub c2) (InvsBoxSub c3)
       (InvsBoxSub d0) (InvsBoxSub d1) (InvsBoxSub d2) (InvsBoxSub d3).
Proof.
  apply is_state_grid in Hst.
  destruct Hst as ((? & ? & ? & ?) & (? & ? & ? & ?) & (? & ? & ? & ?) & (? & ? & ? & ?)).
  unfold InvSubBytes. cbv -[byte_of pack_word InvsubWord InvsBoxSub].
  unfold InvsubWord. repeat unpack. reflexivity.
Qed.

Lemma ShiftRows_grid :
  ShiftRows (grid a0 a1 a2 a3 b0 b1 b2 b3 c0 c1 c2 c3 d0 d1 d2 d3) =
  grid a0 a1 a2 a3 b1 b2 b3 b0 c2 c3 c0 c1 d3 d0 d1 d2.
Proof.
  apply is_state_grid in Hst.
  destruct Hst as ((? & ? & ? & ?) & (? & ? & ? & ?) & (? & ? & ? & ?) & (? & ? & ? & ?)).
  unfold ShiftRows. cbv -[byte_of pack_word].
  repeat unpack. reflexivity.
Qed.

Lemma InvShiftRows_grid :
  InvShiftRows (grid a0 a1 a2 a3 b0 b1 b2 b3 c0 c1 c2 c3 d0 d1 d2 d3) =
  grid a0 a1 a2 a3 b3 b0 b1 b2 c2 c3 c0 c1 d1 d2 d3 d0.
Proof.
  apply is_state_grid in Hst.
  destruct Hst as ((? & ? & ? & ?) & (? & ? & ? & ?) & (? & ? & ? & ?) & (? & ? & ? & ?)).
  unfold InvShiftRows. cbv -[byte_of pack_word].
  repeat unpack. reflexivity.
Qed.
End Grid.

(* ================================================================== *)
(** * Column mixing *)

Ltac byte_check :=
  let s := fresh "s" in
  let Hs := fresh "Hs" in
  intros s Hs; apply Z.eqb_eq; revert s Hs;
  apply byte_enum; vm_compute; reflexivity.

Lemma mix_cell k0 k1 k2 k3 s0 s1 s2 s3 :
  is_byte s0 = true -> is_byte s1 = true -> is_byte s2 = true -> is_byte s3 = true ->
  u8 (Z.lxor (Z.lxor (Z.lxor
    (ffMultiply k0 (u8 (Z.lxor (Z.lxor (Z.lxor (ffMultiply 2 s0) (ffMultiply 3 s1)) s2) s3)))
    (ffMultiply k1 (u8 (Z.lxor (Z.lxor (Z.lxor s0 (ffMultiply 2 s1)) (ffMultiply 3 s2)) s3))))
    (ffMultiply k2 (u8 (Z.lxor (Z.lxor (Z.lxor s0 s1) (ffMultiply 2 s2)) (ffMultiply 3 s3)))))
    (ffMultiply k3 (u8 (Z.lxor (Z.lxor (Z.lxor (ffMultiply 3 s0) s1) s2) (ffMultiply 2 s3))))) =
  Z.lxor (Z.lxor (Z.lxor (mix_coeff k0 k1 k2 k3 0 s0) (mix_coeff k0 k1 k2 k3 1 s1))
                 (mix_coeff k0 k1 k2 k3 2 s2)) (mix_coeff k0 k1 k2 k3 3 s3).
Proof.
  intros H0 H1 H2 H3.
  rewrite !u8_small by auto 10 with bytes.
  rewrite !ffMultiply_lxor by auto 10 with bytes.
  unfold mix_coeff. lxor_ac.
Qed.

Lemma inv_mix_row0 : forall s, is_byte s = true ->
  (mix_coeff 0x0e 0x0b 0x0d 0x09 0 s =? s) && (mix_coeff 0x0e 0x0b 0x0d 0x09 1 s =? 0)
  && (mix_coeff 0x0e 0x0b 0x0d 0x09 2 s =? 0) && (mix_coeff 0x0e 0x0b 0x0d 0x09 3 s =? 0) = true.
Proof. apply byte_enum. vm_compute. reflexivity. Qed.

Lemma inv_mix_row1 : forall s, is_byte s = true ->
  (mix_coeff 0x09 0x0e 0x0b 0x0d 0 s =? 0) && (mix_coeff 0x09 0x0e 0x0b 0x0d 1 s =? s)
  && (mix_coeff 0x09 0x0e 0x0b 0x0d 2 s =? 0) && (mix_coeff 0x09 0x0e 0x0b 0x0d 3 s =? 0) = true.
Proof. apply byte_enum. vm_compute. reflexivity. Qed.

Lemma inv_mix_row2 : forall s, is_byte s = true ->
  (mix_coeff 0x0d 0x09 0x0e 0x0b 0 s =? 0) && (mix_coeff 0x0d 0x09 0x0e 0x0b 1 s =? 0)
  && (mix_coeff 0x0d 0x09 0x0e 0x0b 2 s =? s) && (mix_coeff 0x0d 0x09 0x0e 0x0b 3 s =? 0) = true.
Proof. apply byte_enum. vm_compute. reflexivity. Qed.

Lemma inv_mix_row3 : forall s, is_byte s = true ->
  (mix_coeff 0x0b 0x0d 0x09 0x0e 0 s =? 0) && (mix_coeff 0x0b 0x0d 0x09 0x0e 1 s =? 0)
  && (mix_coeff 0x0b 0x0d 0x09 0x0e 2 s =? 0) && (mix_coeff 0x0b 0x0d 0x09 0x0e 3 s =? s) = true.
Proof. apply byte_enum. vm_compute. reflexivity. Qed.

Ltac split_row H :=
  rewrite !andb_true_iff, !Z.eqb_eq in H;
  destruct H as [[[? ?] ?] ?].

(** One column through [MixColumns] and then [InvMixColumns]. *)
Lemma inv_mix_column s0 s1 s2 s3 :
  is_byte s0 = true -> is_byte s1 = true -> is_byte s2 = true -> is_byte s3 = true ->
  let m0 := u8 (Z.lxor (Z.lxor (Z.lxor (ffMultiply 2 s0) (ffMultiply 3 s1)) s2) s3) in
  let m1 := u8 (Z.lxor (Z.lxor (Z.lxor s0 (ffMultiply 2 s1)) (ffMultiply 3 s2)) s3) in
  let m2 := u8 (Z.lxor (Z.lxor (Z.lxor s0 s1) (ffMultiply 2 s2)) (ffMultiply 3 s3)) in
  let m3 := u8 (Z.lxor (Z.lxor (Z.lxor (ffMultiply 3 s0) s1) s2) (ffMultiply 2 s3)) in
  u8 (Z.lxor (Z.lxor (Z.lxor (ffMultiply 14 m0) (ffMultiply 11 m1))
                     (ffMultiply 13 m2)) (ffMultiply 9 m3)) = s0 /\
  u8 (Z.lxor (Z.lxor (Z.lxor (ffMultiply 9 m0) (ffMultiply 14 m1))
                     (ffMultiply 11 m2)) (ffMultiply 13 m3)) = s1 /\
  u8 (Z.lxor (Z.lxor (Z.lxor (ffMultiply 13 m0) (ffMultiply 9 m1))
                     (ffMultiply 14 m2)) (ffMultiply 11 m3)) = s2 /\
  u8 (Z.lxor (Z.lxor (Z.lxor (ffMultiply 11 m0) (ffMultiply 13 m1))
                     (ffMultiply 9 m2)) (ffMultiply 14 m3)) = s3.
Proof.
  intros H0 H1 H2 H3. cbv zeta.
  rewrite !mix_cell by assumption.
  pose proof (inv_mix_row0 s0 H0) as A0. pose proof (inv_mix_row0 s1 H1) as A1.
  pose proof (inv_mix_row0 s2 H2) as A2. pose proof (inv_mix_row0 s3 H3) as A3.
  pose proof (inv_mix_row1 s0 H0) as B0. pose proof (inv_mix_row1 s1 H1) as B1.
  pose proof (inv_mix_row1 s2 H2) as B2. pose proof (inv_mix_row1 s3 H3) as B3.
  pose proof (inv_mix_row2 s0 H0) as C0. pose proof (inv_mix_row2 s1 H1) as C1.
  pose proof (inv_mix_row2 s2 H2) as C2. pose proof (inv_mix_row2 s3 H3) as C3.
  pose proof (inv_mix_row3 s0 H0) as D0. pose proof (inv_mix_row3 s1 H1) as D1.
  pose proof (inv_mix_row3 s2 H2) as D2. pose proof (inv_mix_row3 s3 H3) as D3.
  split_row A0. split_row A1. split_row A2. split_row A3.
  split_row B0. split_row B1. split_row B2. split_row B3.
  split_row C0. split_row C1. split_row C2. split_row C3.
  split_row D0. split_row D1. split_row D2. split_row D3.
  repeat match goal with H : mix_coeff _ _ _ _ _ _ = _ |- _ => rewrite H; clear H end.
  rewrite ?Z.lxor_0_r, ?Z.lxor_0_l. repeat split.
Qed.

Section GridMix.
Variable this : AES.t.
Hypothesis HNb : AES.Nb this = 4.
Variables a0 a1 a2 a3 b0 b1 b2 b3 c0 c1 c2 c3 d0 d1 d2 d3 : Z.
Hypothesis Hst :
  is_state (grid a0 a1 a2 a3 b0 b1 b2 b3 c0 c1 c2 c3 d0 d1 d2 d3) = true.

Lemma MixColumns_grid_state :
  is_state (MixColumns this (grid a0 a1 a2 a3 b0 b1 b2 b3 c0 c1 c2 c3 d0 d1 d2 d3)) = true.
Proof.
  unfold MixColumns. rewrite HNb. cbv -[ffMultiply u8 Z.lxor is_state is_byte].
  apply is_state_grid. repeat split; apply u8_byte.
Qed.

Lemma InvMixColumns_grid_state :
  is_state (InvMixColumns this (grid a0 a1 a2 a3 b0 b1 b2 b3 c0 c1 c2 c3 d0 d1 d2 d3)) = true.
Proof.
  unfold InvMixColumns. rewrite HNb. cbv -[ffMultiply u8 Z.lxor is_state is_byte].
  apply is_state_grid. repeat split; apply u8_byte.
Qed.

Lemma InvMixColumns_MixColumns_grid :
  InvMixColumns this (MixColumns this
    (grid a0 a1 a2 a3 b0 b1 b2 b3 c0 c1 c2 c3 d0 d1 d2 d3)) =
  grid a0 a1 a2 a3 b0 b1 b2 b3 c0 c1 c2 c3 d0 d1 d2 d3.
Proof.
  apply is_state_grid in Hst.
  destruct Hst as ((? & ? & ? & ?) & (? & ? & ? & ?) & (? & ? & ? & ?) & (? & ? & ? & ?)).
  destruct (inv_mix_column a0 b0 c0 d0) as (E00 & E01 & E02 & E03); try assumption.
  destruct (inv_mix_column a1 b1 c1 d1) as (E10 & E11 & E12 & E13); try assumption.
  destruct (inv_mix_column a2 b2 c2 d2) as (E20 & E21 & E22 & E23); try assumption.
  destruct (inv_mix_column a3 b3 c3 d3) as (E30 & E31 & E32 & E33); try assumption.
  unfold MixColumns, InvMixColumns. rewrite HNb.
  cbv -[ffMultiply u8 Z.lxor].
  unfold grid.
  repeat f_equal; assumption.
Qed.
End GridMix.

(* ================================================================== *)
(** * Loops *)

Lemma bind_Ok {A B : Type} (m : result A) (k : A -> result B) (b : B) :
  bind m k = Ok b -> exists a, m = Ok a /\ k a = Ok b.
Proof.
  destruct m as [a|e]; cbn; intros H; [exists a; auto | discriminate].
Qed.

(** A loop whose body never throws is the pure loop. *)
Lemma forM_pure {St : Type} (body : Z -> St -> result St) (pure : Z -> St -> St) n :
  forall lo s,
  (forall i s', lo <= i < lo + Z.of_nat n -> body i s' = Ok (pure i s')) ->
  forM n lo 1 body s = Ok (for_ n lo pure s).
Proof.
  induction n as [|n IH]; intros lo s H; [reflexivity|].
  cbn [forM for_]. rewrite H by lia. cbn [bind].
  apply IH. intros i s' Hi. apply H. lia.
Qed.

(** The last iteration of a loop, split off. *)
Lemma forM_snoc {St : Type} (body : Z -> St -> result St) n :
  forall lo s,
  forM (n + 1) lo 1 body s =
  (s' <- forM n lo 1 body s ;; body (lo + Z.of_nat n) s').
Proof.
  induction n as [|n IH]; intros lo s.
  - cbn [forM Nat.add bind]. rewrite Z.add_0_r.
    destruct (body lo s); reflexivity.
  - cbn [forM Nat.add]. destruct (body lo s) as [s1|e]; cbn [bind]; [|reflexivity].
    rewrite IH. replace (lo + 1 + Z.of_nat n) with (lo + Z.of_nat (S n)) by lia.
    reflexivity.
Qed.

(** The loop rule: an invariant that every iteration re-establishes. *)
Lemma forM_invariant {St : Type} (body : Z -> St -> result St)
    (Inv : Z -> St -> Prop) n :
  forall lo s,
  Inv lo s ->
  (forall i s', lo <= i < lo + Z.of_nat n -> Inv i s' ->
     exists s'', body i s' = Ok s'' /\ Inv (i + 1) s'') ->
  exists s', forM n lo 1 body s = Ok s' /\ Inv (lo + Z.of_nat n) s'.
Proof.
  induction n as [|n IH]; intros lo s H0 Hstep.
  - exists s. rewrite Z.add_0_r. split; [reflexivity | exact H0].
  - destruct (Hstep lo s) as (s1 & E1 & H1); [lia | exact H0 |].
    destruct (IH (lo + 1) s1 H1) as (s2 & E2 & H2).
    { intros i s' Hi. apply Hstep. lia. }
    exists s2. cbn [forM]. rewrite E1. cbn [bind]. split; [exact E2|].
    replace (lo + Z.of_nat (S n)) with (lo + 1 + Z.of_nat n) by lia. exact H2.
Qed.

Lemma at_nth v i :
  0 <= i < Z.of_nat (List.length v) -> at_ v i = Ok (nth (Z.to_nat i) v 0).
Proof.
  intros H. unfold at_.
  destruct (Z.ltb_spec i 0); [lia|].
  destruct (nth_error v (Z.to_nat i)) eqn:E.
  - f_equal. symmetry. apply nth_error_nth. exact E.
  - apply nth_error_None in E. lia.
Qed.

(* ================================================================== *)
(** * Round keys *)

Section GridKey.
Variables (w : list Z) (index : Z).
Hypothesis Hlo : 0 <= index.
Hypothesis Hhi : index + 4 <= Z.of_nat (List.length w).
Variables a0 a1 a2 a3 b0 b1 b2 b3 c0 c1 c2 c3 d0 d1 d2 d3 : Z.
Hypothesis Hst :
  is_state (grid a0 a1 a2 a3 b0 b1 b2 b3 c0 c1 c2 c3 d0 d1 d2 d3) = true.

Lemma AddRoundKey_grid :
  AddRoundKey (grid a0 a1 a2 a3 b0 b1 b2 b3 c0 c1 c2 c3 d0 d1 d2 d3) w index =
  Ok (grid (Z.lxor a0 (key_byte w index 0 24)) (Z.lxor a1 (key_byte w index 1 24))
           (Z.lxor a2 (key_byte w index 2 24)) (Z.lxor a3 (key_byte w index 3 24))
           (Z.lxor b0 (key_byte w index 0 16)) (Z.lxor b1 (key_byte w index 1 16))
           (Z.lxor b2 (key_byte w index 2 16)) (Z.lxor b3 (key_byte w index 3 16))
           (Z.lxor c0 (key_byte w index 0 8)) (Z.lxor c1 (key_byte w index 1 8))
           (Z.lxor c2 (key_byte w index 2 8)) (Z.lxor c3 (key_byte w index 3 8))
           (Z.lxor d0 (key_byte w index 0 0)) (Z.lxor d1 (key_byte w index 1 0))
           (Z.lxor d2 (key_byte w index 2 0)) (Z.lxor d3 (key_byte w index 3 0))).
Proof.
  apply is_state_grid in Hst.
  destruct Hst as ((? & ? & ? & ?) & (? & ? & ? & ?) & (? & ? & ? & ?) & (? & ? & ? & ?)).
  unfold AddRoundKey, forM_range.
  change (Z.to_nat ((4 - 0 + 1 - 1) / 1)) with 4%nat.
  set (kf := fun i : Z => nth (Z.to_nat (i + index)) w 0).
  rewrite (forM_pure _ (fun i state =>
    let word := Z.lxor (pack_word (get state 0 i) (get state 1 i)
                                  (get state 2 i) (get state 3 i)) (kf i) in
    put (put (put (put state 0 i (byte_of word 24)) 1 i (byte_of word 16))
             2 i (byte_of word 8)) 3 i (byte_of word 0))).
  2:{ intros i s' Hi. rewrite at_nth by lia. reflexivity. }
  f_equal. unfold key_byte.
  change (nth (Z.to_nat (0 + index)) w 0) with (kf 0).
  change (nth (Z.to_nat (1 + index)) w 0) with (kf 1).
  change (nth (Z.to_nat (2 + index)) w 0) with (kf 2).
  change (nth (Z.to_nat (3 + index)) w 0) with (kf 3).
  clearbody kf.
  cbv -[byte_of pack_word Z.lxor].
  rewrite !byte_of_lxor_pack_24, !byte_of_lxor_pack_16,
    !byte_of_lxor_pack_8, !byte_of_lxor_pack_0 by assumption.
  reflexivity.
Qed.

Lemma key_byte_byte col shift : is_byte (key_byte w index col shift) = true.
Proof. apply byte_of_byte. Qed.
End GridKey.
#[export] Hint Resolve key_byte_byte : bytes.

(* ================================================================== *)
(** * The transforms on well-formed states *)

Section Transforms.
Variable this : AES.t.
Hypothesis HNb : AES.Nb this = 4.
Variable st : State.
Hypothesis Hst : is_state st = true.

Lemma SubBytes_state : is_state (SubBytes st) = true.
Proof. as_grid st Hst. rewrite SubBytes_grid by grid_ok. grid_ok. Qed.

Lemma ShiftRows_state : is_state (ShiftRows st) = true.
Proof. as_grid st Hst. rewrite ShiftRows_grid by grid_ok. grid_ok. Qed.

Lemma MixColumns_state : is_state (MixColumns this st) = true.
Proof. as_grid st Hst. apply MixColumns_grid_state; exact HNb. Qed.

Lemma InvSubBytes_state : is_state (InvSubBytes st) = true.
Proof. as_grid st Hst. rewrite InvSubBytes_grid by grid_ok. grid_ok. Qed.

Lemma InvShiftRows_state : is_state (InvShiftRows st) = true.
Proof. as_grid st Hst. rewrite InvShiftRows_grid by grid_ok. grid_ok. Qed.

Lemma InvMixColumns_state : is_state (InvMixColumns this st) = true.
Proof. as_grid st Hst. apply InvMixColumns_grid_state; exact HNb. Qed.

Lemma InvShiftRows_ShiftRows : InvShiftRows (ShiftRows st) = st.
Proof.
  as_grid st Hst. rewrite ShiftRows_grid by grid_ok.
  rewrite InvShiftRows_grid by grid_ok. reflexivity.
Qed.

Lemma InvSubBytes_SubBytes : InvSubBytes (SubBytes st) = st.
Proof.
  as_grid st Hst. rewrite SubBytes_grid by grid_ok.
  rewrite InvSubBytes_grid by grid_ok.
  rewrite !InvsBoxSub_sBoxSub by assumption. reflexivity.
Qed.

Lemma InvMixColumns_MixColumns : InvMixColumns this (MixColumns this st) = st.
Proof.
  as_grid st Hst. apply InvMixColumns_MixColumns_grid; [exact HNb | grid_ok].
Qed.

Section RoundKey.
Variables (w : list Z) (index : Z).
Hypothesis Hlo : 0 <= index.
Hypothesis Hhi : index + 4 <= Z.of_nat (List.length w).

(** [AddRoundKey] returns, keeps the state well formed, and undoes
    itself. *)
Lemma AddRoundKey_involutive :
  exists st', AddRoundKey st w index = Ok st' /\ is_state st' = true /\
              AddRoundKey st' w index = Ok st.
Proof.
  as_grid st Hst. rewrite AddRoundKey_grid by (assumption || grid_ok).
  eexists. split; [reflexivity|]. split; [grid_ok|].
  rewrite AddRoundKey_grid by (assumption || grid_ok).
  rewrite !Z.lxor_assoc, !Z.lxor_nilpotent, !Z.lxor_0_r. reflexivity.
Qed.
End RoundKey.
End Transforms.

(* ================================================================== *)
(** * The state machines *)

Section Rounds.
Variable this : AES.t.
Hypothesis HNb : AES.Nb this = 4.

(** The loop of [Decipher] is the rounds of the specification, with
    [index] equal to four times the number of rounds still to come. *)
Lemma Decipher_loop n : forall i r st,
  forM n i 1 (Decipher_round this) (st, 4 * (AES.Nr this - r)) =
  (st' <- spec_inv_rounds this n r st ;;
   Ok (st', 4 * (AES.Nr this - r) - 4 * Z.of_nat n)).
Proof.
  induction n as [|n IH]; intros i r st.
  - cbn [forM spec_inv_rounds bind]. do 2 f_equal. lia.
  - cbn [forM spec_inv_rounds]. unfold Decipher_round at 1.
    destruct (AddRoundKey (InvSubBytes (InvShiftRows st)) (AES.w this)
                          (4 * (AES.Nr this - r))) as [st1|e];
      cbn [bind]; [|reflexivity].
    replace (4 * (AES.Nr this - r) - 4) with (4 * (AES.Nr this - (r + 1))) by lia.
    rewrite IH.
    destruct (spec_inv_rounds this n (r + 1) (InvMixColumns this st1));
      cbn [bind]; [|reflexivity].
    do 2 f_equal. lia.
Qed.

(** The loop of [Decipher] run on what the loop of [Cipher] produced, one
    half round out of step: it starts after the final [SubBytes] and
    [ShiftRows] and ends before the first ones. *)
Lemma loops_cancel n : forall i j st index,
  is_state st = true ->
  0 <= index ->
  index + 4 * Z.of_nat n <= Z.of_nat (List.length (AES.w this)) ->
  exists st',
    forM n i 1 (Cipher_round this) (st, index) = Ok (st', index + 4 * Z.of_nat n) /\
    is_state st' = true /\
    forM n j 1 (Decipher_round this)
      (ShiftRows (SubBytes st'), index + 4 * Z.of_nat n - 4) =
    Ok (ShiftRows (SubBytes st), index - 4).
Proof.
  induction n as [|n IH]; intros i j st index Hst Hlo Hhi.
  - exists st. cbn [forM]. rewrite !Z.mul_0_r, !Z.add_0_r. auto.
  - pose proof (SubBytes_state st Hst) as H1.
    pose proof (ShiftRows_state _ H1) as H2.
    pose proof (MixColumns_state this HNb _ H2) as H3.
    destruct (AddRoundKey_involutive _ H3 (AES.w this) index)
      as (st1 & E1 & Hst1 & E1'); [lia | lia |].
    destruct (IH (i + 1) j st1 (index + 4) Hst1) as (st' & E2 & Hst' & E3);
      [lia | lia |].
    exists st'. split; [|split; [exact Hst'|]].
    + cbn [forM]. unfold Cipher_round at 1. rewrite E1. cbn [bind].
      rewrite E2. do 2 f_equal. lia.
    + replace (S n) with (n + 1)%nat by lia. rewrite forM_snoc.
      replace (index + 4 * Z.of_nat (n + 1) - 4)
        with (index + 4 + 4 * Z.of_nat n - 4) by lia.
      rewrite E3. cbn [bind]. unfold Decipher_round.
      rewrite InvShiftRows_ShiftRows by (apply SubBytes_state; exact Hst1).
      rewrite InvSubBytes_SubBytes by exact Hst1.
      replace (index + 4 - 4) with index by lia.
      rewrite E1'. cbn [bind].
      rewrite InvMixColumns_MixColumns by assumption. reflexivity.
Qed.

Lemma Decipher_refines :
  1 <= AES.Nr this -> Decipher this = Decipher_spec this.
Proof.
  intros HNr. unfold Decipher, Decipher_spec, forM_range.
  destruct (AddRoundKey (AES.state this) (AES.w this) (AES.Nr this * AES.Nb this))
    as [st|e]; cbn [bind]; [|reflexivity].
  replace ((AES.Nr this - 1 - 0 + 1 - 1) / 1) with (AES.Nr this - 1)
    by (rewrite Z.div_1_r; lia).
  replace (AES.Nr this * AES.Nb this - 4) with (4 * (AES.Nr this - 1))
    by (rewrite HNb; lia).
  rewrite Decipher_loop.
  destruct (spec_inv_rounds this (Z.to_nat (AES.Nr this - 1)) 1 st) as [st'|e];
    cbn [bind]; [|reflexivity].
  replace (4 * (AES.Nr this - 1) - 4 * Z.of_nat (Z.to_nat (AES.Nr this - 1)))
    with 0 by lia.
  reflexivity.
Qed.

Lemma Decipher_Cipher :
  1 <= AES.Nr this ->
  4 * (AES.Nr this + 1) <= Z.of_nat (List.length (AES.w this)) ->
  is_state (AES.state this) = true ->
  exists c, Cipher this = Ok c /\ Decipher c = Ok this.
Proof.
  intros HNr Hw Hst.
  destruct (AddRoundKey_involutive _ Hst (AES.w this) 0)
    as (st1 & E1 & Hst1 & E1'); [lia | lia |].
  destruct (loops_cancel (Z.to_nat (AES.Nr this - 1)) 0 0 st1 4 Hst1)
    as (st2 & E2 & Hst2 & E3); [lia | lia |].
  replace (4 + 4 * Z.of_nat (Z.to_nat (AES.Nr this - 1)))
    with (4 * AES.Nr this) in E2, E3 by lia.
  pose proof (SubBytes_state st2 Hst2) as H1.
  pose proof (ShiftRows_state _ H1) as H2.
  destruct (AddRoundKey_involutive _ H2 (AES.w this) (4 * AES.Nr this))
    as (st3 & E4 & Hst3 & E4'); [lia | lia |].
  exists (set_state this st3). split.
  - unfold Cipher, forM_range. rewrite E1. cbn [bind].
    replace ((AES.Nr this - 1 - 0 + 1 - 1) / 1) with (AES.Nr this - 1)
      by (rewrite Z.div_1_r; lia).
    change (0 + 4) with 4.
    rewrite E2. cbn [bind]. rewrite E4. reflexivity.
  - unfold Decipher, forM_range. cbn [set_state AES.state AES.w AES.Nr AES.Nb].
    rewrite HNb. rewrite (Z.mul_comm (AES.Nr this) 4). rewrite E4'. cbn [bind].
    replace ((AES.Nr this - 1 - 0 + 1 - 1) / 1) with (AES.Nr this - 1)
      by (rewrite Z.div_1_r; lia).
    change (Decipher_round (set_state this st3)) with (Decipher_round this).
    rewrite E3. cbn [bind].
    rewrite InvShiftRows_ShiftRows by (apply SubBytes_state; exact Hst1).
    rewrite InvSubBytes_SubBytes by exact Hst1.
    change (4 - 4) with 0. rewrite E1'. cbn [bind].
    destruct this. reflexivity.
Qed.
End Rounds.

(* ================================================================== *)
(** * Key expansion *)

Lemma at_word_at v i :
  0 <= i < Z.of_nat (List.length v) -> at_ v i = Ok (word_at v i).
Proof. apply at_nth. Qed.

Lemma index_word_at v i :
  0 <= i < Z.of_nat (List.length v) -> index v i = Ok (word_at v i).
Proof.
  intros H. unfold index, word_at.
  destruct (Z.ltb_spec i 0); [lia|].
  destruct (nth_error v (Z.to_nat i)) eqn:E.
  - f_equal. symmetry. apply nth_error_nth. exact E.
  - apply nth_error_None in E. lia.
Qed.

Lemma word_at_app_l v x i :
  0 <= i < Z.of_nat (List.length v) -> word_at (v ++ [x]) i = word_at v i.
Proof. intros H. unfold word_at. apply app_nth1. lia. Qed.

Lemma word_at_app_r v x i :
  Z.of_nat (List.length v) = i -> word_at (v ++ [x]) i = x.
Proof. intros <-. unfold word_at. rewrite Nat2Z.id. apply nth_middle. Qed.

(** [next_temp] follows the case analysis of the specification whenever the
    round constant it needs exists. *)
Lemma next_temp_spec rcon Nk i last :
  0 < Nk -> Nk <= i ->
  i / Nk - 1 < Z.of_nat (List.length rcon) ->
  next_temp rcon Nk i last = Ok (spec_temp rcon Nk i last).
Proof.
  intros HNk Hi Hr. unfold next_temp, spec_temp.
  destruct (Z.eqb_spec Nk 0); [lia|].
  rewrite Z.rem_mod_nonneg, Z.quot_div_nonneg by lia.
  destruct (i mod Nk =? 0).
  - rewrite index_word_at; [reflexivity|].
    split; [|exact Hr].
    assert (1 <= i / Nk) by (apply Z.div_le_lower_bound; lia). lia.
  - destruct ((6 <? Nk) && (i mod Nk =? 4)); reflexivity.
Qed.

Section Schedule.
Variables (rcon key : list Z) (Nk total : Z).
Hypothesis HNk : 0 < Nk.
Hypothesis Hkey : 4 * Nk <= Z.of_nat (List.length key).
Hypothesis Hrcon : (total - 1) / Nk - 1 < Z.of_nat (List.length rcon).

Lemma key_words_step i w :
  0 <= i < Nk -> schedule_prefix rcon key Nk i w ->
  exists w',
    (k0 <- at_ key (4 * i) ;;
     k1 <- at_ key (4 * i + 1) ;;
     k2 <- at_ key (4 * i + 2) ;;
     k3 <- at_ key (4 * i + 3) ;;
     Ok (w ++ [pack_word k0 k1 k2 k3])) = Ok w' /\
    schedule_prefix rcon key Nk (i + 1) w'.
Proof.
  intros Hi (Hlen & Hk & Hr).
  rewrite !at_word_at by lia. cbn [bind].
  eexists. split; [reflexivity|].
  split; [rewrite length_app; cbn [List.length]; lia|].
  split.
  - intros j Hj Hji.
    destruct (Z.eq_dec j i) as [->|Hne].
    + apply word_at_app_r, Hlen.
    + rewrite word_at_app_l by lia. apply Hk; lia.
  - intros j Hj. lia.
Qed.

Lemma schedule_step i w :
  Nk <= i < total -> schedule_prefix rcon key Nk i w ->
  exists w',
    (temp <- at_ w (i - 1) ;;
     temp <- next_temp rcon Nk i temp ;;
     prev <- at_ w (i - Nk) ;;
     Ok (w ++ [Z.lxor prev temp])) = Ok w' /\
    schedule_prefix rcon key Nk (i + 1) w'.
Proof.
  intros Hi (Hlen & Hk & Hr).
  rewrite at_word_at by lia. cbn [bind].
  rewrite next_temp_spec; [| lia | lia |].
  2:{ assert (i / Nk <= (total - 1) / Nk) by (apply Z.div_le_mono; lia). lia. }
  cbn [bind]. rewrite at_word_at by lia. cbn [bind].
  eexists. split; [reflexivity|].
  split; [rewrite length_app; cbn [List.length]; lia|].
  split.
  - intros j Hj Hji. rewrite word_at_app_l by lia. apply Hk; lia.
  - intros j Hj.
    destruct (Z.eq_dec j i) as [->|Hne].
    + rewrite !(word_at_app_l w _ (i - Nk)), !(word_at_app_l w _ (i - 1)) by lia.
      apply word_at_app_r, Hlen.
    + rewrite !word_at_app_l by lia. apply Hr. lia.
Qed.
End Schedule.

(** [KeyExpansion], started on an empty schedule, returns, and what it
    stores satisfies [schedule_prefix] at the full length. *)
Lemma KeyExpansion_schedule this key Nk :
  0 < Nk -> Nk <= AES.Nb this * (AES.Nr this + 1) ->
  4 * Nk <= Z.of_nat (List.length key) ->
  (AES.Nb this * (AES.Nr this + 1) - 1) / Nk - 1
    < Z.of_nat (List.length (AES.Rcon this)) ->
  exists w,
    KeyExpansion this key [] Nk = Ok (set_w this w) /\
    schedule_prefix (AES.Rcon this) key Nk (AES.Nb this * (AES.Nr this + 1)) w.
Proof.
  intros HNk Htot Hkey Hrcon. unfold KeyExpansion, forM_range.
  set (total := AES.Nb this * (AES.Nr this + 1)) in *.
  destruct (forM_invariant
              (fun i w =>
                 k0 <- at_ key (4 * i) ;;
                 k1 <- at_ key (4 * i + 1) ;;
                 k2 <- at_ key (4 * i + 2) ;;
                 k3 <- at_ key (4 * i + 3) ;;
                 Ok (w ++ [pack_word k0 k1 k2 k3]))
              (schedule_prefix (AES.Rcon this) key Nk)
              (Z.to_nat ((Nk - 0 + 1 - 1) / 1)) 0 [])
    as (w1 & E1 & H1).
  { split; [reflexivity|]. split; intros; lia. }
  { intros i w' Hi Hw'. rewrite Z.div_1_r in Hi.
    apply key_words_step; [assumption | lia | assumption]. }
  rewrite E1. cbn [bind].
  rewrite Z.div_1_r in H1. replace (0 + Z.of_nat (Z.to_nat (Nk - 0 + 1 - 1))) with Nk in H1 by lia.
  destruct (forM_invariant
              (fun i w =>
                 temp <- at_ w (i - 1) ;;
                 temp <- next_temp (AES.Rcon this) Nk i temp ;;
                 prev <- at_ w (i - Nk) ;;
                 Ok (w ++ [Z.lxor prev temp]))
              (schedule_prefix (AES.Rcon this) key Nk)
              (Z.to_nat ((total - Nk + 1 - 1) / 1)) Nk w1 H1)
    as (w2 & E2 & H2).
  { intros i w' Hi Hw'. rewrite Z.div_1_r in Hi.
    apply (schedule_step (AES.Rcon this) key Nk total); try assumption. lia. }
  rewrite E2. cbn [bind]. exists w2. split; [reflexivity|].
  rewrite Z.div_1_r in H2.
  replace (Nk + Z.of_nat (Z.to_nat (total - Nk + 1 - 1))) with total in H2 by lia.
  exact H2.
Qed.

Lemma is_keyed_inv this :
  is_keyed this = true ->
  AES.Nb this = 4 /\
  (AES.Nk this = 4 /\ AES.Nr this = 10 \/
   AES.Nk this = 6 /\ AES.Nr this = 12 \/
   AES.Nk this = 8 /\ AES.Nr this = 14) /\
  4 * AES.Nk this <= Z.of_nat (List.length (AES.key this)) /\
  AES.w this = [] /\ AES.Rcon this = [].
Proof.
  unfold is_keyed. rewrite !andb_true_iff, !orb_true_iff, !andb_true_iff.
  rewrite !Z.eqb_eq, Z.leb_le, !Nat.eqb_eq.
  intros (((((HNb & Hsz) & Hkey) & _) & Hw) & Hr).
  repeat split; try assumption.
  - tauto.
  - destruct (AES.w this); [reflexivity | discriminate Hw].
  - destruct (AES.Rcon this); [reflexivity | discriminate Hr].
Qed.

(** The two closing statements of the constructor, on the object that
    [initKey] leaves for a valid key: they return, and the schedule they
    store is the one of the specification. *)
Lemma expand_schedule this :
  is_keyed this = true ->
  exists w,
    expand this = Ok (set_w (initRcon this (AES.Nr this)) w) /\
    schedule_prefix (AES.Rcon (initRcon this (AES.Nr this))) (AES.key this)
                    (AES.Nk this) (4 * (AES.Nr this + 1)) w.
Proof.
  intros H. destruct (is_keyed_inv this H) as (HNb & Hsz & Hkey & Hw & Hr).
  unfold expand.
  destruct (initRcon_fields this (AES.Nr this)) as (ENb & ENk & ENr & _ & Ekey & Ew).
  rewrite Ekey, Ew, ENk, Hw.
  destruct (KeyExpansion_schedule (initRcon this (AES.Nr this)) (AES.key this)
              (AES.Nk this)) as (w & E & Hs).
  - lia.
  - rewrite ENb, ENr, HNb. lia.
  - exact Hkey.
  - rewrite ENb, ENr, HNb, initRcon_Rcon, Hr. cbn [app].
    rewrite length_map, length_seq.
    destruct Hsz as [[-> ->]|[[-> ->]|[-> ->]]]; vm_compute; reflexivity.
  - exists w. split; [exact E|].
    rewrite ENb, ENr, HNb in Hs. exact Hs.
Qed.

(** Neither statement looks at the state. *)
Lemma expand_set_state this st :
  expand (set_state this st) = (e <- expand this ;; Ok (set_state e st)).
Proof.
  destruct this as [nb nk nr s k w0 rc0].
  unfold expand, initRcon, set_state.
  cbn [AES.Nb AES.Nk AES.Nr AES.state AES.key AES.w AES.Rcon].
  destruct (for_range 0 nr _ _) as [rv rc].
  unfold KeyExpansion, set_Rcon, set_w.
  cbn [AES.Nb AES.Nk AES.Nr AES.state AES.key AES.w AES.Rcon].
  destruct (forM_range 0 nk 1 _ _) as [w1|e]; cbn [bind]; [|reflexivity].
  destruct (forM_range nk _ 1 _ _) as [w2|e]; cbn [bind]; reflexivity.
Qed.

(** C3.  On the object that [initKey] leaves for a valid key, the key
    expansion of the constructor returns a schedule of [Nb * (Nr + 1)] words,
    44, 52 or 60 of them for [Nk] 4, 6 or 8; its first [Nk] words are the key
    bytes, four to a word, first byte highest; word [i] from [Nk] on is word
    [i - Nk] exclusive-or [temp], where [temp] is word [i - 1] through
    [subWord (rotWord _)] and exclusive-or [Rcon[i / Nk - 1]] when [i mod Nk]
    is 0, through [subWord] alone when [Nk > 6] and [i mod Nk] is 4, and
    unchanged otherwise. *)
Theorem KeyExpansion_schedule_spec (this : AES.t) :
  is_keyed this = true ->
  exists e,
    expand this = Ok e /\
    Z.of_nat (List.length (AES.w e)) = AES.Nb this * (AES.Nr this + 1) /\
    (AES.Nk this = 4 /\ List.length (AES.w e) = 44%nat \/
     AES.Nk this = 6 /\ List.length (AES.w e) = 52%nat \/
     AES.Nk this = 8 /\ List.length (AES.w e) = 60%nat) /\
    (forall i, 0 <= i < AES.Nk this ->
       word_at (AES.w e) i =
       pack_word (word_at (AES.key this) (4 * i)) (word_at (AES.key this) (4 * i + 1))
                 (word_at (AES.key this) (4 * i + 2)) (word_at (AES.key this) (4 * i + 3))) /\
    (forall i, AES.Nk this <= i < AES.Nb this * (AES.Nr this + 1) ->
       word_at (AES.w e) i =
       Z.lxor (word_at (AES.w e) (i - AES.Nk this))
              (if i mod AES.Nk this =? 0
               then Z.lxor (subWord (rotWord (word_at (AES.w e) (i - 1))))
                           (word_at (AES.Rcon e) (i / AES.Nk this - 1))
               else if (6 <? AES.Nk this) && (i mod AES.Nk this =? 4)
               then subWord (word_at (AES.w e) (i - 1))
               else word_at (AES.w e) (i - 1))).
Proof.
  intros H. destruct (expand_schedule this H) as (w & E & Hlen & Hk & Hr).
  destruct (is_keyed_inv this H) as (HNb & Hsz & _).
  exists (set_w (initRcon this (AES.Nr this)) w).
  cbn [set_w AES.w AES.Rcon]. rewrite HNb.
  split; [exact E|]. split; [exact Hlen|]. split; [|split].
  - destruct Hsz as [[E1 E2]|[[E1 E2]|[E1 E2]]]; rewrite E2 in Hlen;
      [left | right; left | right; right]; split; try exact E1; lia.
  - intros i Hi. apply Hk; [exact Hi|].
    destruct Hsz as [[E1 E2]|[[E1 E2]|[E1 E2]]]; lia.
  - intros i Hi. apply Hr. exact Hi.
Qed.

Lemma KeyExpansion_schedule_spec_witness :
  let this := AES.mk 4 4 10 blank
                [0; 1; 2; 3; 4; 5; 6; 7; 8; 9; 10; 11; 12; 13; 14; 15] [] [] in
  is_keyed this = true /\
  exists e, expand this = Ok e /\ List.length (AES.w e) = 44%nat /\
            word_at (AES.w e) 3 = 0x0c0d0e0f.
Proof.
  intros this. split; [reflexivity|].
  destruct (KeyExpansion_schedule_spec this eq_refl)
    as (e & E & _ & Hlen & Hkey & _).
  exists e. split; [exact E|]. split.
  - destruct Hlen as [[_ H]|[[H _]|[H _]]]; [exact H | discriminate H | discriminate H].
  - rewrite Hkey by (cbn; lia). vm_compute. reflexivity.
Defined.

(** C1.  [this] is the object that [initKey] leaves for a valid key, with
    the plaintext block as its state.  Key expansion and [Cipher] return;
    on a second object with the same key and the ciphertext block as its
    state, key expansion and [Decipher] return, and the state is the
    plaintext block again. *)
Theorem Decipher_Cipher_roundtrip (this : AES.t) :
  is_keyed this = true ->
  is_state (AES.state this) = true ->
  exists e c,
    expand this = Ok e /\ Cipher e = Ok c /\
    exists e' d,
      expand (set_state this (AES.state c)) = Ok e' /\
      Decipher e' = Ok d /\
      AES.state d = AES.state this.
Proof.
  intros H Hst. destruct (expand_schedule this H) as (w & E & Hlen & _).
  destruct (is_keyed_inv this H) as (HNb & Hsz & _).
  destruct (initRcon_fields this (AES.Nr this)) as (ENb & _ & ENr & Est & _).
  set (e := set_w (initRcon this (AES.Nr this)) w) in *.
  assert (HeNb : AES.Nb e = 4) by (cbn; congruence).
  assert (HeNr : AES.Nr e = AES.Nr this) by (cbn; congruence).
  assert (Hest : AES.state e = AES.state this) by (cbn; congruence).
  destruct (Decipher_Cipher e HeNb) as (c & Ec & Ed).
  - rewrite HeNr. destruct Hsz as [[_ ->]|[[_ ->]|[_ ->]]]; lia.
  - rewrite HeNr. cbn [e set_w AES.w]. lia.
  - rewrite Hest. exact Hst.
  - exists e, c. split; [exact E|]. split; [exact Ec|].
    exists c, e. split; [|split; [exact Ed | exact Hest]].
    rewrite expand_set_state, E. cbn [bind]. f_equal.
    unfold Cipher in Ec.
    repeat match type of Ec with
           | bind ?m _ = Ok _ =>
               let x := fresh "x" in
               let Hx := fresh "Hx" in
               destruct (bind_Ok _ _ _ Ec) as (x & Hx & Ec'); clear Ec;
               rename Ec' into Ec; cbv beta in Ec
           | (let '(_, _) := ?p in _) = Ok _ => destruct p
           end.
    injection Ec as <-. destruct e. reflexivity.
Qed.

Lemma Decipher_Cipher_roundtrip_witness :
  let this := AES.mk 4 4 10
                [[0x00; 0x44; 0x88; 0xcc]; [0x11; 0x55; 0x99; 0xdd];
                 [0x22; 0x66; 0xaa; 0xee]; [0x33; 0x77; 0xbb; 0xff]]
                [0; 1; 2; 3; 4; 5; 6; 7; 8; 9; 10; 11; 12; 13; 14; 15] [] [] in
  is_keyed this = true /\ is_state (AES.state this) = true /\
  exists e c e' d,
    expand this = Ok e /\ Cipher e = Ok c /\
    expand (set_state this (AES.state c)) = Ok e' /\ Decipher e' = Ok d /\
    AES.state d = AES.state this.
Proof.
  intros this. split; [reflexivity|]. split; [reflexivity|].
  destruct (Decipher_Cipher_roundtrip this eq_refl eq_refl)
    as (e & c & E1 & E2 & e' & d & E3 & E4 & E5).
  exists e, c, e', d. repeat split; assumption.
Defined.

(** The same for an object that the constructor returned, for a key
    string of 16, 24 or 32 bytes. *)
Lemma expand_Decipher_Cipher this x :
  is_keyed this = true -> is_state (AES.state this) = true ->
  expand this = Ok x ->
  exists c, Cipher x = Ok c /\ Decipher c = Ok x.
Proof.
  intros H Hst Hx. destruct (expand_schedule this H) as (w & E & Hlen & _).
  destruct (is_keyed_inv this H) as (HNb & Hsz & _).
  destruct (initRcon_fields this (AES.Nr this)) as (ENb & _ & ENr & Est & _).
  rewrite E in Hx. injection Hx as <-.
  apply Decipher_Cipher; cbn [set_w AES.Nb AES.Nr AES.w AES.state].
  - congruence.
  - rewrite ENr. destruct Hsz as [[_ ->]|[[_ ->]|[_ ->]]]; lia.
  - rewrite ENr. lia.
  - rewrite Est. exact Hst.
Qed.

(* ================================================================== *)
(** * Hexadecimal text *)

Lemma In_chars256 c : In c chars256.
Proof.
  unfold chars256. apply in_map_iff. exists (nat_of_ascii c).
  split; [apply ascii_nat_embedding|].
  apply in_seq. pose proof (nat_ascii_bounded c). lia.
Qed.

Lemma char_enum (P : ascii -> bool) :
  forallb P chars256 = true -> forall c, P c = true.
Proof.
  intros H c. rewrite forallb_forall in H. apply H, In_chars256.
Qed.

(** [stoi] accepts one hexadecimal digit, and two. *)
Lemma stoi_hex1 c : is_hex c = true -> stoi_ok (String c EmptyString) = true.
Proof.
  intros H.
  assert (E : (if is_hex c then stoi_ok (String c EmptyString) else true) = true).
  { clear. revert c. apply char_enum. vm_compute. reflexivity. }
  rewrite H in E. exact E.
Qed.

Lemma stoi_hex2 c1 c2 :
  is_hex c1 = true -> is_hex c2 = true ->
  stoi_ok (String c1 (String c2 EmptyString)) = true.
Proof.
  intros H1 H2.
  assert (E : (if is_hex c1
               then forallb (fun c2 => if is_hex c2
                                       then stoi_ok (String c1 (String c2 EmptyString))
                                       else true) chars256
               else true) = true).
  { clear. revert c1. apply char_enum. vm_compute. reflexivity. }
  rewrite H1, forallb_forall in E. specialize (E c2 (In_chars256 c2)).
  rewrite H2 in E. exact E.
Qed.

Lemma is_hex_string_cons c s :
  is_hex_string (String c s) = is_hex c && is_hex_string s.
Proof. reflexivity. Qed.

(** Every two-character piece of a string of hexadecimal digits, and the
    one-character piece at its end, is accepted by [stoi]. *)
Lemma stoi_substring_hex s : forall n,
  is_hex_string s = true -> (n < String.length s)%nat ->
  stoi_ok (substring n 2 s) = true.
Proof.
  induction s as [|c s IH]; intros n Hs Hn; [cbn in Hn; lia|].
  rewrite is_hex_string_cons in Hs. apply andb_true_iff in Hs.
  destruct Hs as [Hc Hs].
  destruct n as [|n].
  - destruct s as [|c2 s]; cbn [substring].
    + apply stoi_hex1, Hc.
    + rewrite is_hex_string_cons in Hs. apply andb_true_iff in Hs.
      destruct s; apply stoi_hex2; tauto.
  - cbn [substring]. apply IH; [exact Hs | cbn in Hn; lia].
Qed.

Lemma substring_0_0 s : substring 0 0 s = EmptyString.
Proof. destruct s; reflexivity. Qed.

(** A piece that ends within the first [k] characters is a piece of the
    first [k] characters. *)
Lemma substring_prefix s : forall k n m,
  (n + m <= k)%nat -> substring n m (substring 0 k s) = substring n m s.
Proof.
  induction s as [|c s IH]; intros k n m H.
  - destruct k; reflexivity.
  - destruct k as [|k].
    + assert (n = 0%nat) by lia. assert (m = 0%nat) by lia. subst.
      rewrite !substring_0_0. reflexivity.
    + cbn [substring]. destruct n as [|n].
      * destruct m as [|m]; [reflexivity|]. cbn [substring].
        f_equal. apply IH. lia.
      * cbn [substring]. apply IH. lia.
Qed.

Lemma length_substring_prefix s : forall k,
  (k <= String.length s)%nat -> String.length (substring 0 k s) = k.
Proof.
  induction s as [|c s IH]; intros k H.
  - cbn in H. assert (k = 0%nat) by lia. subst. reflexivity.
  - destruct k as [|k]; [reflexivity|]. cbn [substring String.length].
    f_equal. apply IH. cbn in H. lia.
Qed.

Lemma is_hex_string_prefix s : forall k,
  is_hex_string s = true -> is_hex_string (substring 0 k s) = true.
Proof.
  induction s as [|c s IH]; intros k H.
  - destruct k; reflexivity.
  - destruct k as [|k]; [reflexivity|]. cbn [substring].
    rewrite is_hex_string_cons in *. apply andb_true_iff in H.
    destruct H as [Hc Hs]. rewrite Hc. cbn [andb]. apply IH, Hs.
Qed.

(* ================================================================== *)
(** * The parsing loop and the filling of the state *)

Lemma chunk_bytes_succ s lo n :
  chunk_bytes s lo (S n) = chunk_byte s lo :: chunk_bytes s (lo + 2) n.
Proof.
  unfold chunk_bytes. cbn [seq map]. f_equal.
  - f_equal. lia.
  - rewrite <- seq_shift, map_map. apply map_ext. intros t. f_equal. lia.
Qed.

Lemma length_chunk_bytes s lo n : List.length (chunk_bytes s lo n) = n.
Proof. unfold chunk_bytes. rewrite length_map, length_seq. reflexivity. Qed.

Lemma word_at_chunk_bytes s n k :
  0 <= k < Z.of_nat n -> word_at (chunk_bytes s 0 n) k = chunk_byte s (2 * k).
Proof.
  intros H. unfold word_at, chunk_bytes.
  rewrite (nth_indep _ 0 (chunk_byte s (0 + 2 * Z.of_nat 0)))
    by (rewrite length_map, length_seq; lia).
  rewrite (map_nth (fun t => chunk_byte s (0 + 2 * Z.of_nat t))).
  rewrite seq_nth by lia. f_equal. lia.
Qed.

(** The loop that parses the text two characters at a time. *)
Lemma parse_loop s n : forall lo acc,
  (forall t, (t < n)%nat -> stoi_ok (substr2 s (lo + 2 * Z.of_nat t)) = true) ->
  forM n lo 2 (fun i bytes => n <- stoi (substr2 s i) ;;
                              let byte := u8 n in Ok (bytes ++ [byte])) acc =
  Ok (acc ++ chunk_bytes s lo n).
Proof.
  induction n as [|n IH]; intros lo acc H.
  - cbn. rewrite app_nil_r. reflexivity.
  - cbn [forM]. rewrite chunk_bytes_succ. unfold chunk_byte at 1.
    pose proof (H 0%nat ltac:(lia)) as H0.
    replace (lo + 2 * Z.of_nat 0) with lo in H0 by lia.
    unfold stoi_ok in H0. destruct (stoi (substr2 s lo)) as [v|e]; [|discriminate].
    cbn [bind]. rewrite IH.
    + rewrite <- app_assoc. reflexivity.
    + intros t Ht. specialize (H (S t) ltac:(lia)).
      replace (lo + 2 + 2 * Z.of_nat t) with (lo + 2 * Z.of_nat (S t)) by lia.
      exact H.
Qed.

Lemma for_ext {St : Type} (f g : Z -> St -> St) n : forall lo s,
  (forall i s', lo <= i < lo + Z.of_nat n -> f i s' = g i s') ->
  for_ n lo f s = for_ n lo g s.
Proof.
  induction n as [|n IH]; intros lo s H; [reflexivity|].
  cbn [for_]. rewrite H by lia. apply IH. intros i s' Hi. apply H. lia.
Qed.

(** The loop nest that fills the state, when at least 16 bytes were
    parsed. *)
Lemma fill_ok bytes st :
  16 <= Z.of_nat (List.length bytes) ->
  forM_range 0 4 1 (fun i state =>
    forM_range 0 4 1 (fun j state =>
      b <- at_ bytes (i * 4 + j) ;;
      Ok (put state j i b)) state) st = Ok (fill_state bytes st).
Proof.
  intros H. unfold forM_range, fill_state.
  change (Z.to_nat ((4 - 0 + 1 - 1) / 1)) with 4%nat.
  apply forM_pure. intros i s' Hi.
  apply forM_pure. intros j s'' Hj.
  rewrite at_word_at by lia. reflexivity.
Qed.

(** Only the first 16 bytes reach the state. *)
Lemma fill_state_ext bytes bytes' st :
  (forall k, 0 <= k < 16 -> word_at bytes k = word_at bytes' k) ->
  fill_state bytes st = fill_state bytes' st.
Proof.
  intros H. unfold fill_state.
  apply for_ext. intros i s' Hi.
  apply for_ext. intros j s'' Hj.
  rewrite H by lia. reflexivity.
Qed.

Lemma chunk_count_spec (len : nat) :
  let n := Z.to_nat ((Z.of_nat len - 0 + 2 - 1) / 2) in
  (forall t, (t < n)%nat -> (Z.to_nat (0 + 2 * Z.of_nat t) < len)%nat) /\
  (forall k, 2 * k < Z.of_nat len -> k < Z.of_nat n).
Proof.
  intros n. subst n.
  assert (E : 0 <= (Z.of_nat len - 0 + 2 - 1) / 2) by (apply Z.div_pos; lia).
  split.
  - intros t Ht.
    assert (Z.of_nat t < (Z.of_nat len - 0 + 2 - 1) / 2) by lia.
    Z.to_euclidean_division_equations. lia.
  - intros k Hk. rewrite Z2Nat.id by exact E.
    Z.to_euclidean_division_equations. lia.
Qed.

(** [initState] on a string of hexadecimal digits of at least 31
    characters. *)
Lemma initState_hex input st :
  is_hex_string input = true ->
  (31 <= String.length input)%nat ->
  initState input st =
  Ok (fill_state (chunk_bytes input 0
        (Z.to_nat ((Z.of_nat (String.length input) - 0 + 2 - 1) / 2))) st).
Proof.
  intros Hhex Hlen. unfold initState, forM_range.
  destruct (chunk_count_spec (String.length input)) as [Hlt Hge].
  rewrite parse_loop.
  - cbn [bind app]. apply fill_ok. rewrite length_chunk_bytes.
    assert (15 < Z.of_nat (Z.to_nat ((Z.of_nat (String.length input) - 0 + 2 - 1) / 2)))
      by (apply Hge; lia).
    lia.
  - intros t Ht. unfold substr2. apply stoi_substring_hex; [exact Hhex|].
    apply Hlt, Ht.
Qed.

(** C10.  For a string of hexadecimal digits longer than 32 characters,
    [initState] raises nothing, and the state it leaves is the one it leaves
    for the first 32 characters alone. *)
Theorem initState_ignores_tail (input : string) (st : State) :
  is_hex_string input = true ->
  (32 < String.length input)%nat ->
  exists st',
    initState input st = Ok st' /\
    initState (substring 0 32 input) st = Ok st'.
Proof.
  intros Hhex Hlen. eexists. split.
  - apply initState_hex; [exact Hhex | lia].
  - rewrite initState_hex.
    + f_equal. apply fill_state_ext. intros k Hk.
      rewrite length_substring_prefix by lia.
      rewrite !word_at_chunk_bytes.
      * unfold chunk_byte, substr2. rewrite substring_prefix by lia. reflexivity.
      * split; [lia|].
        apply (proj2 (chunk_count_spec (String.length input))). lia.
      * cbn. lia.
    + apply is_hex_string_prefix, Hhex.
    + rewrite length_substring_prefix by lia. lia.
Qed.

Lemma initState_ignores_tail_witness :
  is_hex_string "00112233445566778899aabbccddeeff0123" = true /\
  (32 < String.length "00112233445566778899aabbccddeeff0123")%nat /\
  initState "00112233445566778899aabbccddeeff0123" blank =
  initState "00112233445566778899aabbccddeeff" blank.
Proof.
  split; [reflexivity|]. split; [vm_compute; lia|].
  destruct (initState_ignores_tail "00112233445566778899aabbccddeeff0123" blank)
    as (st' & E1 & E2); [reflexivity | vm_compute; lia |].
  rewrite E1. symmetry. exact E2.
Defined.

(* ================================================================== *)
(** * Construction *)

Lemma initKey_flag key this :
  snd (initKey key true this) = snd (initKey key false this).
Proof.
  unfold initKey.
  destruct (_ =? 128); [reflexivity|].
  destruct (_ =? 192); [reflexivity|].
  destruct (_ =? 256); reflexivity.
Qed.

(** C9.  The constructor builds the same object, or raises the same
    exception, whether [encrypt] is true or false: the state, [Nk], [Nr],
    the key bytes and the schedule are the same.  (For a key length that
    [initKey] does not know, [Nk] and [Nr] are what the storage held, the
    same [Nk0] and [Nr0] on both sides.) *)
Theorem AES_ctor_flag_irrelevant (Nk0 Nr0 : Z) (input key : string) :
  snd (AES_ctor Nk0 Nr0 input key true) = snd (AES_ctor Nk0 Nr0 input key false).
Proof.
  unfold AES_ctor.
  destruct (initState input _) as [st|e]; [|reflexivity].
  pose proof (initKey_flag key
    (set_state (AES.mk 4 Nk0 Nr0 blank [] [] []) st)) as H.
  destruct (initKey key true _) as [out1 r1].
  destruct (initKey key false _) as [out2 r2].
  cbn [snd] in H. subst r2.
  destruct r1; reflexivity.
Qed.

(** The flag does reach the diagnostic output. *)
Lemma AES_ctor_flag_output :
  fst (AES_ctor 0 0 "00112233445566778899aabbccddeeff"
                "000102030405060708090a0b0c0d0e0f" true) <>
  fst (AES_ctor 0 0 "00112233445566778899aabbccddeeff"
                "000102030405060708090a0b0c0d0e0f" false).
Proof. vm_compute. discriminate. Qed.

(** C2.  The first example vector of the AES standard: whatever the
    storage held, construction on the key 000102...0e0f and the block
    00112233...eeff followed by [Cipher] leaves a state that [printState]
    writes, column by column, as 69c4e0d86a7b0430d8cdb78070b4c55a. *)
Theorem Cipher_known_answer_128 (Nk0 Nr0 : Z) :
  (this <- snd (AES_ctor Nk0 Nr0 "00112233445566778899aabbccddeeff"
                         "000102030405060708090a0b0c0d0e0f" true) ;;
   c <- Cipher this ;;
   Ok (printState c)) = Ok "69c4e0d86a7b0430d8cdb78070b4c55a"%string.
Proof. vm_compute. reflexivity. Qed.

(** The other two example vectors, and the three decryptions of
    [main.cpp]. *)
Lemma Cipher_known_answer_192 :
  (this <- snd (AES_ctor 0 0 "00112233445566778899aabbccddeeff"
                "000102030405060708090a0b0c0d0e0f1011121314151617" true) ;;
   c <- Cipher this ;;
   Ok (printState c)) = Ok "dda97ca4864cdfe06eaf70a0ec0d7191"%string.
Proof. vm_compute. reflexivity. Qed.

Lemma Cipher_known_answer_256 :
  (this <- snd (AES_ctor 0 0 "00112233445566778899aabbccddeeff"
                "000102030405060708090a0b0c0d0e0f101112131415161718191a1b1c1d1e1f" true) ;;
   c <- Cipher this ;;
   Ok (printState c)) = Ok "8ea2b7ca516745bfeafc49904b496089"%string.
Proof. vm_compute. reflexivity. Qed.

Lemma Decipher_known_answers :
  (this <- snd (AES_ctor 0 0 "69c4e0d86a7b0430d8cdb78070b4c55a"
                "000102030405060708090a0b0c0d0e0f" false) ;;
   d <- Decipher this ;;
   Ok (printState d)) = Ok "00112233445566778899aabbccddeeff"%string /\
  (this <- snd (AES_ctor 0 0 "dda97ca4864cdfe06eaf70a0ec0d7191"
                "000102030405060708090a0b0c0d0e0f1011121314151617" false) ;;
   d <- Decipher this ;;
   Ok (printState d)) = Ok "00112233445566778899aabbccddeeff"%string /\
  (this <- snd (AES_ctor 0 0 "8ea2b7ca516745bfeafc49904b496089"
                "000102030405060708090a0b0c0d0e0f101112131415161718191a1b1c1d1e1f" false) ;;
   d <- Decipher this ;;
   Ok (printState d)) = Ok "00112233445566778899aabbccddeeff"%string.
Proof. repeat split; vm_compute; reflexivity. Qed.

(* ------------------------------------------------------------------ *)
(** ** Keys of a length that [initKey] does not know *)

Lemma initKey_default key encrypt this :
  Z.of_nat (String.length key) / 2 <> 16 ->
  Z.of_nat (String.length key) / 2 <> 24 ->
  Z.of_nat (String.length key) / 2 <> 32 ->
  snd (initKey key encrypt this) = Ok this.
Proof.
  intros H16 H24 H32. unfold initKey.
  destruct (Z.eqb_spec (Z.of_nat (String.length key) / 2 * 8) 128); [lia|].
  destruct (Z.eqb_spec (Z.of_nat (String.length key) / 2 * 8) 192); [lia|].
  destruct (Z.eqb_spec (Z.of_nat (String.length key) / 2 * 8) 256); [lia|].
  reflexivity.
Qed.

(** C6, as the code has it.  For a key string whose length in bytes is not
    16, 24 or 32, whatever its characters, [initKey] raises nothing: the
    [default] label returns at once, with the object as it found it - no
    key byte stored, [Nk] and [Nr] not assigned, schedule and round
    constants untouched - and nothing written but the line that announces
    a decryption.  The program has no error of its own for the length of a
    key. *)
Theorem initKey_unknown_key_length
    (key : string) (encrypt : bool) (this : AES.t) :
  Z.of_nat (String.length key) / 2 <> 16 ->
  Z.of_nat (String.length key) / 2 <> 24 ->
  Z.of_nat (String.length key) / 2 <> 32 ->
  snd (initKey key encrypt this) = Ok this /\
  fst (initKey key encrypt this) =
    (if encrypt then [] else ["INVERSE CIPHER (DECRYPT):"; endl])%string.
Proof.
  intros H16 H24 H32.
  split; [apply initKey_default; assumption|].
  unfold initKey.
  destruct (Z.eqb_spec (Z.of_nat (String.length key) / 2 * 8) 128); [lia|].
  destruct (Z.eqb_spec (Z.of_nat (String.length key) / 2 * 8) 192); [lia|].
  destruct (Z.eqb_spec (Z.of_nat (String.length key) / 2 * 8) 256); [lia|].
  reflexivity.
Qed.

Lemma initKey_unknown_key_length_witness :
  snd (initKey "00010203040506070809" true (AES.mk 4 7 9 blank [] [] [])) =
    Ok (AES.mk 4 7 9 blank [] [] []) /\
  snd (initKey "zz" false (AES.mk 4 7 9 blank [] [] [])) =
    Ok (AES.mk 4 7 9 blank [] [] []).
Proof.
  split.
  - apply (initKey_unknown_key_length "00010203040506070809" true
             (AES.mk 4 7 9 blank [] [] [])); vm_compute; discriminate.
  - apply (initKey_unknown_key_length "zz" false
             (AES.mk 4 7 9 blank [] [] [])); vm_compute; discriminate.
Defined.

(** C6 as the specification states it does not hold: for a key of 10 bytes
    [initKey], the one place that looks at the length of the key and the
    last step before the round constants and the key expansion, raises no
    exception, with either flag. *)
Lemma invalid_key_length_not_rejected :
  ~ (exists e, snd (initKey "00010203040506070809" true
                            (AES.mk 4 0 0 blank [] [] [])) = Throw e) /\
  ~ (exists e, snd (initKey "00010203040506070809" false
                            (AES.mk 4 0 0 blank [] [] [])) = Throw e).
Proof.
  split; intros [e E]; vm_compute in E; discriminate E.
Qed.

(* ------------------------------------------------------------------ *)
(** ** Keys of 16, 24 or 32 bytes *)

Lemma chunk_byte_byte s i : is_byte (chunk_byte s i) = true.
Proof. unfold chunk_byte. destruct (stoi (substr2 s i)); [apply u8_byte | reflexivity]. Qed.

Lemma chunk_bytes_bytes s lo n : forallb is_byte (chunk_bytes s lo n) = true.
Proof.
  unfold chunk_bytes. apply forallb_forall. intros x Hx.
  apply in_map_iff in Hx. destruct Hx as (t & <- & _). apply chunk_byte_byte.
Qed.

(** When the parsing loop returns, it has pushed [chunk_bytes]. *)
Lemma parse_loop_inv s n : forall lo acc bytes,
  forM n lo 2 (fun i bytes => n <- stoi (substr2 s i) ;;
                              let byte := u8 n in Ok (bytes ++ [byte])) acc = Ok bytes ->
  bytes = acc ++ chunk_bytes s lo n.
Proof.
  induction n as [|n IH]; intros lo acc bytes H.
  - cbn in H. injection H as <-. cbn. rewrite app_nil_r. reflexivity.
  - cbn [forM] in H. rewrite chunk_bytes_succ. unfold chunk_byte at 1.
    destruct (stoi (substr2 s lo)) as [v|e]; [|discriminate H].
    cbn [bind] in H. apply IH in H. rewrite H, <- app_assoc. reflexivity.
Qed.

Lemma parse_key_inv s n : forall lo this this',
  forM n lo 2 (fun i this => n <- stoi (substr2 s i) ;;
                             let byte := u8 n in
                             Ok (set_key this (AES.key this ++ [byte]))) this = Ok this' ->
  this' = set_key this (AES.key this ++ chunk_bytes s lo n).
Proof.
  induction n as [|n IH]; intros lo this this' H.
  - cbn in H. injection H as <-. cbn. rewrite app_nil_r. destruct this; reflexivity.
  - cbn [forM] in H. rewrite chunk_bytes_succ. unfold chunk_byte at 1.
    destruct (stoi (substr2 s lo)) as [v|e]; [|discriminate H].
    cbn [bind] in H. apply IH in H. rewrite H. unfold set_key. cbn.
    rewrite <- app_assoc. reflexivity.
Qed.

(** A loop that returns has had every iteration return. *)
Lemma forM_Ok_inv {St : Type} (body : Z -> St -> result St) n :
  forall lo s s',
  forM n lo 1 body s = Ok s' ->
  forall i, lo <= i < lo + Z.of_nat n -> exists s1 s2, body i s1 = Ok s2.
Proof.
  induction n as [|n IH]; intros lo s s' H i Hi; [lia|].
  cbn [forM] in H. destruct (bind_Ok _ _ _ H) as (s1 & E1 & E2).
  destruct (Z.eq_dec i lo) as [->|Hne].
  - exists s, s1. exact E1.
  - apply (IH (lo + 1) s1 s' E2). lia.
Qed.

(** When [initState] returns on the blank grid, the state is well
    formed. *)
Lemma initState_state input st :
  initState input blank = Ok st -> is_state st = true.
Proof.
  unfold initState. intros H.
  destruct (bind_Ok _ _ _ H) as (bytes & E1 & E2). clear H.
  unfold forM_range in E1. apply parse_loop_inv in E1. cbn [app] in E1.
  assert (Hlen : 16 <= Z.of_nat (List.length bytes)).
  { unfold forM_range in E2.
    change (Z.to_nat ((4 - 0 + 1 - 1) / 1)) with 4%nat in E2.
    destruct (forM_Ok_inv _ _ _ _ _ E2 3 ltac:(lia)) as (s1 & s2 & E3).
    destruct (forM_Ok_inv _ _ _ _ _ E3 3 ltac:(lia)) as (s3 & s4 & E4).
    destruct (bind_Ok _ _ _ E4) as (b & Eb & _).
    unfold at_ in Eb. change (3 * 4 + 3 <? 0) with false in Eb.
    destruct (nth_error bytes (Z.to_nat (3 * 4 + 3))) eqn:En; [|discriminate Eb].
    assert (Z.to_nat (3 * 4 + 3) < List.length bytes)%nat
      by (apply nth_error_Some; congruence).
    lia. }
  rewrite fill_ok in E2 by exact Hlen. injection E2 as <-.
  assert (Hb : forall k, is_byte (word_at bytes k) = true).
  { intros k. unfold word_at.
    destruct (nth_in_or_default (Z.to_nat k) bytes 0) as [Hin | ->]; [|reflexivity].
    pose proof (chunk_bytes_bytes input 0
      (Z.to_nat ((Z.of_nat (String.length input) - 0 + 2 - 1) / 2))) as HF.
    rewrite <- E1, forallb_forall in HF. apply HF, Hin. }
  clear E1 Hlen. unfold fill_state. revert Hb. generalize (word_at bytes). intros f Hf.
  cbv -[is_byte]. rewrite !Hf. reflexivity.
Qed.

(** The constructor, for a key string of 16, 24 or 32 bytes: when it
    returns an object, that object is [expand] of an object that satisfies
    [is_keyed] and whose state is well formed. *)
Lemma AES_ctor_keyed Nk0 Nr0 input key encrypt x :
  Z.of_nat (String.length key) / 2 = 16 \/
  Z.of_nat (String.length key) / 2 = 24 \/
  Z.of_nat (String.length key) / 2 = 32 ->
  snd (AES_ctor Nk0 Nr0 input key encrypt) = Ok x ->
  exists this,
    is_keyed this = true /\ is_state (AES.state this) = true /\ expand this = Ok x.
Proof.
  intros Hlen. unfold AES_ctor. cbn [AES.state].
  destruct (initState input blank) as [st|e] eqn:Est; [|discriminate].
  apply initState_state in Est.
  unfold initKey, parse_key, forM_range.
  set (n := Z.to_nat ((Z.of_nat (String.length key) - 0 + 2 - 1) / 2)).
  assert (Hn : Z.of_nat (String.length key) / 2 <= Z.of_nat n).
  { subst n. rewrite Z2Nat.id by (apply Z.div_pos; lia).
    Z.to_euclidean_division_equations. lia. }
  destruct Hlen as [E|[E|E]]; rewrite E; cbn [Z.mul Pos.mul Z.eqb Pos.eqb];
    match goal with
    | |- context [forM n 0 2 ?body ?this0] =>
        destruct (forM n 0 2 body this0) as [this1|e] eqn:EK; [|discriminate]
    end;
    cbn [snd]; intros Hx; exists this1;
    apply parse_key_inv in EK; subst this1;
    (split; [|split; [exact Est | exact Hx]]);
    unfold is_keyed;
    cbn [set_key set_sizes set_state AES.Nb AES.Nk AES.Nr AES.key AES.w AES.Rcon app
         List.length Nat.eqb];
    rewrite chunk_bytes_bytes, length_chunk_bytes;
    cbn [Z.eqb Pos.eqb andb orb];
    rewrite !andb_true_r; apply Z.leb_le; lia.
Qed.

(** The round trip on an object that the constructor returned. *)
Lemma AES_ctor_roundtrip Nk0 Nr0 input key encrypt x :
  Z.of_nat (String.length key) / 2 = 16 \/
  Z.of_nat (String.length key) / 2 = 24 \/
  Z.of_nat (String.length key) / 2 = 32 ->
  snd (AES_ctor Nk0 Nr0 input key encrypt) = Ok x ->
  exists c, Cipher x = Ok c /\ Decipher c = Ok x.
Proof.
  intros Hlen Hx.
  destruct (AES_ctor_keyed _ _ _ _ _ _ Hlen Hx) as (this & Hk & Hst & E).
  apply (expand_Decipher_Cipher this x Hk Hst E).
Qed.

(* ================================================================== *)
(** * The remaining properties of the specification *)

(** C4.  On every 4x4 grid of bytes each inverse transform undoes its
    forward transform: [InvShiftRows] after [ShiftRows], [InvSubBytes] after
    [SubBytes], and [InvMixColumns] after [MixColumns] (both over the [Nb]
    = 4 columns of the object) give the grid back. *)
Theorem inverse_transforms (this : AES.t) (S : State) :
  is_state S = true ->
  AES.Nb this = 4 ->
  InvShiftRows (ShiftRows S) = S /\
  InvSubBytes (SubBytes S) = S /\
  InvMixColumns this (MixColumns this S) = S.
Proof.
  intros HS HNb. split; [|split].
  - apply InvShiftRows_ShiftRows, HS.
  - apply InvSubBytes_SubBytes, HS.
  - apply InvMixColumns_MixColumns; assumption.
Qed.

Lemma inverse_transforms_witness :
  let S := [[0xd4; 0xe0; 0xb8; 0x1e]; [0xbf; 0xb4; 0x41; 0x27];
            [0x5d; 0x52; 0x11; 0x98]; [0x30; 0xae; 0xf1; 0xe5]] in
  let this := AES.mk 4 4 10 S [] [] [] in
  is_state S = true /\ AES.Nb this = 4 /\
  InvShiftRows (ShiftRows S) = S /\
  InvSubBytes (SubBytes S) = S /\
  InvMixColumns this (MixColumns this S) = S.
Proof.
  intros S this. split; [reflexivity|]. split; [reflexivity|].
  apply (inverse_transforms this S); reflexivity.
Defined.

(** C7.  With [Nb] = 4 and at least one round, [Decipher] is the sequence
    of section 4.5: AddRoundKey at offset [Nr * Nb], the last four words of
    the schedule; for each round 1 to [Nr - 1] InvShiftRows, InvSubBytes,
    AddRoundKey with the next-lower slice of four words, InvMixColumns; and
    a final round of InvShiftRows, InvSubBytes and AddRoundKey with the
    words 0 to 3, without InvMixColumns. *)
Theorem Decipher_follows_spec (this : AES.t) :
  AES.Nb this = 4 ->
  1 <= AES.Nr this ->
  Decipher this = Decipher_spec this.
Proof. intros HNb HNr. apply Decipher_refines; assumption. Qed.

Lemma Decipher_follows_spec_witness :
  let this := AES.mk 4 4 10 blank [] (repeat 0x01020304 44) [] in
  AES.Nb this = 4 /\ 1 <= AES.Nr this /\
  Decipher this = Decipher_spec this /\
  exists d, Decipher_spec this = Ok d.
Proof.
  intros this.
  split; [reflexivity|]. split; [cbn; lia|].
  split; [apply (Decipher_follows_spec this); [reflexivity | cbn; lia]|].
  vm_compute. eexists. reflexivity.
Defined.

(** C8.  On bytes, [ffMultiply] is commutative, distributes over [ffAdd],
    has 1 as identity and 0 as annihilator on either side. *)
Theorem ffMultiply_laws (a b c : Z) :
  is_byte a = true -> is_byte b = true -> is_byte c = true ->
  ffMultiply a b = ffMultiply b a /\
  ffMultiply a (ffAdd b c) = ffAdd (ffMultiply a b) (ffMultiply a c) /\
  ffMultiply b 1 = b /\
  ffMultiply a 0 = 0 /\
  ffMultiply 0 b = 0.
Proof.
  intros Ha Hb Hc. split; [|split; [|split; [|split]]].
  - apply ffMultiply_comm; assumption.
  - unfold ffAdd. rewrite !u8_lxor by auto with bytes.
    apply ffMultiply_lxor; assumption.
  - apply ffMultiply_1_r, Hb.
  - apply ffMultiply_0_r, Ha.
  - apply ffMultiply_0_l, Hb.
Qed.

Lemma ffMultiply_laws_witness :
  is_byte 0x57 = true /\ is_byte 0x83 = true /\ is_byte 0x13 = true /\
  ffMultiply 0x57 0x83 = ffMultiply 0x83 0x57 /\
  ffMultiply 0x57 (ffAdd 0x83 0x13) = ffAdd (ffMultiply 0x57 0x83) (ffMultiply 0x57 0x13).
Proof.
  destruct (ffMultiply_laws 0x57 0x83 0x13 eq_refl eq_refl eq_refl)
    as (Hcomm & Hdist & _).
  repeat split; assumption.
Defined.

(* ================================================================== *)
(** * Further properties: the field of bytes *)

Lemma pow2_In k : 0 <= k < 8 -> In (2 ^ k) pow2s.
Proof.
  intros Hk.
  assert (C : k = 0 \/ k = 1 \/ k = 2 \/ k = 3 \/ k = 4 \/ k = 5 \/ k = 6 \/ k = 7)
    by lia.
  unfold pow2s.
  repeat (destruct C as [-> | C]; [cbn; tauto|]). subst k. cbn. tauto.
Qed.

Lemma ffMultiply_assoc_pow2 i j k :
  0 <= i < 8 -> 0 <= j < 8 -> 0 <= k < 8 ->
  ffMultiply (ffMultiply (2 ^ i) (2 ^ j)) (2 ^ k) =
  ffMultiply (2 ^ i) (ffMultiply (2 ^ j) (2 ^ k)).
Proof.
  intros Hi Hj Hk. apply Z.eqb_eq.
  assert (E : forallb (fun a => forallb (fun b => forallb (fun c =>
                ffMultiply (ffMultiply a b) c =? ffMultiply a (ffMultiply b c))
                pow2s) pow2s) pow2s = true) by (vm_compute; reflexivity).
  rewrite forallb_forall in E. specialize (E _ (pow2_In i Hi)).
  rewrite forallb_forall in E. specialize (E _ (pow2_In j Hj)).
  rewrite forallb_forall in E. exact (E _ (pow2_In k Hk)).
Qed.

Lemma ffMultiply_assoc a b c :
  is_byte a = true -> is_byte b = true -> is_byte c = true ->
  ffMultiply (ffMultiply a b) c = ffMultiply a (ffMultiply b c).
Proof.
  intros Ha Hb Hc. revert c Hc.
  apply (additive_basis (fun c => ffMultiply (ffMultiply a b) c)
                        (fun c => ffMultiply a (ffMultiply b c))).
  - intros x y Hx Hy. apply ffMultiply_lxor; assumption.
  - intros x y Hx Hy. rewrite ffMultiply_lxor by assumption.
    apply ffMultiply_lxor; apply ffMultiply_byte.
  - intros k Hk. revert b Hb.
    apply (additive_basis (fun b => ffMultiply (ffMultiply a b) (2 ^ k))
                          (fun b => ffMultiply a (ffMultiply b (2 ^ k)))).
    + intros x y Hx Hy. rewrite ffMultiply_lxor by assumption.
      apply ffMultiply_lxor_l, pow2_byte, Hk.
    + intros x y Hx Hy. rewrite ffMultiply_lxor_l by (apply pow2_byte, Hk).
      apply ffMultiply_lxor; apply ffMultiply_byte.
    + intros j Hj. revert a Ha.
      apply (additive_basis (fun a => ffMultiply (ffMultiply a (2 ^ j)) (2 ^ k))
                            (fun a => ffMultiply a (ffMultiply (2 ^ j) (2 ^ k)))).
      * intros x y Hx Hy. rewrite ffMultiply_lxor_l by (apply pow2_byte, Hj).
        apply ffMultiply_lxor_l, pow2_byte, Hk.
      * intros x y Hx Hy. apply ffMultiply_lxor_l, ffMultiply_byte.
      * intros i Hi. apply ffMultiply_assoc_pow2; assumption.
Qed.

Lemma ffInverse_byte x : is_byte (ffInverse x) = true.
Proof. unfold ffInverse. apply ffMultiply_byte. Qed.

Lemma ffMultiply_2 b : is_byte b = true -> ffMultiply 2 b = xtime b.
Proof.
  intros Hb. apply Z.eqb_eq. revert b Hb.
  apply (byte_enum (fun b => ffMultiply 2 b =? xtime b)). vm_compute. reflexivity.
Qed.

(** X1.  [ffMultiply] is associative on bytes. *)
Theorem ffMultiply_associative (a b c : Z) :
  is_byte a = true -> is_byte b = true -> is_byte c = true ->
  ffMultiply (ffMultiply a b) c = ffMultiply a (ffMultiply b c).
Proof. apply ffMultiply_assoc. Qed.

Lemma ffMultiply_associative_witness :
  is_byte 0x57 = true /\ is_byte 0x83 = true /\ is_byte 0x13 = true /\
  ffMultiply (ffMultiply 0x57 0x83) 0x13 = ffMultiply 0x57 (ffMultiply 0x83 0x13).
Proof.
  split; [reflexivity|]. split; [reflexivity|]. split; [reflexivity|].
  apply (ffMultiply_associative 0x57 0x83 0x13); reflexivity.
Defined.

(** X2.  The bytes with [ffMultiply] have no zero divisors, and every
    byte but 0 has an inverse on both sides: a product of two bytes is 0
    only when one of them is, and for [a] other than 0 some byte [y] has
    [ffMultiply a y] and [ffMultiply y a] equal to 1. *)
Theorem ffMultiply_field (a b : Z) :
  is_byte a = true -> is_byte b = true ->
  (ffMultiply a b = 0 <-> a = 0 \/ b = 0) /\
  (a <> 0 -> exists y, is_byte y = true /\ ffMultiply a y = 1 /\ ffMultiply y a = 1).
Proof.
  intros Ha Hb. split.
  - split.
    + intros H0. destruct (Z.eq_dec a 0) as [E|Hne]; [left; exact E | right].
      rewrite <- (ffMultiply_1_r b Hb).
      rewrite (ffMultiply_comm b 1 Hb eq_refl).
      rewrite <- (ffInverse_inverse a Ha Hne).
      rewrite (ffMultiply_comm a (ffInverse a) Ha (ffInverse_byte a)).
      rewrite ffMultiply_assoc by (assumption || apply ffInverse_byte).
      rewrite H0. apply ffMultiply_0_r, ffInverse_byte.
    + intros [-> | ->]; [apply ffMultiply_0_l | apply ffMultiply_0_r]; assumption.
  - intros Hne. exists (ffInverse a).
    split; [apply ffInverse_byte|]. split; [apply ffInverse_inverse; assumption|].
    rewrite ffMultiply_comm by (assumption || apply ffInverse_byte).
    apply ffInverse_inverse; assumption.
Qed.

Lemma ffMultiply_field_witness :
  is_byte 0x53 = true /\ is_byte 0xca = true /\
  (ffMultiply 0x53 0xca = 0 <-> 0x53 = 0 \/ 0xca = 0) /\
  exists y, is_byte y = true /\ ffMultiply 0x53 y = 1 /\ ffMultiply y 0x53 = 1.
Proof.
  destruct (ffMultiply_field 0x53 0xca eq_refl eq_refl) as [H0 Hinv].
  split; [reflexivity|]. split; [reflexivity|]. split; [exact H0|].
  apply Hinv. discriminate.
Defined.

(** X3.  [xtime] is multiplication by the polynomial x: [xtime b] is
    [ffMultiply 2 b], and [xtime] applied [k] times to [b] is [b] times
    x^k mod m(x); eight times is [b] times 0x1b. *)
Theorem xtime_iterated (b : Z) (k : nat) :
  is_byte b = true ->
  xtime b = ffMultiply 0x02 b /\
  Nat.iter k xtime b = ffMultiply b (x_pow_mod k) /\
  Nat.iter 8 xtime b = ffMultiply b 0x1b.
Proof.
  intros Hb.
  assert (Hk : forall k, Nat.iter k xtime b = ffMultiply b (x_pow_mod k)).
  { clear k. induction k as [|k IH].
    - change (Nat.iter 0 xtime b) with b. change (x_pow_mod 0) with 1.
      symmetry. apply ffMultiply_1_r, Hb.
    - rewrite Nat.iter_succ, IH, x_pow_mod_succ.
      assert (Hx : is_byte (x_pow_mod k) = true)
        by (rewrite x_pow_mod_iter; apply iter_xtime_byte).
      rewrite <- !ffMultiply_2 by (assumption || apply ffMultiply_byte).
      rewrite (ffMultiply_comm 2 (ffMultiply b (x_pow_mod k)))
        by (reflexivity || apply ffMultiply_byte).
      rewrite ffMultiply_assoc by (assumption || reflexivity).
      f_equal. apply ffMultiply_comm; [assumption | reflexivity]. }
  split; [symmetry; apply ffMultiply_2, Hb|]. split; [apply Hk|].
  rewrite Hk. reflexivity.
Qed.

Lemma xtime_iterated_witness :
  is_byte 0x57 = true /\
  Nat.iter 3 xtime 0x57 = ffMultiply 0x57 (x_pow_mod 3) /\
  Nat.iter 8 xtime 0x57 = ffMultiply 0x57 0x1b.
Proof.
  destruct (xtime_iterated 0x57 3 eq_refl) as (_ & H3 & H8).
  split; [reflexivity|]. split; assumption.
Defined.

(** X4.  [ffAdd] makes the bytes a commutative group in which every
    element is its own inverse: the sum of two bytes is a byte, [ffAdd] is
    commutative and associative, 0 is its identity and [ffAdd a a] is 0. *)
Theorem ffAdd_group (a b c : Z) :
  is_byte a = true -> is_byte b = true -> is_byte c = true ->
  is_byte (ffAdd a b) = true /\
  ffAdd a b = ffAdd b a /\
  ffAdd (ffAdd a b) c = ffAdd a (ffAdd b c) /\
  ffAdd a 0 = a /\
  ffAdd a a = 0.
Proof.
  intros Ha Hb Hc. unfold ffAdd.
  split; [apply u8_byte|]. split; [rewrite Z.lxor_comm; reflexivity|].
  split; [rewrite !u8_lxor by auto with bytes; apply Z.lxor_assoc|].
  split; [rewrite Z.lxor_0_r; apply u8_small, Ha|].
  rewrite Z.lxor_nilpotent. reflexivity.
Qed.

Lemma ffAdd_group_witness :
  is_byte 0x57 = true /\ is_byte 0x83 = true /\ is_byte 0x13 = true /\
  ffAdd 0x57 0x83 = ffAdd 0x83 0x57 /\ ffAdd 0x57 0x57 = 0.
Proof.
  destruct (ffAdd_group 0x57 0x83 0x13 eq_refl eq_refl eq_refl)
    as (_ & Hc & _ & _ & Hs).
  repeat split; assumption.
Defined.

(* ================================================================== *)
(** * Further properties: words *)

Lemma is_word_iff x : is_word x = true <-> 0 <= x < 4294967296.
Proof.
  unfold is_word. rewrite andb_true_iff, Z.leb_le, Z.ltb_lt. reflexivity.
Qed.

Lemma word_mod x : is_word x = true -> x mod 2 ^ 32 = x.
Proof. rewrite is_word_iff. intros. apply Z.mod_small. exact H. Qed.

Lemma word_testbit_high w i : is_word w = true -> 32 <= i -> Z.testbit w i = false.
Proof.
  intros H Hi. apply is_word_iff in H.
  apply (testbit_high w 32 i); [exact H | lia].
Qed.

Ltac word_blast H :=
  unfold byte_of, pack_word, u8, u32;
  change 256 with (2 ^ 8); change 4294967296 with (2 ^ 32);
  change 255 with (Z.ones 8);
  Z.bitblast;
  repeat match goal with
         | |- context [Z.testbit ?x ?i] =>
             first [ rewrite (Z.testbit_neg_r x i) by lia
                   | rewrite (word_testbit_high x i H) by lia ]
         end;
  try btauto.

(** A word is its four bytes packed. *)
Lemma pack_word_bytes w :
  is_word w = true ->
  pack_word (byte_of w 24) (byte_of w 16) (byte_of w 8) (byte_of w 0) = w.
Proof. intros H. word_blast H. Qed.

Lemma u32_word x : is_word (u32 x) = true.
Proof. apply is_word_iff. unfold u32. apply Z.mod_pos_bound. lia. Qed.

Lemma lor_word x y : is_word x = true -> is_word y = true -> is_word (Z.lor x y) = true.
Proof.
  intros Hx Hy. apply is_word_iff.
  assert (H0 : 0 <= Z.lor x y).
  { apply Z.lor_nonneg. apply is_word_iff in Hx, Hy. lia. }
  split; [exact H0|].
  change 4294967296 with (2 ^ 32). apply bound_of_bits; [exact H0 | lia |].
  intros i Hi. rewrite Z.lor_spec.
  rewrite (word_testbit_high x i Hx Hi), (word_testbit_high y i Hy Hi). reflexivity.
Qed.

Lemma pack_word_word a b c d : is_word (pack_word a b c d) = true.
Proof.
  unfold pack_word.
  apply lor_word; [apply lor_word; [apply lor_word|]|]; apply u32_word.
Qed.

Lemma rotWord_pack a b c d :
  is_byte a = true -> is_byte b = true -> is_byte c = true -> is_byte d = true ->
  rotWord (pack_word a b c d) = pack_word b c d a.
Proof.
  intros Ha Hb Hc Hd. unfold rotWord.
  rewrite byte_of_pack_24, byte_of_pack_16, byte_of_pack_8, byte_of_pack_0
    by assumption.
  reflexivity.
Qed.

Lemma subWord_pack a b c d :
  is_byte a = true -> is_byte b = true -> is_byte c = true -> is_byte d = true ->
  subWord (pack_word a b c d) =
  pack_word (sBoxSub a) (sBoxSub b) (sBoxSub c) (sBoxSub d).
Proof.
  intros Ha Hb Hc Hd. unfold subWord.
  rewrite byte_of_pack_24, byte_of_pack_16, byte_of_pack_8, byte_of_pack_0
    by assumption.
  reflexivity.
Qed.

Lemma InvsubWord_pack a b c d :
  is_byte a = true -> is_byte b = true -> is_byte c = true -> is_byte d = true ->
  InvsubWord (pack_word a b c d) =
  pack_word (InvsBoxSub a) (InvsBoxSub b) (InvsBoxSub c) (InvsBoxSub d).
Proof.
  intros Ha Hb Hc Hd. unfold InvsubWord.
  rewrite byte_of_pack_24, byte_of_pack_16, byte_of_pack_8, byte_of_pack_0
    by assumption.
  reflexivity.
Qed.

(** X5.  On a 32-bit word [rotWord] is the rotation to the left by eight
    bits: the result is a 32-bit word, its bytes are those of the argument
    moved up by one place with the top byte at the bottom, and four
    applications give the argument back. *)
Theorem rotWord_rotation (w : Z) :
  is_word w = true ->
  is_word (rotWord w) = true /\
  rotWord w = Z.lor (u32 (Z.shiftl w 8)) (Z.shiftr w 24) /\
  (byte_of (rotWord w) 24 = byte_of w 16 /\ byte_of (rotWord w) 16 = byte_of w 8 /\
   byte_of (rotWord w) 8 = byte_of w 0 /\ byte_of (rotWord w) 0 = byte_of w 24) /\
  rotWord (rotWord (rotWord (rotWord w))) = w.
Proof.
  intros H. split; [unfold rotWord; apply pack_word_word|]. split; [|split].
  - unfold rotWord. word_blast H.
  - unfold rotWord.
    rewrite byte_of_pack_24, byte_of_pack_16, byte_of_pack_8, byte_of_pack_0
      by apply byte_of_byte.
    repeat split.
  - rewrite <- (pack_word_bytes w H) at 1.
    rewrite !rotWord_pack by apply byte_of_byte.
    apply pack_word_bytes, H.
Qed.

Lemma rotWord_rotation_witness :
  is_word 0x09cf4f3c = true /\ rotWord 0x09cf4f3c = 0xcf4f3c09 /\
  rotWord (rotWord (rotWord (rotWord 0x09cf4f3c))) = 0x09cf4f3c.
Proof.
  destruct (rotWord_rotation 0x09cf4f3c eq_refl) as (_ & H1 & _ & H4).
  split; [reflexivity|]. split; [rewrite H1; reflexivity | exact H4].
Defined.

(** X6.  [subWord] and [InvsubWord] are inverse to each other on 32-bit
    words, and both give 32-bit words. *)
Theorem InvsubWord_subWord (w : Z) :
  is_word w = true ->
  is_word (subWord w) = true /\ is_word (InvsubWord w) = true /\
  InvsubWord (subWord w) = w /\ subWord (InvsubWord w) = w.
Proof.
  intros H. split; [unfold subWord; apply pack_word_word|].
  split; [unfold InvsubWord; apply pack_word_word|].
  rewrite <- (pack_word_bytes w H).
  split.
  - rewrite subWord_pack, InvsubWord_pack by auto with bytes.
    rewrite !InvsBoxSub_sBoxSub by apply byte_of_byte. reflexivity.
  - rewrite InvsubWord_pack, subWord_pack by auto with bytes.
    rewrite !sBoxSub_InvsBoxSub by apply byte_of_byte. reflexivity.
Qed.

Lemma InvsubWord_subWord_witness :
  is_word 0xcf4f3c09 = true /\ subWord 0xcf4f3c09 = 0x8a84eb01 /\
  InvsubWord (subWord 0xcf4f3c09) = 0xcf4f3c09.
Proof.
  destruct (InvsubWord_subWord 0xcf4f3c09 eq_refl) as (_ & _ & H & _).
  split; [reflexivity|]. split; [vm_compute; reflexivity | exact H].
Defined.

(* ================================================================== *)
(** * Further properties: the transforms *)

Lemma at_cases v i :
  at_ v i = Throw out_of_range \/ exists x, at_ v i = Ok x.
Proof.
  unfold at_. destruct (i <? 0); [left; reflexivity|].
  destruct (nth_error v (Z.to_nat i)) as [x|]; [right; exists x|left]; reflexivity.
Qed.

Lemma at_out_of_range v i :
  i < 0 \/ Z.of_nat (List.length v) <= i -> at_ v i = Throw out_of_range.
Proof.
  intros H. unfold at_. destruct (Z.ltb_spec i 0); [reflexivity|].
  destruct (nth_error v (Z.to_nat i)) eqn:E; [|reflexivity].
  assert (Z.to_nat i < List.length v)%nat by (apply nth_error_Some; congruence).
  lia.
Qed.

(** A loop whose iterations can only raise [e], and of which one iteration
    always does, raises [e]. *)
Lemma forM_throws {St : Type} (body : Z -> St -> result St) (e : exn) n :
  forall lo s,
  (forall i s', lo <= i < lo + Z.of_nat n ->
     body i s' = Throw e \/ exists s'', body i s' = Ok s'') ->
  (exists i, lo <= i < lo + Z.of_nat n /\ forall s', body i s' = Throw e) ->
  forM n lo 1 body s = Throw e.
Proof.
  induction n as [|n IH]; intros lo s Hc (i & Hi & Hbad); [lia|].
  cbn [forM].
  destruct (Hc lo s ltac:(lia)) as [E|(s1 & E)]; rewrite E; cbn [bind];
    [reflexivity|].
  apply IH.
  - intros j s' Hj. apply Hc. lia.
  - destruct (Z.eq_dec i lo) as [->|Hne].
    + rewrite Hbad in E. discriminate E.
    + exists i. split; [lia | exact Hbad].
Qed.

(** A loop whose iterations can only raise [e] returns or raises [e]. *)
Lemma forM_cases {St : Type} (body : Z -> St -> result St) (e : exn) n :
  forall lo s,
  (forall i s', lo <= i < lo + Z.of_nat n ->
     body i s' = Throw e \/ exists s'', body i s' = Ok s'') ->
  forM n lo 1 body s = Throw e \/ exists s', forM n lo 1 body s = Ok s'.
Proof.
  induction n as [|n IH]; intros lo s Hc; [right; exists s; reflexivity|].
  cbn [forM].
  destruct (Hc lo s ltac:(lia)) as [E|(s1 & E)]; rewrite E; cbn [bind];
    [left; reflexivity|].
  apply IH. intros j s' Hj. apply Hc. lia.
Qed.

(** What holds before a loop and is kept by every iteration that returns
    holds when the loop returns. *)
Lemma forM_preserves {St : Type} (body : Z -> St -> result St)
    (Inv : St -> Prop) n :
  forall lo s s',
  (forall i s1 s2, Inv s1 -> body i s1 = Ok s2 -> Inv s2) ->
  Inv s -> forM n lo 1 body s = Ok s' -> Inv s'.
Proof.
  induction n as [|n IH]; intros lo s s' Hk H0 H.
  - cbn in H. injection H as <-. exact H0.
  - cbn [forM] in H. destruct (bind_Ok _ _ _ H) as (s1 & E1 & E2).
    apply (IH (lo + 1) s1 s' Hk); [|exact E2]. apply (Hk lo s s1 H0 E1).
Qed.

(** [AddRoundKey] returns exactly when the four words it reads exist. *)
Lemma AddRoundKey_Ok st w index :
  0 <= index -> index + 4 <= Z.of_nat (List.length w) ->
  exists st', AddRoundKey st w index = Ok st'.
Proof.
  intros Hlo Hhi. unfold AddRoundKey, forM_range.
  change (Z.to_nat ((4 - 0 + 1 - 1) / 1)) with 4%nat.
  eexists. apply forM_pure. intros i s' Hi.
  rewrite at_nth by lia. cbn [bind]. reflexivity.
Qed.

Lemma AddRoundKey_Throw st w index :
  index < 0 \/ Z.of_nat (List.length w) < index + 4 ->
  AddRoundKey st w index = Throw out_of_range.
Proof.
  intros H. unfold AddRoundKey, forM_range.
  change (Z.to_nat ((4 - 0 + 1 - 1) / 1)) with 4%nat.
  apply forM_throws.
  - intros i s' Hi.
    destruct (at_cases w (i + index)) as [E|(x & E)]; rewrite E; cbn [bind];
      [left; reflexivity | right; eexists; reflexivity].
  - destruct (Z_lt_le_dec index 0) as [Hneg|Hpos].
    + exists 0. split; [lia|]. intros s'.
      rewrite at_out_of_range by lia. reflexivity.
    + exists 3. split; [lia|]. intros s'.
      rewrite at_out_of_range by lia. reflexivity.
Qed.

Lemma AddRoundKey_cases st w index :
  AddRoundKey st w index = Throw out_of_range \/
  exists st', AddRoundKey st w index = Ok st'.
Proof.
  destruct (Z_lt_le_dec index 0) as [Hneg|Hpos];
    [left; apply AddRoundKey_Throw; lia|].
  destruct (Z_lt_le_dec (Z.of_nat (List.length w)) (index + 4)) as [Hs|Hl];
    [left; apply AddRoundKey_Throw; lia|].
  right. apply AddRoundKey_Ok; assumption.
Qed.

Lemma AddRoundKey_Ok_range st w index st' :
  AddRoundKey st w index = Ok st' ->
  0 <= index /\ index + 4 <= Z.of_nat (List.length w).
Proof.
  intros H.
  destruct (Z_lt_le_dec index 0) as [Hneg|Hpos];
    [rewrite AddRoundKey_Throw in H by lia; discriminate H|].
  destruct (Z_lt_le_dec (Z.of_nat (List.length w)) (index + 4)) as [Hs|Hl];
    [rewrite AddRoundKey_Throw in H by lia; discriminate H|].
  lia.
Qed.

Lemma AddRoundKey_Ok_state st w index st' :
  is_state st = true -> AddRoundKey st w index = Ok st' -> is_state st' = true.
Proof.
  intros Hst H. destruct (AddRoundKey_Ok_range _ _ _ _ H) as [Hlo Hhi].
  destruct (AddRoundKey_involutive st Hst w index Hlo Hhi) as (st1 & E & H1 & _).
  rewrite E in H. injection H as <-. exact H1.
Qed.

(** X7.  [AddRoundKey] returns exactly when the four schedule words at
    [index] to [index + 3] exist, whatever the state; when one of them does
    not, for a negative offset as for one too close to the end, it raises
    [std::out_of_range]. *)
Theorem AddRoundKey_returns_iff (st : State) (w : list Z) (index : Z) :
  ((exists st', AddRoundKey st w index = Ok st') <->
   0 <= index /\ index + 4 <= Z.of_nat (List.length w)) /\
  (index < 0 \/ Z.of_nat (List.length w) < index + 4 ->
   AddRoundKey st w index = Throw out_of_range).
Proof.
  split; [split|].
  - intros (st' & H). apply (AddRoundKey_Ok_range st w index st' H).
  - intros [Hlo Hhi]. apply AddRoundKey_Ok; assumption.
  - apply AddRoundKey_Throw.
Qed.

Lemma AddRoundKey_returns_iff_witness :
  AddRoundKey blank [1; 2; 3; 4; 5] 2 = Throw out_of_range /\
  exists st', AddRoundKey blank [1; 2; 3; 4; 5] 1 = Ok st'.
Proof.
  destruct (AddRoundKey_returns_iff blank [1; 2; 3; 4; 5] 2) as [_ H2].
  destruct (AddRoundKey_returns_iff blank [1; 2; 3; 4; 5] 1) as [[_ H1] _].
  split; [apply H2; right; cbn; lia | apply H1; cbn; lia].
Defined.

(** X8.  On a 4x4 grid of bytes and with the round key in range,
    [AddRoundKey] gives a 4x4 grid of bytes whose cell in row [r], column
    [c] is the old cell exclusive-or byte [r] (counted from the top) of
    schedule word [index + c]; applied a second time with the same offset
    it gives the first grid back. *)
Theorem AddRoundKey_xor_involution (st : State) (w : list Z) (index : Z) :
  is_state st = true ->
  0 <= index -> index + 4 <= Z.of_nat (List.length w) ->
  exists st',
    AddRoundKey st w index = Ok st' /\
    is_state st' = true /\
    (forall r c, 0 <= r < 4 -> 0 <= c < 4 ->
       get st' r c = Z.lxor (get st r c) (byte_of (word_at w (c + index)) (24 - 8 * r))) /\
    AddRoundKey st' w index = Ok st.
Proof.
  intros Hst Hlo Hhi.
  destruct (AddRoundKey_involutive st Hst w index Hlo Hhi) as (st' & E & Hst' & E').
  exists st'. split; [exact E|]. split; [exact Hst'|]. split; [|exact E'].
  as_grid st Hst. rewrite AddRoundKey_grid in E by (assumption || grid_ok).
  injection E as <-. intros r c Hr Hc.
  assert (Cr : r = 0 \/ r = 1 \/ r = 2 \/ r = 3) by lia.
  assert (Cc : c = 0 \/ c = 1 \/ c = 2 \/ c = 3) by lia.
  destruct Cr as [-> | [-> | [-> | ->]]]; destruct Cc as [-> | [-> | [-> | ->]]];
    reflexivity.
Qed.

Lemma AddRoundKey_xor_involution_witness :
  let st := [[0x00; 0x44; 0x88; 0xcc]; [0x11; 0x55; 0x99; 0xdd];
             [0x22; 0x66; 0xaa; 0xee]; [0x33; 0x77; 0xbb; 0xff]] in
  let w := [0x00010203; 0x04050607; 0x08090a0b; 0x0c0d0e0f] in
  is_state st = true /\
  exists st', AddRoundKey st w 0 = Ok st' /\ get st' 1 2 = 0x90 /\
              AddRoundKey st' w 0 = Ok st.
Proof.
  intros st w. split; [reflexivity|].
  destruct (AddRoundKey_xor_involution st w 0 eq_refl) as (st' & E & _ & Hc & E');
    [lia | cbn; lia |].
  exists st'. split; [exact E|]. split; [|exact E'].
  rewrite (Hc 1 2) by lia. reflexivity.
Defined.

(** X9.  [SubBytes] and [InvSubBytes] work cell by cell: on a 4x4 grid of
    bytes every cell of the result is [sBoxSub], respectively [InvsBoxSub],
    of the same cell of the argument. *)
Theorem SubBytes_cellwise (st : State) (r c : Z) :
  is_state st = true -> 0 <= r < 4 -> 0 <= c < 4 ->
  get (SubBytes st) r c = sBoxSub (get st r c) /\
  get (InvSubBytes st) r c = InvsBoxSub (get st r c).
Proof.
  intros Hst Hr Hc. as_grid st Hst.
  rewrite SubBytes_grid, InvSubBytes_grid by grid_ok.
  assert (Cr : r = 0 \/ r = 1 \/ r = 2 \/ r = 3) by lia.
  assert (Cc : c = 0 \/ c = 1 \/ c = 2 \/ c = 3) by lia.
  destruct Cr as [-> | [-> | [-> | ->]]]; destruct Cc as [-> | [-> | [-> | ->]]];
    split; reflexivity.
Qed.

Lemma SubBytes_cellwise_witness :
  let st := [[0x00; 0x44; 0x88; 0xcc]; [0x11; 0x55; 0x99; 0xdd];
             [0x22; 0x66; 0xaa; 0xee]; [0x33; 0x77; 0xbb; 0xff]] in
  is_state st = true /\ get (SubBytes st) 2 3 = sBoxSub 0xee.
Proof.
  intros st. split; [reflexivity|].
  apply (SubBytes_cellwise st 2 3); [reflexivity | lia | lia].
Defined.

(** X10.  [ShiftRows] rotates row [r] of a 4x4 grid of bytes to the left
    by [r] places and [InvShiftRows] rotates it to the right by [r] places;
    row 0 stays as it is. *)
Theorem ShiftRows_rotates (st : State) (r c : Z) :
  is_state st = true -> 0 <= r < 4 -> 0 <= c < 4 ->
  get (ShiftRows st) r c = get st r ((c + r) mod 4) /\
  get (InvShiftRows st) r c = get st r ((c - r) mod 4).
Proof.
  intros Hst Hr Hc. as_grid st Hst.
  rewrite ShiftRows_grid, InvShiftRows_grid by grid_ok.
  assert (Cr : r = 0 \/ r = 1 \/ r = 2 \/ r = 3) by lia.
  assert (Cc : c = 0 \/ c = 1 \/ c = 2 \/ c = 3) by lia.
  destruct Cr as [-> | [-> | [-> | ->]]]; destruct Cc as [-> | [-> | [-> | ->]]];
    split; reflexivity.
Qed.

Lemma ShiftRows_rotates_witness :
  let st := [[0x00; 0x44; 0x88; 0xcc]; [0x11; 0x55; 0x99; 0xdd];
             [0x22; 0x66; 0xaa; 0xee]; [0x33; 0x77; 0xbb; 0xff]] in
  is_state st = true /\ get (ShiftRows st) 3 2 = 0x77 /\ get (InvShiftRows st) 3 2 = 0xff.
Proof.
  intros st. split; [reflexivity|].
  destruct (ShiftRows_rotates st 3 2) as [H1 H2]; [reflexivity | lia | lia |].
  split; [rewrite H1 | rewrite H2]; reflexivity.
Defined.

(* ================================================================== *)
(** * Further properties: the inverse transforms, the other way round *)

(** One column through [InvMixColumns] and then [MixColumns]. *)
Lemma mix_inv_column s0 s1 s2 s3 :
  is_byte s0 = true -> is_byte s1 = true -> is_byte s2 = true -> is_byte s3 = true ->
  let t0 := u8 (Z.lxor (Z.lxor (Z.lxor (ffMultiply 14 s0) (ffMultiply 11 s1)) (ffMultiply 13 s2)) (ffMultiply 9 s3)) in
  let t1 := u8 (Z.lxor (Z.lxor (Z.lxor (ffMultiply 9 s0) (ffMultiply 14 s1)) (ffMultiply 11 s2)) (ffMultiply 13 s3)) in
  let t2 := u8 (Z.lxor (Z.lxor (Z.lxor (ffMultiply 13 s0) (ffMultiply 9 s1)) (ffMultiply 14 s2)) (ffMultiply 11 s3)) in
  let t3 := u8 (Z.lxor (Z.lxor (Z.lxor (ffMultiply 11 s0) (ffMultiply 13 s1)) (ffMultiply 9 s2)) (ffMultiply 14 s3)) in
  u8 (Z.lxor (Z.lxor (Z.lxor (ffMultiply 2 t0) (ffMultiply 3 t1)) (t2)) (t3)) = s0 /\
  u8 (Z.lxor (Z.lxor (Z.lxor (t0) (ffMultiply 2 t1)) (ffMultiply 3 t2)) (t3)) = s1 /\
  u8 (Z.lxor (Z.lxor (Z.lxor (t0) (t1)) (ffMultiply 2 t2)) (ffMultiply 3 t3)) = s2 /\
  u8 (Z.lxor (Z.lxor (Z.lxor (ffMultiply 3 t0) (t1)) (t2)) (ffMultiply 2 t3)) = s3.
Proof.
  intros H0 H1 H2 H3. cbv zeta.
  assert (A00 : forall s, is_byte s = true -> Z.lxor (Z.lxor (Z.lxor (ffMultiply 2 (ffMultiply 14 s)) (ffMultiply 3 (ffMultiply 9 s))) (ffMultiply 13 s)) (ffMultiply 11 s) = s).
  { intros s Hs. apply Z.eqb_eq. revert s Hs.
    apply (byte_enum (fun s => Z.lxor (Z.lxor (Z.lxor (ffMultiply 2 (ffMultiply 14 s)) (ffMultiply 3 (ffMultiply 9 s))) (ffMultiply 13 s)) (ffMultiply 11 s) =? s)).
    vm_compute. reflexivity. }
  assert (A01 : forall s, is_byte s = true -> Z.lxor (Z.lxor (Z.lxor (ffMultiply 2 (ffMultiply 11 s)) (ffMultiply 3 (ffMultiply 14 s))) (ffMultiply 9 s)) (ffMultiply 13 s) = 0).
  { intros s Hs. apply Z.eqb_eq. revert s Hs.
    apply (byte_enum (fun s => Z.lxor (Z.lxor (Z.lxor (ffMultiply 2 (ffMultiply 11 s)) (ffMultiply 3 (ffMultiply 14 s))) (ffMultiply 9 s)) (ffMultiply 13 s) =? 0)).
    vm_compute. reflexivity. }
  assert (A02 : forall s, is_byte s = true -> Z.lxor (Z.lxor (Z.lxor (ffMultiply 2 (ffMultiply 13 s)) (ffMultiply 3 (ffMultiply 11 s))) (ffMultiply 14 s)) (ffMultiply 9 s) = 0).
  { intros s Hs. apply Z.eqb_eq. revert s Hs.
    apply (byte_enum (fun s => Z.lxor (Z.lxor (Z.lxor (ffMultiply 2 (ffMultiply 13 s)) (ffMultiply 3 (ffMultiply 11 s))) (ffMultiply 14 s)) (ffMultiply 9 s) =? 0)).
    vm_compute. reflexivity. }
  assert (A03 : forall s, is_byte s = true -> Z.lxor (Z.lxor (Z.lxor (ffMultiply 2 (ffMultiply 9 s)) (ffMultiply 3 (ffMultiply 13 s))) (ffMultiply 11 s)) (ffMultiply 14 s) = 0).
  { intros s Hs. apply Z.eqb_eq. revert s Hs.
    apply (byte_enum (fun s => Z.lxor (Z.lxor (Z.lxor (ffMultiply 2 (ffMultiply 9 s)) (ffMultiply 3 (ffMultiply 13 s))) (ffMultiply 11 s)) (ffMultiply 14 s) =? 0)).
    vm_compute. reflexivity. }
  assert (A10 : forall s, is_byte s = true -> Z.lxor (Z.lxor (Z.lxor (ffMultiply 14 s) (ffMultiply 2 (ffMultiply 9 s))) (ffMultiply 3 (ffMultiply 13 s))) (ffMultiply 11 s) = 0).
  { intros s Hs. apply Z.eqb_eq. revert s Hs.
    apply (byte_enum (fun s => Z.lxor (Z.lxor (Z.lxor (ffMultiply 14 s) (ffMultiply 2 (ffMultiply 9 s))) (ffMultiply 3 (ffMultiply 13 s))) (ffMultiply 11 s) =? 0)).
    vm_compute. reflexivity. }
  assert (A11 : forall s, is_byte s = true -> Z.lxor (Z.lxor (Z.lxor (ffMultiply 11 s) (ffMultiply 2 (ffMultiply 14 s))) (ffMultiply 3 (ffMultiply 9 s))) (ffMultiply 13 s) = s).
  { intros s Hs. apply Z.eqb_eq. revert s Hs.
    apply (byte_enum (fun s => Z.lxor (Z.lxor (Z.lxor (ffMultiply 11 s) (ffMultiply 2 (ffMultiply 14 s))) (ffMultiply 3 (ffMultiply 9 s))) (ffMultiply 13 s) =? s)).
    vm_compute. reflexivity. }
  assert (A12 : forall s, is_byte s = true -> Z.lxor (Z.lxor (Z.lxor (ffMultiply 13 s) (ffMultiply 2 (ffMultiply 11 s))) (ffMultiply 3 (ffMultiply 14 s))) (ffMultiply 9 s) = 0).
  { intros s Hs. apply Z.eqb_eq. revert s Hs.
    apply (byte_enum (fun s => Z.lxor (Z.lxor (Z.lxor (ffMultiply 13 s) (ffMultiply 2 (ffMultiply 11 s))) (ffMultiply 3 (ffMultiply 14 s))) (ffMultiply 9 s) =? 0)).
    vm_compute. reflexivity. }
  assert (A13 : forall s, is_byte s = true -> Z.lxor (Z.lxor (Z.lxor (ffMultiply 9 s) (ffMultiply 2 (ffMultiply 13 s))) (ffMultiply 3 (ffMultiply 11 s))) (ffMultiply 14 s) = 0).
  { intros s Hs. apply Z.eqb_eq. revert s Hs.
    apply (byte_enum (fun s => Z.lxor (Z.lxor (Z.lxor (ffMultiply 9 s) (ffMultiply 2 (ffMultiply 13 s))) (ffMultiply 3 (ffMultiply 11 s))) (ffMultiply 14 s) =? 0)).
    vm_compute. reflexivity. }
  assert (A20 : forall s, is_byte s = true -> Z.lxor (Z.lxor (Z.lxor (ffMultiply 14 s) (ffMultiply 9 s)) (ffMultiply 2 (ffMultiply 13 s))) (ffMultiply 3 (ffMultiply 11 s)) = 0).
  { intros s Hs. apply Z.eqb_eq. revert s Hs.
    apply (byte_enum (fun s => Z.lxor (Z.lxor (Z.lxor (ffMultiply 14 s) (ffMultiply 9 s)) (ffMultiply 2 (ffMultiply 13 s))) (ffMultiply 3 (ffMultiply 11 s)) =? 0)).
    vm_compute. reflexivity. }
  assert (A21 : forall s, is_byte s = true -> Z.lxor (Z.lxor (Z.lxor (ffMultiply 11 s) (ffMultiply 14 s)) (ffMultiply 2 (ffMultiply 9 s))) (ffMultiply 3 (ffMultiply 13 s)) = 0).
  { intros s Hs. apply Z.eqb_eq. revert s Hs.
    apply (byte_enum (fun s => Z.lxor (Z.lxor (Z.lxor (ffMultiply 11 s) (ffMultiply 14 s)) (ffMultiply 2 (ffMultiply 9 s))) (ffMultiply 3 (ffMultiply 13 s)) =? 0)).
    vm_compute. reflexivity. }
  assert (A22 : forall s, is_byte s = true -> Z.lxor (Z.lxor (Z.lxor (ffMultiply 13 s) (ffMultiply 11 s)) (ffMultiply 2 (ffMultiply 14 s))) (ffMultiply 3 (ffMultiply 9 s)) = s).
  { intros s Hs. apply Z.eqb_eq. revert s Hs.
    apply (byte_enum (fun s => Z.lxor (Z.lxor (Z.lxor (ffMultiply 13 s) (ffMultiply 11 s)) (ffMultiply 2 (ffMultiply 14 s))) (ffMultiply 3 (ffMultiply 9 s)) =? s)).
    vm_compute. reflexivity. }
  assert (A23 : forall s, is_byte s = true -> Z.lxor (Z.lxor (Z.lxor (ffMultiply 9 s) (ffMultiply 13 s)) (ffMultiply 2 (ffMultiply 11 s))) (ffMultiply 3 (ffMultiply 14 s)) = 0).
  { intros s Hs. apply Z.eqb_eq. revert s Hs.
    apply (byte_enum (fun s => Z.lxor (Z.lxor (Z.lxor (ffMultiply 9 s) (ffMultiply 13 s)) (ffMultiply 2 (ffMultiply 11 s))) (ffMultiply 3 (ffMultiply 14 s)) =? 0)).
    vm_compute. reflexivity. }
  assert (A30 : forall s, is_byte s = true -> Z.lxor (Z.lxor (Z.lxor (ffMultiply 3 (ffMultiply 14 s)) (ffMultiply 9 s)) (ffMultiply 13 s)) (ffMultiply 2 (ffMultiply 11 s)) = 0).
  { intros s Hs. apply Z.eqb_eq. revert s Hs.
    apply (byte_enum (fun s => Z.lxor (Z.lxor (Z.lxor (ffMultiply 3 (ffMultiply 14 s)) (ffMultiply 9 s)) (ffMultiply 13 s)) (ffMultiply 2 (ffMultiply 11 s)) =? 0)).
    vm_compute. reflexivity. }
  assert (A31 : forall s, is_byte s = true -> Z.lxor (Z.lxor (Z.lxor (ffMultiply 3 (ffMultiply 11 s)) (ffMultiply 14 s)) (ffMultiply 9 s)) (ffMultiply 2 (ffMultiply 13 s)) = 0).
  { intros s Hs. apply Z.eqb_eq. revert s Hs.
    apply (byte_enum (fun s => Z.lxor (Z.lxor (Z.lxor (ffMultiply 3 (ffMultiply 11 s)) (ffMultiply 14 s)) (ffMultiply 9 s)) (ffMultiply 2 (ffMultiply 13 s)) =? 0)).
    vm_compute. reflexivity. }
  assert (A32 : forall s, is_byte s = true -> Z.lxor (Z.lxor (Z.lxor (ffMultiply 3 (ffMultiply 13 s)) (ffMultiply 11 s)) (ffMultiply 14 s)) (ffMultiply 2 (ffMultiply 9 s)) = 0).
  { intros s Hs. apply Z.eqb_eq. revert s Hs.
    apply (byte_enum (fun s => Z.lxor (Z.lxor (Z.lxor (ffMultiply 3 (ffMultiply 13 s)) (ffMultiply 11 s)) (ffMultiply 14 s)) (ffMultiply 2 (ffMultiply 9 s)) =? 0)).
    vm_compute. reflexivity. }
  assert (A33 : forall s, is_byte s = true -> Z.lxor (Z.lxor (Z.lxor (ffMultiply 3 (ffMultiply 9 s)) (ffMultiply 13 s)) (ffMultiply 11 s)) (ffMultiply 2 (ffMultiply 14 s)) = s).
  { intros s Hs. apply Z.eqb_eq. revert s Hs.
    apply (byte_enum (fun s => Z.lxor (Z.lxor (Z.lxor (ffMultiply 3 (ffMultiply 9 s)) (ffMultiply 13 s)) (ffMultiply 11 s)) (ffMultiply 2 (ffMultiply 14 s)) =? s)).
    vm_compute. reflexivity. }
  rewrite !u8_small by auto 10 with bytes.
  rewrite !ffMultiply_lxor by auto 10 with bytes.
  split; [|split; [|split]].
  - transitivity (Z.lxor (Z.lxor (Z.lxor (Z.lxor (Z.lxor (Z.lxor (ffMultiply 2 (ffMultiply 14 s0)) (ffMultiply 3 (ffMultiply 9 s0))) (ffMultiply 13 s0)) (ffMultiply 11 s0)) (Z.lxor (Z.lxor (Z.lxor (ffMultiply 2 (ffMultiply 11 s1)) (ffMultiply 3 (ffMultiply 14 s1))) (ffMultiply 9 s1)) (ffMultiply 13 s1))) (Z.lxor (Z.lxor (Z.lxor (ffMultiply 2 (ffMultiply 13 s2)) (ffMultiply 3 (ffMultiply 11 s2))) (ffMultiply 14 s2)) (ffMultiply 9 s2))) (Z.lxor (Z.lxor (Z.lxor (ffMultiply 2 (ffMultiply 9 s3)) (ffMultiply 3 (ffMultiply 13 s3))) (ffMultiply 11 s3)) (ffMultiply 14 s3))); [lxor_ac|].
    rewrite A00, A01, A02, A03 by assumption.
    rewrite ?Z.lxor_0_r, ?Z.lxor_0_l. reflexivity.
  - transitivity (Z.lxor (Z.lxor (Z.lxor (Z.lxor (Z.lxor (Z.lxor (ffMultiply 14 s0) (ffMultiply 2 (ffMultiply 9 s0))) (ffMultiply 3 (ffMultiply 13 s0))) (ffMultiply 11 s0)) (Z.lxor (Z.lxor (Z.lxor (ffMultiply 11 s1) (ffMultiply 2 (ffMultiply 14 s1))) (ffMultiply 3 (ffMultiply 9 s1))) (ffMultiply 13 s1))) (Z.lxor (Z.lxor (Z.lxor (ffMultiply 13 s2) (ffMultiply 2 (ffMultiply 11 s2))) (ffMultiply 3 (ffMultiply 14 s2))) (ffMultiply 9 s2))) (Z.lxor (Z.lxor (Z.lxor (ffMultiply 9 s3) (ffMultiply 2 (ffMultiply 13 s3))) (ffMultiply 3 (ffMultiply 11 s3))) (ffMultiply 14 s3))); [lxor_ac|].
    rewrite A10, A11, A12, A13 by assumption.
    rewrite ?Z.lxor_0_r, ?Z.lxor_0_l. reflexivity.
  - transitivity (Z.lxor (Z.lxor (Z.lxor (Z.lxor (Z.lxor (Z.lxor (ffMultiply 14 s0) (ffMultiply 9 s0)) (ffMultiply 2 (ffMultiply 13 s0))) (ffMultiply 3 (ffMultiply 11 s0))) (Z.lxor (Z.lxor (Z.lxor (ffMultiply 11 s1) (ffMultiply 14 s1)) (ffMultiply 2 (ffMultiply 9 s1))) (ffMultiply 3 (ffMultiply 13 s1)))) (Z.lxor (Z.lxor (Z.lxor (ffMultiply 13 s2) (ffMultiply 11 s2)) (ffMultiply 2 (ffMultiply 14 s2))) (ffMultiply 3 (ffMultiply 9 s2)))) (Z.lxor (Z.lxor (Z.lxor (ffMultiply 9 s3) (ffMultiply 13 s3)) (ffMultiply 2 (ffMultiply 11 s3))) (ffMultiply 3 (ffMultiply 14 s3)))); [lxor_ac|].
    rewrite A20, A21, A22, A23 by assumption.
    rewrite ?Z.lxor_0_r, ?Z.lxor_0_l. reflexivity.
  - transitivity (Z.lxor (Z.lxor (Z.lxor (Z.lxor (Z.lxor (Z.lxor (ffMultiply 3 (ffMultiply 14 s0)) (ffMultiply 9 s0)) (ffMultiply 13 s0)) (ffMultiply 2 (ffMultiply 11 s0))) (Z.lxor (Z.lxor (Z.lxor (ffMultiply 3 (ffMultiply 11 s1)) (ffMultiply 14 s1)) (ffMultiply 9 s1)) (ffMultiply 2 (ffMultiply 13 s1)))) (Z.lxor (Z.lxor (Z.lxor (ffMultiply 3 (ffMultiply 13 s2)) (ffMultiply 11 s2)) (ffMultiply 14 s2)) (ffMultiply 2 (ffMultiply 9 s2)))) (Z.lxor (Z.lxor (Z.lxor (ffMultiply 3 (ffMultiply 9 s3)) (ffMultiply 13 s3)) (ffMultiply 11 s3)) (ffMultiply 2 (ffMultiply 14 s3)))); [lxor_ac|].
    rewrite A30, A31, A32, A33 by assumption.
    rewrite ?Z.lxor_0_r, ?Z.lxor_0_l. reflexivity.
Qed.

Lemma MixColumns_InvMixColumns_grid this
    a0 a1 a2 a3 b0 b1 b2 b3 c0 c1 c2 c3 d0 d1 d2 d3 :
  AES.Nb this = 4 ->
  is_state (grid a0 a1 a2 a3 b0 b1 b2 b3 c0 c1 c2 c3 d0 d1 d2 d3) = true ->
  MixColumns this (InvMixColumns this
    (grid a0 a1 a2 a3 b0 b1 b2 b3 c0 c1 c2 c3 d0 d1 d2 d3)) =
  grid a0 a1 a2 a3 b0 b1 b2 b3 c0 c1 c2 c3 d0 d1 d2 d3.
Proof.
  intros HNb Hst. apply is_state_grid in Hst.
  destruct Hst as ((? & ? & ? & ?) & (? & ? & ? & ?) & (? & ? & ? & ?) & (? & ? & ? & ?)).
  destruct (mix_inv_column a0 b0 c0 d0) as (E00 & E01 & E02 & E03); try assumption.
  destruct (mix_inv_column a1 b1 c1 d1) as (E10 & E11 & E12 & E13); try assumption.
  destruct (mix_inv_column a2 b2 c2 d2) as (E20 & E21 & E22 & E23); try assumption.
  destruct (mix_inv_column a3 b3 c3 d3) as (E30 & E31 & E32 & E33); try assumption.
  unfold MixColumns, InvMixColumns. rewrite HNb.
  cbv -[ffMultiply u8 Z.lxor].
  unfold grid.
  repeat f_equal; assumption.
Qed.

Lemma ShiftRows_InvShiftRows st : is_state st = true -> ShiftRows (InvShiftRows st) = st.
Proof.
  intros Hst. as_grid st Hst. rewrite InvShiftRows_grid by grid_ok.
  rewrite ShiftRows_grid by grid_ok. reflexivity.
Qed.

Lemma SubBytes_InvSubBytes st : is_state st = true -> SubBytes (InvSubBytes st) = st.
Proof.
  intros Hst. as_grid st Hst. rewrite InvSubBytes_grid by grid_ok.
  rewrite SubBytes_grid by grid_ok.
  rewrite !sBoxSub_InvsBoxSub by assumption. reflexivity.
Qed.

Lemma MixColumns_InvMixColumns this st :
  AES.Nb this = 4 -> is_state st = true ->
  MixColumns this (InvMixColumns this st) = st.
Proof.
  intros HNb Hst. as_grid st Hst.
  apply MixColumns_InvMixColumns_grid; [exact HNb | grid_ok].
Qed.

(** X11.  Each forward transform also undoes its inverse transform: on
    every 4x4 grid of bytes [ShiftRows] after [InvShiftRows], [SubBytes]
    after [InvSubBytes] and, for [Nb] = 4, [MixColumns] after
    [InvMixColumns] give the grid back. *)
Theorem forward_undoes_inverse (this : AES.t) (S : State) :
  is_state S = true ->
  AES.Nb this = 4 ->
  ShiftRows (InvShiftRows S) = S /\
  SubBytes (InvSubBytes S) = S /\
  MixColumns this (InvMixColumns this S) = S.
Proof.
  intros HS HNb. split; [|split].
  - apply ShiftRows_InvShiftRows, HS.
  - apply SubBytes_InvSubBytes, HS.
  - apply MixColumns_InvMixColumns; assumption.
Qed.

Lemma forward_undoes_inverse_witness :
  let S := [[0xd4; 0xe0; 0xb8; 0x1e]; [0xbf; 0xb4; 0x41; 0x27];
            [0x5d; 0x52; 0x11; 0x98]; [0x30; 0xae; 0xf1; 0xe5]] in
  let this := AES.mk 4 4 10 S [] [] [] in
  is_state S = true /\ AES.Nb this = 4 /\
  ShiftRows (InvShiftRows S) = S /\
  SubBytes (InvSubBytes S) = S /\
  MixColumns this (InvMixColumns this S) = S.
Proof.
  intros S this. split; [reflexivity|]. split; [reflexivity|].
  apply (forward_undoes_inverse this S); reflexivity.
Defined.

(* ================================================================== *)
(** * Further properties: the state machines *)

Section MoreRounds.
Variable this : AES.t.
Hypothesis HNb : AES.Nb this = 4.

(** The loop of [Cipher] run on what the loop of [Decipher] produced, one
  half round out of step. *)
Lemma loops_cancel_back n : forall i j st index,
is_state st = true ->
0 <= index - 4 * Z.of_nat n + 4 ->
index + 4 <= Z.of_nat (List.length (AES.w this)) ->
exists st',
  forM n i 1 (Decipher_round this) (st, index) = Ok (st', index - 4 * Z.of_nat n) /\
  is_state st' = true /\
  forM n j 1 (Cipher_round this)
    (InvSubBytes (InvShiftRows st'), index - 4 * Z.of_nat n + 4) =
  Ok (InvSubBytes (InvShiftRows st), index + 4).
Proof.
induction n as [|n IH]; intros i j st index Hst Hlo Hhi.
- exists st. cbn [forM]. rewrite !Z.mul_0_r, !Z.sub_0_r. auto.
- pose proof (InvShiftRows_state st Hst) as H1.
  pose proof (InvSubBytes_state _ H1) as H2.
  destruct (AddRoundKey_involutive _ H2 (AES.w this) index)
    as (a & E1 & Ha & E1'); [lia | lia |].
  pose proof (InvMixColumns_state this HNb a Ha) as H3.
  destruct (IH (i + 1) j (InvMixColumns this a) (index - 4) H3)
    as (st' & E2 & Hst' & E3); [lia | lia |].
  exists st'. split; [|split; [exact Hst'|]].
  + cbn [forM]. unfold Decipher_round at 1. rewrite E1. cbn [bind].
    rewrite E2. do 2 f_equal. lia.
  + replace (S n) with (n + 1)%nat by lia. rewrite forM_snoc.
    replace (index - 4 * Z.of_nat (n + 1) + 4)
      with (index - 4 - 4 * Z.of_nat n + 4) by lia.
    rewrite E3. cbn [bind]. unfold Cipher_round.
    rewrite SubBytes_InvSubBytes
      by (apply InvShiftRows_state, InvMixColumns_state; assumption).
    rewrite ShiftRows_InvShiftRows by exact H3.
    rewrite MixColumns_InvMixColumns by assumption.
    replace (index - 4 + 4) with index by lia.
    rewrite E1'. cbn [bind]. reflexivity.
Qed.

Lemma Cipher_Decipher :
1 <= AES.Nr this ->
4 * (AES.Nr this + 1) <= Z.of_nat (List.length (AES.w this)) ->
is_state (AES.state this) = true ->
exists d, Decipher this = Ok d /\ Cipher d = Ok this.
Proof.
intros HNr Hw Hst.
destruct (AddRoundKey_involutive _ Hst (AES.w this) (4 * AES.Nr this))
  as (st1 & E1 & Hst1 & E1'); [lia | lia |].
destruct (loops_cancel_back (Z.to_nat (AES.Nr this - 1)) 0 0 st1
            (4 * AES.Nr this - 4) Hst1)
  as (st2 & E2 & Hst2 & E3); [lia | lia |].
replace (4 * AES.Nr this - 4 - 4 * Z.of_nat (Z.to_nat (AES.Nr this - 1)))
  with 0 in E2, E3 by lia.
pose proof (InvShiftRows_state st2 Hst2) as H1.
pose proof (InvSubBytes_state _ H1) as H2.
destruct (AddRoundKey_involutive _ H2 (AES.w this) 0)
  as (st3 & E4 & Hst3 & E4'); [lia | lia |].
exists (set_state this st3). split.
- unfold Decipher, forM_range. rewrite HNb, (Z.mul_comm (AES.Nr this) 4), E1.
  cbn [bind].
  replace ((AES.Nr this - 1 - 0 + 1 - 1) / 1) with (AES.Nr this - 1)
    by (rewrite Z.div_1_r; lia).
  rewrite E2. cbn [bind]. rewrite E4. reflexivity.
- unfold Cipher, forM_range. cbn [set_state AES.state AES.w AES.Nr AES.Nb].
  rewrite E4'. cbn [bind].
  replace ((AES.Nr this - 1 - 0 + 1 - 1) / 1) with (AES.Nr this - 1)
    by (rewrite Z.div_1_r; lia).
  change (Cipher_round (set_state this st3)) with (Cipher_round this).
  rewrite E3. cbn [bind].
  rewrite SubBytes_InvSubBytes by (apply InvShiftRows_state; exact Hst1).
  rewrite ShiftRows_InvShiftRows by exact Hst1.
  replace (4 * AES.Nr this - 4 + 4) with (4 * AES.Nr this) by lia.
  rewrite E1'. cbn [bind]. destruct this. reflexivity.
Qed.
End MoreRounds.

(** X12.  Encryption undoes decryption as well: on an object with [Nb] =
    4, at least one round, a schedule of at least [4 * (Nr + 1)] words and a
    4x4 grid of bytes as state, [Decipher] returns, and [Cipher] on its
    result returns the object as it was. *)
Theorem Cipher_undoes_Decipher (this : AES.t) :
  AES.Nb this = 4 ->
  1 <= AES.Nr this ->
  4 * (AES.Nr this + 1) <= Z.of_nat (List.length (AES.w this)) ->
  is_state (AES.state this) = true ->
  exists d, Decipher this = Ok d /\ Cipher d = Ok this.
Proof. apply Cipher_Decipher. Qed.

Lemma Cipher_undoes_Decipher_witness :
  let this := AES.mk 4 4 10
                [[0x69; 0x6a; 0xd8; 0x70]; [0xc4; 0x7b; 0xcd; 0xb4];
                 [0xe0; 0x04; 0xb7; 0xc5]; [0xd8; 0x30; 0x80; 0x5a]]
                [] (repeat 0x01020304 44) [] in
  AES.Nb this = 4 /\ 1 <= AES.Nr this /\ is_state (AES.state this) = true /\
  exists d, Decipher this = Ok d /\ Cipher d = Ok this.
Proof.
  intros this. split; [reflexivity|]. split; [cbn; lia|]. split; [reflexivity|].
  apply (Cipher_undoes_Decipher this); [reflexivity | cbn; lia | cbn; lia | reflexivity].
Defined.

(* ================================================================== *)
(** * Further properties: when the state machines return *)

Section Returns.
Variable this : AES.t.


Lemma Decipher_round_cases i st index :
Decipher_round this i (st, index) = Throw out_of_range \/
exists st', Decipher_round this i (st, index) = Ok (st', index - 4).
Proof.
unfold Decipher_round.
destruct (AddRoundKey_cases (InvSubBytes (InvShiftRows st))
            (AES.w this) index) as [E|(st' & E)]; rewrite E; cbn [bind];
  [left | right; eexists]; reflexivity.
Qed.


Lemma Decipher_loop_cases n : forall i st index,
forM n i 1 (Decipher_round this) (st, index) = Throw out_of_range \/
exists st', forM n i 1 (Decipher_round this) (st, index)
            = Ok (st', index - 4 * Z.of_nat n).
Proof.
induction n as [|n IH]; intros i st index.
- right. exists st. cbn [forM]. do 2 f_equal. lia.
- cbn [forM].
  destruct (Decipher_round_cases i st index) as [E|(st1 & E)]; rewrite E;
    cbn [bind]; [left; reflexivity|].
  destruct (IH (i + 1) st1 (index - 4)) as [E2|(st2 & E2)]; rewrite E2;
    [left; reflexivity | right; exists st2; do 2 f_equal; lia].
Qed.


Lemma Decipher_loop_Ok n : forall i st index,
0 <= index - 4 * Z.of_nat n + 4 ->
index + 4 <= Z.of_nat (List.length (AES.w this)) ->
exists st', forM n i 1 (Decipher_round this) (st, index)
            = Ok (st', index - 4 * Z.of_nat n).
Proof.
induction n as [|n IH]; intros i st index Hlo Hhi.
- exists st. cbn [forM]. do 2 f_equal. lia.
- cbn [forM]. unfold Decipher_round at 1.
  destruct (AddRoundKey_Ok (InvSubBytes (InvShiftRows st))
              (AES.w this) index) as (st1 & E); [lia | lia |].
  rewrite E. cbn [bind].
  destruct (IH (i + 1) (InvMixColumns this st1) (index - 4)) as (st2 & E2);
    [lia | lia |].
  rewrite E2. exists st2. do 2 f_equal. lia.
Qed.



Hypothesis HNb : AES.Nb this = 4.

Lemma Decipher_Ok :
1 <= AES.Nr this ->
4 * (AES.Nr this + 1) <= Z.of_nat (List.length (AES.w this)) ->
exists d, Decipher this = Ok d.
Proof.
intros HNr H. unfold Decipher, forM_range. rewrite Z.div_1_r, HNb.
destruct (AddRoundKey_Ok (AES.state this) (AES.w this) (AES.Nr this * 4))
  as (st1 & E1); [lia | lia |].
rewrite E1. cbn [bind].
destruct (Decipher_loop_Ok (Z.to_nat (AES.Nr this - 1 - 0 + 1 - 1)) 0 st1
            (AES.Nr this * 4 - 4)) as (st2 & E2); [lia | lia |].
rewrite E2. cbn [bind].
destruct (AddRoundKey_Ok (InvSubBytes (InvShiftRows st2)) (AES.w this)
            (AES.Nr this * 4 - 4
             - 4 * Z.of_nat (Z.to_nat (AES.Nr this - 1 - 0 + 1 - 1))))
  as (st3 & E3); [lia | lia |].
rewrite E3. eexists. reflexivity.
Qed.

Lemma Decipher_Throw :
AES.Nr this < 1 \/
Z.of_nat (List.length (AES.w this)) < 4 * (AES.Nr this + 1) ->
Decipher this = Throw out_of_range.
Proof.
intros H. unfold Decipher, forM_range. rewrite Z.div_1_r, HNb.
destruct (AddRoundKey_cases (AES.state this) (AES.w this) (AES.Nr this * 4))
  as [E1|(st1 & E1)]; rewrite E1; cbn [bind]; [reflexivity|].
apply AddRoundKey_Ok_range in E1.
destruct (Decipher_loop_cases (Z.to_nat (AES.Nr this - 1 - 0 + 1 - 1)) 0 st1
            (AES.Nr this * 4 - 4)) as [E2|(st2 & E2)];
  rewrite E2; cbn [bind]; [reflexivity|].
rewrite AddRoundKey_Throw by lia. reflexivity.
Qed.
End Returns.



(** X14.  With [Nb] = 4 and for every [Nr] whose first offset [Nr * Nb] is
    a value of [int], [Decipher] returns exactly when there is at least one
    round and the schedule has [4 * (Nr + 1)] words; otherwise it raises
    [std::out_of_range].  Unlike [Cipher] it does not return for such an
    [Nr] below 1: its last [AddRoundKey] then reads at offset -4. *)
Theorem Decipher_returns_iff (this : AES.t) :
  AES.Nb this = 4 ->
  -2147483648 <= 4 * AES.Nr this -> 4 * AES.Nr this <= 2147483647 ->
  ((exists d, Decipher this = Ok d) <->
   1 <= AES.Nr this /\
   4 * (AES.Nr this + 1) <= Z.of_nat (List.length (AES.w this))) /\
  (AES.Nr this < 1 \/
   Z.of_nat (List.length (AES.w this)) < 4 * (AES.Nr this + 1) ->
   Decipher this = Throw out_of_range).
Proof.
  intros HNb _ _. split; [split|].
  - intros (d & H).
    destruct (Z_lt_le_dec (AES.Nr this) 1) as [Hs|Hl];
      [rewrite Decipher_Throw in H by (assumption || lia); discriminate H|].
    destruct (Z_lt_le_dec (Z.of_nat (List.length (AES.w this)))
                (4 * (AES.Nr this + 1))) as [Hs2|Hl2];
      [rewrite Decipher_Throw in H by (assumption || lia); discriminate H|].
    lia.
  - intros [H1 H2]. apply Decipher_Ok; assumption.
  - apply Decipher_Throw, HNb.
Qed.

Lemma Decipher_returns_iff_witness :
  AES.Nb (AES.mk 4 4 0 blank [] (repeat 0 44) []) = 4 /\
  Decipher (AES.mk 4 4 0 blank [] (repeat 0 44) []) = Throw out_of_range /\
  exists d, Decipher (AES.mk 4 4 10 blank [] (repeat 0 44) []) = Ok d.
Proof.
  split; [reflexivity|]. split.
  - apply (Decipher_returns_iff (AES.mk 4 4 0 blank [] (repeat 0 44) []) eq_refl);
      [cbn; lia | cbn; lia |].
    left. cbn. lia.
  - apply (Decipher_returns_iff (AES.mk 4 4 10 blank [] (repeat 0 44) []) eq_refl);
      cbn; lia.
Defined.

(* ================================================================== *)
(** * Further properties: what the state machines keep *)

Lemma Cipher_round_state this i s s' :
  AES.Nb this = 4 ->
  is_state (fst s) = true -> Cipher_round this i s = Ok s' ->
  is_state (fst s') = true.
Proof.
  intros HNb Hs H. destruct s as [st index]. unfold Cipher_round in H.
  destruct (bind_Ok _ _ _ H) as (st1 & E1 & E2). injection E2 as <-.
  cbn [fst] in *. refine (AddRoundKey_Ok_state _ _ _ _ _ E1).
  apply MixColumns_state; [exact HNb|]. apply ShiftRows_state, SubBytes_state, Hs.
Qed.

Lemma Decipher_round_state this i s s' :
  AES.Nb this = 4 ->
  is_state (fst s) = true -> Decipher_round this i s = Ok s' ->
  is_state (fst s') = true.
Proof.
  intros HNb Hs H. destruct s as [st index]. unfold Decipher_round in H.
  destruct (bind_Ok _ _ _ H) as (st1 & E1 & E2). injection E2 as <-.
  cbn [fst] in *. apply InvMixColumns_state; [exact HNb|].
  refine (AddRoundKey_Ok_state _ _ _ _ _ E1).
  apply InvSubBytes_state, InvShiftRows_state, Hs.
Qed.

Lemma Cipher_frame this c :
  Cipher this = Ok c ->
  c = set_state this (AES.state c) /\
  (AES.Nb this = 4 -> is_state (AES.state this) = true ->
   is_state (AES.state c) = true).
Proof.
  intros H. unfold Cipher in H.
  destruct (bind_Ok _ _ _ H) as (st1 & E1 & H1). clear H.
  destruct (bind_Ok _ _ _ H1) as ([st2 index] & E2 & H2). clear H1.
  destruct (bind_Ok _ _ _ H2) as (st3 & E3 & H3). clear H2.
  injection H3 as <-. split; [reflexivity|]. intros HNb Hst.
  cbn [set_state AES.state].
  refine (AddRoundKey_Ok_state _ _ _ _ _ E3).
  apply ShiftRows_state, SubBytes_state.
  unfold forM_range in E2.
  apply (forM_preserves (Cipher_round this)
           (fun s => is_state (fst s) = true) _ _ (st1, 0 + 4) (st2, index)
           (fun i s1 s2 => Cipher_round_state this i s1 s2 HNb)
           (AddRoundKey_Ok_state _ _ _ _ Hst E1) E2).
Qed.

Lemma Decipher_frame this d :
  Decipher this = Ok d ->
  d = set_state this (AES.state d) /\
  (AES.Nb this = 4 -> is_state (AES.state this) = true ->
   is_state (AES.state d) = true).
Proof.
  intros H. unfold Decipher in H.
  destruct (bind_Ok _ _ _ H) as (st1 & E1 & H1). clear H.
  destruct (bind_Ok _ _ _ H1) as ([st2 index] & E2 & H2). clear H1.
  destruct (bind_Ok _ _ _ H2) as (st3 & E3 & H3). clear H2.
  injection H3 as <-. split; [reflexivity|]. intros HNb Hst.
  cbn [set_state AES.state].
  refine (AddRoundKey_Ok_state _ _ _ _ _ E3).
  apply InvSubBytes_state, InvShiftRows_state.
  unfold forM_range in E2.
  apply (forM_preserves (Decipher_round this)
           (fun s => is_state (fst s) = true) _ _
           (st1, AES.Nr this * AES.Nb this - 4) (st2, index)
           (fun i s1 s2 => Decipher_round_state this i s1 s2 HNb)
           (AddRoundKey_Ok_state _ _ _ _ Hst E1) E2).
Qed.

(** X15.  When [Cipher] or [Decipher] returns, the object differs from
    the one it was called on in its state only: sizes, key, schedule and
    round constants are the same; and with [Nb] = 4 a state that was a 4x4
    grid of bytes is again one. *)
Theorem Cipher_Decipher_change_state_only (this r : AES.t) :
  Cipher this = Ok r \/ Decipher this = Ok r ->
  AES.Nb r = AES.Nb this /\ AES.Nk r = AES.Nk this /\ AES.Nr r = AES.Nr this /\
  AES.key r = AES.key this /\ AES.w r = AES.w this /\
  AES.Rcon r = AES.Rcon this /\
  (AES.Nb this = 4 -> is_state (AES.state this) = true ->
   is_state (AES.state r) = true).
Proof.
  intros [H|H];
    [destruct (Cipher_frame this r H) as [E Hs]
    |destruct (Decipher_frame this r H) as [E Hs]];
    (repeat split; [rewrite E; reflexivity .. | exact Hs]).
Qed.

Lemma Cipher_Decipher_change_state_only_witness :
  exists r,
    Cipher (AES.mk 4 4 1 blank [1] (repeat 7 8) [2]) = Ok r /\
    AES.key r = [1] /\ AES.w r = repeat 7 8 /\ AES.Rcon r = [2] /\
    is_state (AES.state r) = true.
Proof.
  assert (E : {r | Cipher (AES.mk 4 4 1 blank [1] (repeat 7 8) [2]) = Ok r})
    by (eexists; vm_compute; reflexivity).
  destruct E as [r E]. exists r. split; [exact E|].
  destruct (Cipher_Decipher_change_state_only _ r (or_introl E))
    as (_ & _ & _ & Hk & Hw & Hr & Hs).
  repeat split; [exact Hk | exact Hw | exact Hr | apply Hs; reflexivity].
Defined.

(** X16.  Under one schedule [Cipher] is injective on blocks: two states
    that are 4x4 grids of bytes and are enciphered to the same state are
    the same state. *)
Theorem Cipher_injective (this : AES.t) (s1 s2 : State) (c1 c2 : AES.t) :
  AES.Nb this = 4 -> 1 <= AES.Nr this ->
  4 * (AES.Nr this + 1) <= Z.of_nat (List.length (AES.w this)) ->
  is_state s1 = true -> is_state s2 = true ->
  Cipher (set_state this s1) = Ok c1 ->
  Cipher (set_state this s2) = Ok c2 ->
  AES.state c1 = AES.state c2 -> s1 = s2.
Proof.
  intros HNb HNr Hw H1 H2 E1 E2 E.
  destruct (Decipher_Cipher (set_state this s1) HNb HNr Hw H1) as (x1 & F1 & D1).
  destruct (Decipher_Cipher (set_state this s2) HNb HNr Hw H2) as (x2 & F2 & D2).
  rewrite E1 in F1. injection F1 as <-. rewrite E2 in F2. injection F2 as <-.
  destruct (Cipher_frame _ _ E1) as [G1 _].
  destruct (Cipher_frame _ _ E2) as [G2 _].
  assert (Ec : c1 = c2).
  { rewrite G1, G2, E. reflexivity. }
  rewrite Ec, D2 in D1. injection D1 as D1. symmetry. exact D1.
Qed.

Lemma Cipher_injective_witness :
  blank = blank.
Proof.
  assert (E : {c | Cipher (set_state (AES.mk 4 4 1 blank [] (repeat 7 8) []) blank)
                   = Ok c})
    by (eexists; vm_compute; reflexivity).
  destruct E as [c E].
  apply (Cipher_injective (AES.mk 4 4 1 blank [] (repeat 7 8) []) blank blank c c);
    [reflexivity | cbn; lia | cbn; lia | reflexivity | reflexivity
    | exact E | exact E | reflexivity].
Defined.

(* ================================================================== *)
(** * Further properties: key expansion on sizes that do not fit *)

Lemma key_word_cases key i (w : list Z) :
  (k0 <- at_ key (4 * i) ;;
   k1 <- at_ key (4 * i + 1) ;;
   k2 <- at_ key (4 * i + 2) ;;
   k3 <- at_ key (4 * i + 3) ;;
   Ok (w ++ [pack_word k0 k1 k2 k3])) = Throw out_of_range \/
  exists w',
  (k0 <- at_ key (4 * i) ;;
   k1 <- at_ key (4 * i + 1) ;;
   k2 <- at_ key (4 * i + 2) ;;
   k3 <- at_ key (4 * i + 3) ;;
   Ok (w ++ [pack_word k0 k1 k2 k3])) = Ok w'.
Proof.
  destruct (at_cases key (4 * i)) as [E|(x0 & E)]; rewrite E; cbn [bind];
    [left; reflexivity|].
  destruct (at_cases key (4 * i + 1)) as [E1|(x1 & E1)]; rewrite E1; cbn [bind];
    [left; reflexivity|].
  destruct (at_cases key (4 * i + 2)) as [E2|(x2 & E2)]; rewrite E2; cbn [bind];
    [left; reflexivity|].
  destruct (at_cases key (4 * i + 3)) as [E3|(x3 & E3)]; rewrite E3; cbn [bind];
    [left; reflexivity|].
  right. eexists. reflexivity.
Qed.

Lemma key_word_throws key i (w : list Z) :
  Z.of_nat (List.length key) <= 4 * i + 3 ->
  (k0 <- at_ key (4 * i) ;;
   k1 <- at_ key (4 * i + 1) ;;
   k2 <- at_ key (4 * i + 2) ;;
   k3 <- at_ key (4 * i + 3) ;;
   Ok (w ++ [pack_word k0 k1 k2 k3])) = Throw out_of_range.
Proof.
  intros H.
  destruct (at_cases key (4 * i)) as [E|(x0 & E)]; rewrite E; cbn [bind];
    [reflexivity|].
  destruct (at_cases key (4 * i + 1)) as [E1|(x1 & E1)]; rewrite E1; cbn [bind];
    [reflexivity|].
  destruct (at_cases key (4 * i + 2)) as [E2|(x2 & E2)]; rewrite E2; cbn [bind];
    [reflexivity|].
  rewrite at_out_of_range by lia. reflexivity.
Qed.

Lemma KeyExpansion_short_key this key w Nk :
  0 < Nk -> Z.of_nat (List.length key) < 4 * Nk ->
  KeyExpansion this key w Nk = Throw out_of_range.
Proof.
  intros HNk Hkey. unfold KeyExpansion, forM_range. rewrite !Z.div_1_r.
  rewrite (forM_throws _ out_of_range); [reflexivity | |].
  - intros i s' _. apply key_word_cases.
  - exists (Z.of_nat (List.length key) / 4). split.
    + split; [apply Z.div_pos; lia|].
      assert (Z.of_nat (List.length key) / 4 < Nk)
        by (apply Z.div_lt_upper_bound; lia).
      lia.
    + intros s'. apply key_word_throws.
      pose proof (Z.mod_pos_bound (Z.of_nat (List.length key)) 4 ltac:(lia)).
      pose proof (Z.div_mod (Z.of_nat (List.length key)) 4 ltac:(lia)).
      lia.
Qed.

Lemma KeyExpansion_no_words this key w Nk :
  Nk <= 0 -> Nk < AES.Nb this * (AES.Nr this + 1) ->
  KeyExpansion this key w Nk = Throw out_of_range.
Proof.
  intros HNk Htot. unfold KeyExpansion, forM_range. rewrite !Z.div_1_r.
  replace (Z.to_nat (Nk - 0 + 1 - 1)) with 0%nat by lia.
  cbn [forM bind].
  destruct (Z.to_nat (AES.Nb this * (AES.Nr this + 1) - Nk + 1 - 1)) as [|n] eqn:E;
    [lia|].
  cbn [forM]. rewrite at_out_of_range by lia. reflexivity.
Qed.

(** X17.  Where the [int] arithmetic of [KeyExpansion] stays in range, it
    raises [std::out_of_range], whatever the schedule it is given to start
    from, when [key] has fewer than [4 * Nk] bytes, and, with [Nb] = 4, when
    [Nk] is not positive while words are asked for; in the second case the
    read of [w.at(i - 1)] fails before [i % Nk] is evaluated, so a zero
    [Nk] does not come to a division by zero. *)
Theorem KeyExpansion_out_of_range (this : AES.t) (key w : list Z) (Nk : Z) :
  (0 < Nk /\ 4 * Nk <= 2147483647 /\ Z.of_nat (List.length key) < 4 * Nk) \/
  (-2147483648 < Nk <= 0 /\ AES.Nb this = 4 /\
   -2147483648 <= AES.Nr this + 1 /\ 4 * (AES.Nr this + 1) <= 2147483647 /\
   Nk < 4 * (AES.Nr this + 1)) ->
  KeyExpansion this key w Nk = Throw out_of_range.
Proof.
  intros [(H1 & _ & H2) | (H1 & HNb & _ & _ & H2)].
  - apply KeyExpansion_short_key; assumption.
  - apply KeyExpansion_no_words; [lia | rewrite HNb; exact H2].
Qed.

Lemma KeyExpansion_out_of_range_witness :
  KeyExpansion (AES.mk 4 4 10 blank [] [] []) (repeat 0 15) [] 4
    = Throw out_of_range /\
  KeyExpansion (AES.mk 4 0 10 blank [] [] []) (repeat 0 16) [5] 0
    = Throw out_of_range.
Proof.
  split.
  - apply (KeyExpansion_out_of_range (AES.mk 4 4 10 blank [] [] [])).
    left. cbn. lia.
  - apply (KeyExpansion_out_of_range (AES.mk 4 0 10 blank [] [] [])).
    right. cbn. lia.
Defined.

Lemma initRcon_eq this Nr :
  initRcon this Nr = set_Rcon this (AES.Rcon this ++ round_constants Nr).
Proof.
  pose proof (initRcon_Rcon this Nr) as HR.
  destruct (initRcon_fields this Nr) as (H1 & H2 & H3 & H4 & H5 & H6).
  unfold round_constants.
  destruct (initRcon this Nr) as [nb nk nr st k ws rc]. cbn in *.
  subst. reflexivity.
Qed.

(** X18.  [initRcon] changes nothing of the object but [Rcon], and only
    appends to it: the words that were there stay in front, [Nr] words are
    added (none for [Nr] below 1), and every added word has its three low
    bytes zero. *)
Theorem initRcon_appends (this : AES.t) (Nr : Z) :
  exists added,
    initRcon this Nr = set_Rcon this (AES.Rcon this ++ added) /\
    List.length added = Z.to_nat Nr /\
    Forall (fun r => is_word r = true /\ Z.land r 16777215 = 0) added.
Proof.
  exists (round_constants Nr). split; [apply initRcon_eq|]. split.
  - unfold round_constants. rewrite length_map, length_seq. reflexivity.
  - apply Forall_forall. intros r Hr. apply in_map_iff in Hr.
    destruct Hr as (k & <- & _).
    assert (Hb : is_byte (x_pow_mod k) = true)
      by (rewrite x_pow_mod_iter; apply iter_xtime_byte).
    apply is_byte_iff in Hb. split.
    + apply is_word_iff. rewrite Z.shiftl_mul_pow2 by lia.
      change (2 ^ 24) with 16777216. lia.
    + change 16777215 with (Z.ones 24). rewrite Z.land_ones by lia.
      rewrite Z.shiftl_mul_pow2 by lia. apply Z.mod_mul. lia.
Qed.

(* ================================================================== *)
(** * Further properties: what [initState] accepts *)

Lemma hex_value_range c d : hex_value c = Some d -> 0 <= d < 16.
Proof.
  unfold hex_value.
  destruct (Z.leb_spec 48 (code c)), (Z.leb_spec (code c) 57); cbn [andb];
    [intros [= <-]; lia | | |];
    (destruct (Z.leb_spec 97 (code c)), (Z.leb_spec (code c) 102); cbn [andb];
     [intros [= <-]; lia | | |];
     (destruct (Z.leb_spec 65 (code c)), (Z.leb_spec (code c) 70); cbn [andb];
      [intros [= <-]; lia | discriminate ..])).
Qed.

Lemma is_hex_digit c : is_hex c = true -> hex_value c = Some (digit c).
Proof.
  unfold is_hex, digit. destruct (hex_value c); [reflexivity | discriminate].
Qed.

Lemma not_hex_digit c : is_hex c = false -> hex_value c = None.
Proof.
  unfold is_hex. destruct (hex_value c); [discriminate | reflexivity].
Qed.

Lemma digit_range c : 0 <= digit c < 16.
Proof.
  unfold digit. destruct (hex_value c) eqn:E; [|lia].
  apply (hex_value_range c), E.
Qed.

(** A digit is neither white space nor a sign; white space is no sign. *)
Lemma hex_not_space c :
  is_hex c = true -> isspace c = false /\ is_sign c = false.
Proof.
  intros H.
  assert (E : (if is_hex c then negb (isspace c) && negb (is_sign c) else true)
              = true).
  { clear. revert c. apply char_enum. vm_compute. reflexivity. }
  rewrite H in E. apply andb_true_iff in E. destruct E as [E1 E2].
  split; apply negb_true_iff; assumption.
Qed.

Lemma space_not_sign c :
  isspace c = true -> (code c =? 45) = false /\ (code c =? 43) = false.
Proof.
  unfold isspace. intros H. apply orb_true_iff in H.
  destruct H as [H|H]; [apply Z.eqb_eq in H | apply andb_true_iff in H;
    destruct H as [H1 H2]; apply Z.leb_le in H1; apply Z.leb_le in H2];
    split; apply Z.eqb_neq; lia.
Qed.

Lemma in_int (v : Z) :
  -2147483648 <= v <= 2147483647 ->
  (-2147483648 <=? v) && (v <=? 2147483647) = true.
Proof. intros H. apply andb_true_iff. split; apply Z.leb_le; lia. Qed.

(** [stoi] on the empty text, on one character and on two. *)
Lemma stoi_empty : stoi EmptyString = Throw invalid_argument.
Proof. reflexivity. Qed.

Lemma stoi_space c s : isspace c = true -> stoi (String c s) = stoi s.
Proof. intros H. unfold stoi. cbn [skip_space]. rewrite H. reflexivity. Qed.

Lemma stoi_one c :
  stoi (String c EmptyString) =
  if is_hex c then Ok (digit c) else Throw invalid_argument.
Proof.
  destruct (isspace c) eqn:Hsp.
  { rewrite stoi_space, stoi_empty by exact Hsp.
    destruct (is_hex c) eqn:Hh; [|reflexivity].
    apply hex_not_space in Hh. destruct Hh as [Hh _]. congruence. }
  unfold stoi. cbn [skip_space]. rewrite Hsp.
  destruct (code c =? 45) eqn:Hm.
  { cbn. destruct (is_hex c) eqn:Hh; [|reflexivity].
    apply hex_not_space in Hh. destruct Hh as [_ Hh]. unfold is_sign in Hh.
    rewrite Hm, orb_true_r in Hh. discriminate Hh. }
  destruct (code c =? 43) eqn:Hp.
  { cbn. destruct (is_hex c) eqn:Hh; [|reflexivity].
    apply hex_not_space in Hh. destruct Hh as [_ Hh]. unfold is_sign in Hh.
    rewrite Hp in Hh. discriminate Hh. }
  cbn [strip_0x starts_with_hex].
  destruct (is_hex c) eqn:Hh; [|reflexivity].
  cbn [hex_digits]. rewrite (is_hex_digit c Hh).
  rewrite in_int by (pose proof (digit_range c); lia).
  f_equal.
Qed.

Lemma stoi_two c1 c2 :
  stoi (String c1 (String c2 EmptyString)) =
  if is_hex c1
  then Ok (if is_hex c2 then 16 * digit c1 + digit c2 else digit c1)
  else if (isspace c1 || is_sign c1) && is_hex c2
       then Ok (if code c1 =? 45 then - digit c2 else digit c2)
       else Throw invalid_argument.
Proof.
  destruct (isspace c1) eqn:Hsp.
  { rewrite stoi_space, stoi_one by exact Hsp.
    destruct (is_hex c1) eqn:Hh;
      [apply hex_not_space in Hh; destruct Hh as [Hh _]; congruence|].
    destruct (space_not_sign c1 Hsp) as [Hm _]. rewrite Hm.
    cbn [orb andb]. reflexivity. }
  unfold stoi. cbn [skip_space]. rewrite Hsp. unfold is_sign.
  destruct (code c1 =? 45) eqn:Hm.
  { destruct (is_hex c1) eqn:Hh.
    { apply hex_not_space in Hh. destruct Hh as [_ Hh]. unfold is_sign in Hh.
      rewrite Hm, orb_true_r in Hh. discriminate Hh. }
    rewrite orb_true_r. cbn [orb andb strip_0x starts_with_hex].
    destruct (is_hex c2) eqn:Hh2; [|reflexivity].
    cbn [hex_digits]. rewrite (is_hex_digit c2 Hh2).
    rewrite in_int by (pose proof (digit_range c2); lia).
    f_equal. }
  destruct (code c1 =? 43) eqn:Hp.
  { destruct (is_hex c1) eqn:Hh.
    { apply hex_not_space in Hh. destruct Hh as [_ Hh]. unfold is_sign in Hh.
      rewrite Hp in Hh. discriminate Hh. }
    cbn [orb andb strip_0x starts_with_hex].
    destruct (is_hex c2) eqn:Hh2; [|reflexivity].
    cbn [hex_digits]. rewrite (is_hex_digit c2 Hh2).
    rewrite in_int by (pose proof (digit_range c2); lia).
    f_equal. }
  cbn [orb andb strip_0x starts_with_hex]. rewrite andb_false_r.
  cbn [starts_with_hex].
  destruct (is_hex c1) eqn:Hh; [|reflexivity].
  cbn [hex_digits]. rewrite (is_hex_digit c1 Hh).
  pose proof (digit_range c1). pose proof (digit_range c2).
  destruct (is_hex c2) eqn:Hh2.
  - rewrite (is_hex_digit c2 Hh2). rewrite in_int by lia. f_equal. lia.
  - rewrite (not_hex_digit c2 Hh2). rewrite in_int by lia. f_equal.
Qed.

Lemma substring_get s : forall i,
  substring i 2 s =
  match String.get i s, String.get (S i) s with
  | Some c1, Some c2 => String c1 (String c2 EmptyString)
  | Some c1, None => String c1 EmptyString
  | None, _ => EmptyString
  end.
Proof.
  induction s as [|c s IH]; intros i.
  - destruct i; reflexivity.
  - destruct i as [|i].
    + cbn [substring String.get]. destruct s as [|c2 s]; cbn [substring String.get].
      * reflexivity.
      * rewrite substring_0_0. reflexivity.
    + cbn [substring String.get]. apply IH.
Qed.

(** What [stoi] makes of the text at position [i]. *)
Lemma stoi_chunk s i :
  stoi (substring i 2 s) =
  if chunk_ok s i then Ok (chunk_int s i) else Throw invalid_argument.
Proof.
  rewrite substring_get. unfold chunk_ok, chunk_int.
  destruct (String.get i s) as [c1|]; [|reflexivity].
  destruct (String.get (S i) s) as [c2|].
  - rewrite stoi_two. destruct (is_hex c1); reflexivity.
  - rewrite stoi_one, orb_false_r. reflexivity.
Qed.

(* ================================================================== *)
(** * Further properties: the outcome of [initState] *)

(** The parsing loop of [initState], from step [a] on. *)
Lemma parse_outcome s n : forall a acc,
  forM n (Z.of_nat (2 * a)) 2
    (fun i bytes => n <- stoi (substr2 s i) ;;
                    let byte := u8 n in Ok (bytes ++ [byte])) acc =
  if forallb (fun k => chunk_ok s (2 * k)) (seq a n)
  then Ok (acc ++ map (fun k => u8 (chunk_int s (2 * k))) (seq a n))
  else Throw invalid_argument.
Proof.
  induction n as [|n IH]; intros a acc.
  - cbn. rewrite app_nil_r. reflexivity.
  - cbn [forM seq forallb map]. unfold substr2 at 1.
    rewrite Nat2Z.id, stoi_chunk.
    destruct (chunk_ok s (2 * a)); cbn [bind andb]; [|reflexivity].
    replace (Z.of_nat (2 * a) + 2) with (Z.of_nat (2 * S a)) by lia.
    rewrite IH. rewrite <- app_assoc. reflexivity.
Qed.

(** The same loop in [initKey]. *)
Lemma parse_key_outcome s n : forall a this,
  forM n (Z.of_nat (2 * a)) 2
    (fun i this => n <- stoi (substr2 s i) ;;
                   let byte := u8 n in
                   Ok (set_key this (AES.key this ++ [byte]))) this =
  if forallb (fun k => chunk_ok s (2 * k)) (seq a n)
  then Ok (set_key this
             (AES.key this ++ map (fun k => u8 (chunk_int s (2 * k))) (seq a n)))
  else Throw invalid_argument.
Proof.
  induction n as [|n IH]; intros a this.
  - cbn. rewrite app_nil_r. destruct this; reflexivity.
  - cbn [forM seq forallb map]. unfold substr2 at 1.
    rewrite Nat2Z.id, stoi_chunk.
    destruct (chunk_ok s (2 * a)); cbn [bind andb]; [|reflexivity].
    replace (Z.of_nat (2 * a) + 2) with (Z.of_nat (2 * S a)) by lia.
    rewrite IH. cbn [set_key AES.key AES.Nb AES.Nk AES.Nr AES.state AES.w AES.Rcon].
    rewrite <- app_assoc. reflexivity.
Qed.

Lemma chunk_count_eq s :
  Z.to_nat ((Z.of_nat (String.length s) - 0 + 2 - 1) / 2) = chunk_count s.
Proof.
  unfold chunk_count. apply Nat2Z.inj. rewrite Z2Nat.id by (apply Z.div_pos; lia).
  rewrite Nat2Z.inj_div. f_equal. lia.
Qed.

Lemma length_parsed s : List.length (parsed s) = chunk_count s.
Proof. unfold parsed. rewrite length_map, length_seq. reflexivity. Qed.

Lemma chunk_count_16 s :
  (16 <= chunk_count s)%nat <-> (31 <= String.length s)%nat.
Proof.
  unfold chunk_count.
  pose proof (Nat.div_mod_eq (S (String.length s)) 2).
  pose proof (Nat.mod_upper_bound (S (String.length s)) 2 ltac:(lia)).
  lia.
Qed.

(** The loops that fill the state raise when fewer than 16 bytes were
    parsed. *)
Lemma fill_short bytes st :
  Z.of_nat (List.length bytes) < 16 ->
  forM_range 0 4 1 (fun i state =>
    forM_range 0 4 1 (fun j state =>
      b <- at_ bytes (i * 4 + j) ;;
      Ok (put state j i b)) state) st = Throw out_of_range.
Proof.
  intros H. unfold forM_range.
  change (Z.to_nat ((4 - 0 + 1 - 1) / 1)) with 4%nat.
  assert (Hc : forall i j (s' : State),
             (b <- at_ bytes (i * 4 + j) ;; Ok (put s' j i b)) = Throw out_of_range \/
             exists s'', (b <- at_ bytes (i * 4 + j) ;; Ok (put s' j i b)) = Ok s'').
  { intros i j s'. destruct (at_cases bytes (i * 4 + j)) as [E|(x & E)]; rewrite E;
      cbn [bind]; [left | right; eexists]; reflexivity. }
  apply forM_throws.
  - intros i s' _. apply forM_cases. intros j s'' _. apply Hc.
  - exists (Z.of_nat (List.length bytes) / 4). split.
    + split; [apply Z.div_pos; lia|].
      assert (Z.of_nat (List.length bytes) / 4 < 4)
        by (apply Z.div_lt_upper_bound; lia).
      lia.
    + intros s'. apply forM_throws.
      * intros j s'' _. apply Hc.
      * exists (Z.of_nat (List.length bytes) mod 4). split.
        -- pose proof (Z.mod_pos_bound (Z.of_nat (List.length bytes)) 4 ltac:(lia)).
           lia.
        -- intros s''. rewrite at_out_of_range; [reflexivity|].
           right.
           pose proof (Z.div_mod (Z.of_nat (List.length bytes)) 4 ltac:(lia)).
           lia.
Qed.

Lemma initState_cases input st :
  initState input st =
  if accepted input
  then if (String.length input <? 31)%nat then Throw out_of_range
       else Ok (fill_state (parsed input) st)
  else Throw invalid_argument.
Proof.
  unfold initState. unfold forM_range at 1. rewrite chunk_count_eq.
  change 0 with (Z.of_nat (2 * 0)) at 1. rewrite parse_outcome.
  unfold accepted. fold (parsed input). cbn [app].
  destruct (forallb _ _); cbn [bind]; [|reflexivity].
  pose proof (length_parsed input) as HL.
  pose proof (chunk_count_16 input) as H16.
  destruct (Nat.ltb_spec (String.length input) 31).
  - apply fill_short. lia.
  - apply fill_ok. lia.
Qed.

(** X19.  The outcome of [initState] on any text.  It goes through the
    text two characters at a time, the last step taking one character when
    the length is odd.  When a step finds no number - its text starts with
    neither a hexadecimal digit, nor a sign or white space followed by
    one - [std::invalid_argument] is raised, wherever in the text that
    is.  Otherwise, with fewer than 31 characters, the empty text included,
    [std::out_of_range] is raised; with 31 or more the state is filled
    column by column from the first 16 of the parsed bytes.  A character
    that is no digit is therefore accepted after a digit, and a chunk [-d]
    gives the byte [- d] modulo 256. *)
Theorem initState_outcome (input : string) (st : State) :
  initState input st =
  if accepted input
  then if (String.length input <? 31)%nat then Throw out_of_range
       else Ok (fill_state (parsed input) st)
  else Throw invalid_argument.
Proof. apply initState_cases. Qed.

(* ================================================================== *)
(** * Further properties: [printState] and [initState] *)

Lemma hex_char_digit d :
  0 <= d < 16 -> is_hex (hex_char d) = true /\ digit (hex_char d) = d.
Proof.
  intros H. replace d with (Z.of_nat (Z.to_nat d)) by lia.
  assert (Hn : (Z.to_nat d < 16)%nat) by lia.
  generalize dependent (Z.to_nat d). intros n Hn.
  do 16 (destruct n as [|n]; [split; reflexivity|]). lia.
Qed.

Lemma hex_of_bytes_cons b l :
  hex_of_bytes (b :: l) =
  String (hex_char (b / 16)) (String (hex_char (b mod 16)) (hex_of_bytes l)).
Proof. reflexivity. Qed.

Lemma get_hex_of_bytes l : forall k,
  (k < List.length l)%nat ->
  String.get (2 * k) (hex_of_bytes l) = Some (hex_char (nth k l 0 / 16)) /\
  String.get (S (2 * k)) (hex_of_bytes l) = Some (hex_char (nth k l 0 mod 16)).
Proof.
  induction l as [|b l IH]; intros k Hk; [cbn in Hk; lia|].
  destruct k as [|k].
  - split; reflexivity.
  - replace (2 * S k)%nat with (S (S (2 * k))) by lia.
    rewrite hex_of_bytes_cons. cbn [String.get nth].
    apply IH. cbn in Hk. lia.
Qed.

Lemma chunk_hex_of_bytes l k :
  (k < List.length l)%nat -> is_byte (nth k l 0) = true ->
  chunk_ok (hex_of_bytes l) (2 * k) = true /\
  chunk_int (hex_of_bytes l) (2 * k) = nth k l 0.
Proof.
  intros Hk Hb. destruct (get_hex_of_bytes l k Hk) as [E1 E2].
  unfold chunk_ok, chunk_int. rewrite E1, E2.
  apply is_byte_iff in Hb.
  destruct (hex_char_digit (nth k l 0 / 16)) as [H1 D1];
    [split; [apply Z.div_pos; lia | apply Z.div_lt_upper_bound; lia]|].
  destruct (hex_char_digit (nth k l 0 mod 16)) as [H2 D2];
    [apply Z.mod_pos_bound; lia|].
  rewrite H1, H2, D1, D2. split; [reflexivity|].
  symmetry. apply Z.div_mod. lia.
Qed.

Lemma length_hex_of_bytes l :
  String.length (hex_of_bytes l) = (2 * List.length l)%nat.
Proof.
  induction l as [|b l IH]; [reflexivity|].
  rewrite hex_of_bytes_cons. cbn [String.length List.length].
  rewrite IH. lia.
Qed.

Lemma chunk_count_hex_of_bytes l : chunk_count (hex_of_bytes l) = List.length l.
Proof.
  unfold chunk_count. rewrite length_hex_of_bytes.
  symmetry. apply (Nat.div_unique _ 2 _ 1); lia.
Qed.

Lemma accepted_hex_of_bytes l :
  forallb is_byte l = true -> accepted (hex_of_bytes l) = true.
Proof.
  intros Hl. unfold accepted. rewrite chunk_count_hex_of_bytes.
  apply forallb_forall. intros k Hk. apply in_seq in Hk.
  apply chunk_hex_of_bytes; [lia|].
  rewrite forallb_forall in Hl. apply Hl, nth_In. lia.
Qed.

Lemma parsed_hex_of_bytes l :
  forallb is_byte l = true -> parsed (hex_of_bytes l) = l.
Proof.
  intros Hl. unfold parsed. rewrite chunk_count_hex_of_bytes.
  apply (nth_ext _ _ 0 0); [rewrite length_map, length_seq; reflexivity|].
  intros n Hn. rewrite length_map, length_seq in Hn.
  rewrite (nth_indep _ 0 (u8 (chunk_int (hex_of_bytes l) (2 * 0))))
    by (rewrite length_map, length_seq; exact Hn).
  rewrite (map_nth (fun k => u8 (chunk_int (hex_of_bytes l) (2 * k)))).
  rewrite seq_nth by exact Hn. cbn [Nat.add].
  assert (Hb : is_byte (nth n l 0) = true)
    by (rewrite forallb_forall in Hl; apply Hl, nth_In; exact Hn).
  destruct (chunk_hex_of_bytes l n Hn Hb) as [_ E]. rewrite E.
  apply u8_small, Hb.
Qed.

(** [initState] reads back bytes that were written as two digits each. *)
Lemma initState_hex_of_bytes l st :
  forallb is_byte l = true -> (16 <= List.length l)%nat ->
  initState (hex_of_bytes l) st = Ok (fill_state l st).
Proof.
  intros Hl Hlen. rewrite initState_cases.
  rewrite accepted_hex_of_bytes, parsed_hex_of_bytes by exact Hl.
  rewrite length_hex_of_bytes.
  destruct (Nat.ltb_spec (2 * List.length l) 31); [lia | reflexivity].
Qed.

Lemma printState_cells this :
  printState this = hex_of_bytes (cells (AES.state this)).
Proof.
  unfold printState, cells, hex_of_bytes, for_range.
  cbv -[get hex_char Z.div Z.modulo]. reflexivity.
Qed.

Lemma cells_bytes st :
  is_state st = true -> forallb is_byte (cells st) = true.
Proof.
  intros H. as_grid st H. cbv -[is_byte andb].
  repeat match goal with Hb : is_byte _ = true |- _ => rewrite Hb; clear Hb end.
  reflexivity.
Qed.

Lemma fill_cells st st0 :
  is_state st = true -> is_state st0 = true -> fill_state (cells st) st0 = st.
Proof.
  intros H H0. as_grid st H. as_grid st0 H0. reflexivity.
Qed.

Lemma is_hex_hex_of_bytes l :
  forallb is_byte l = true -> is_hex_string (hex_of_bytes l) = true.
Proof.
  induction l as [|b l IH]; intros Hl; [reflexivity|].
  cbn [forallb] in Hl. apply andb_true_iff in Hl. destruct Hl as [Hb Hl].
  rewrite hex_of_bytes_cons, !is_hex_string_cons. apply is_byte_iff in Hb.
  destruct (hex_char_digit (b / 16)) as [H1 _];
    [split; [apply Z.div_pos; lia | apply Z.div_lt_upper_bound; lia]|].
  destruct (hex_char_digit (b mod 16)) as [H2 _];
    [apply Z.mod_pos_bound; lia|].
  rewrite H1, H2, IH by exact Hl. reflexivity.
Qed.

Lemma initState_printState_state this st0 :
  is_state (AES.state this) = true -> is_state st0 = true ->
  initState (printState this) st0 = Ok (AES.state this).
Proof.
  intros H H0. rewrite printState_cells.
  rewrite initState_hex_of_bytes by (apply cells_bytes, H || reflexivity).
  rewrite fill_cells by assumption. reflexivity.
Qed.

(** X20.  What [printState] writes for a state of 4x4 bytes is 32
    hexadecimal digits, and [initState] reads the same state back from
    them, whatever bytes the state array held before. *)
Theorem initState_printState (this : AES.t) (st0 : State) :
  is_state (AES.state this) = true -> is_state st0 = true ->
  String.length (printState this) = 32%nat /\
  is_hex_string (printState this) = true /\
  initState (printState this) st0 = Ok (AES.state this).
Proof.
  intros H H0. split; [|split].
  - rewrite printState_cells, length_hex_of_bytes. reflexivity.
  - rewrite printState_cells. apply is_hex_hex_of_bytes, cells_bytes, H.
  - apply initState_printState_state; assumption.
Qed.

Lemma initState_printState_witness :
  initState (printState (AES.mk 4 4 10 (grid 0 1 2 3 4 5 6 7 8 9 10 11 12 13 14 255)
                                [] [] [])) blank
  = Ok (grid 0 1 2 3 4 5 6 7 8 9 10 11 12 13 14 255).
Proof.
  apply (initState_printState
           (AES.mk 4 4 10 (grid 0 1 2 3 4 5 6 7 8 9 10 11 12 13 14 255) [] [] [])
           blank); reflexivity.
Defined.

(* ================================================================== *)
(** * Further properties: the outcome of the constructor *)

Lemma parse_key_all s this :
  parse_key s this =
  if accepted s then Ok (set_key this (AES.key this ++ parsed s))
  else Throw invalid_argument.
Proof.
  unfold parse_key, forM_range. rewrite chunk_count_eq.
  exact (parse_key_outcome s (chunk_count s) 0%nat this).
Qed.

Lemma initKey_valid key encrypt this nk :
  Z.of_nat (String.length key) / 2 = 4 * nk ->
  nk = 4 \/ nk = 6 \/ nk = 8 ->
  snd (initKey key encrypt this) =
  if accepted key
  then Ok (set_key (set_sizes this nk (nk + 6)) (AES.key this ++ parsed key))
  else Throw invalid_argument.
Proof.
  intros E Hnk. unfold initKey. rewrite E.
  destruct Hnk as [-> | [-> | ->]].
  - change (4 * 4 * 8 =? 128) with true. cbv iota. cbn [snd]. rewrite parse_key_all. reflexivity.
  - change (4 * 6 * 8 =? 128) with false. change (4 * 6 * 8 =? 192) with true.
    cbv iota. cbn [snd]. rewrite parse_key_all. reflexivity.
  - change (4 * 8 * 8 =? 128) with false. change (4 * 8 * 8 =? 192) with false.
    change (4 * 8 * 8 =? 256) with true. cbv iota. cbn [snd]. rewrite parse_key_all. reflexivity.
Qed.

Lemma KeyExpansion_set_state this st key w Nk :
  KeyExpansion (set_state this st) key w Nk =
  (x <- KeyExpansion this key w Nk ;; Ok (set_state x st)).
Proof.
  unfold KeyExpansion. cbn [set_state AES.Nb AES.Nr AES.Rcon].
  destruct (forM_range 0 Nk 1 _ w) as [w1|e]; cbn [bind]; [|reflexivity].
  destruct (forM_range Nk _ 1 _ w1) as [w2|e]; cbn [bind]; reflexivity.
Qed.

Lemma length_parsed_key key nk :
  Z.of_nat (String.length key) / 2 = 4 * nk ->
  4 * nk <= Z.of_nat (List.length (parsed key)).
Proof.
  intros E. rewrite length_parsed. unfold chunk_count.
  rewrite Nat2Z.inj_div. rewrite <- E.
  apply Z.div_le_mono; lia.
Qed.

Lemma parsed_bytes s : forallb is_byte (parsed s) = true.
Proof.
  unfold parsed. apply forallb_forall. intros x Hx.
  apply in_map_iff in Hx. destruct Hx as (k & <- & _). apply u8_byte.
Qed.

(** The constructor as a function of its two texts, for a key of a length
    that [initKey] knows. *)
Lemma AES_ctor_cases Nk0 Nr0 input key encrypt nk :
  Z.of_nat (String.length key) / 2 = 4 * nk ->
  nk = 4 \/ nk = 6 \/ nk = 8 ->
  snd (AES_ctor Nk0 Nr0 input key encrypt) =
  if accepted input
  then if (String.length input <? 31)%nat then Throw out_of_range
       else if accepted key
            then x <- KeyExpansion
                        (AES.mk 4 nk (nk + 6) blank (parsed key) []
                                (round_constants (nk + 6)))
                        (parsed key) [] nk ;;
                 Ok (set_state x (fill_state (parsed input) blank))
            else Throw invalid_argument
  else Throw invalid_argument.
Proof.
  intros E Hnk. unfold AES_ctor. cbn [AES.state].
  rewrite initState_cases.
  destruct (accepted input); [|reflexivity].
  destruct (String.length input <? 31)%nat; [reflexivity|].
  pose proof (initKey_valid key encrypt
    (set_state (AES.mk 4 Nk0 Nr0 blank [] [] []) (fill_state (parsed input) blank))
    nk E Hnk) as HK.
  destruct (initKey key encrypt _) as [out r]. cbn [snd] in HK. subst r.
  destruct (accepted key); [|reflexivity].
  cbn [snd]. rewrite initRcon_eq.
  cbn [set_Rcon set_key set_sizes set_state AES.Nb AES.Nk AES.Nr AES.state
       AES.key AES.w AES.Rcon app].
  exact (KeyExpansion_set_state
           (AES.mk 4 nk (nk + 6) blank (parsed key) [] (round_constants (nk + 6)))
           (fill_state (parsed input) blank) (parsed key) [] nk).
Qed.

Lemma KeyExpansion_valid key nk this :
  nk = 4 \/ nk = 6 \/ nk = 8 ->
  4 * nk <= Z.of_nat (List.length key) ->
  AES.Nb this = 4 -> AES.Nr this = nk + 6 ->
  AES.Rcon this = round_constants (nk + 6) ->
  exists w,
    KeyExpansion this key [] nk = Ok (set_w this w) /\
    schedule_prefix (round_constants (nk + 6)) key nk (4 * (nk + 7)) w.
Proof.
  intros Hnk Hlen HNb HNr HR.
  destruct (KeyExpansion_schedule this key nk) as (w & E & Hs).
  - lia.
  - rewrite HNb, HNr. lia.
  - exact Hlen.
  - rewrite HNb, HNr, HR. unfold round_constants.
    rewrite length_map, length_seq.
    destruct Hnk as [-> | [-> | ->]]; vm_compute; reflexivity.
  - exists w. split; [exact E|].
    rewrite HNb, HNr, HR in Hs.
    replace (4 * (nk + 6 + 1)) with (4 * (nk + 7)) in Hs by lia. exact Hs.
Qed.

(** X21.  The outcome of the constructor for a key text of 16, 24 or 32
    bytes ([nk] = 4, 6 or 8 words), whatever the storage held.  The block
    text is judged first, as [initState] judges it: [std::invalid_argument]
    for a step without a number, [std::out_of_range] for fewer than 31
    characters.  Then a step without a number in the key text raises
    [std::invalid_argument].  Otherwise the object is built: [Nb] = 4,
    [Nk] = [nk], [Nr] = [nk + 6], the state filled from the block text, the
    key bytes parsed from the key text, [Nr] round constants, and a
    schedule of [4 * (Nr + 1)] words that is the expansion of the key. *)
Theorem AES_ctor_outcome
    (Nk0 Nr0 : Z) (input key : string) (encrypt : bool) (nk : Z) :
  Z.of_nat (String.length key) / 2 = 4 * nk ->
  nk = 4 \/ nk = 6 \/ nk = 8 ->
  if accepted input
  then if (String.length input <? 31)%nat
       then snd (AES_ctor Nk0 Nr0 input key encrypt) = Throw out_of_range
       else if accepted key
            then exists w,
                   snd (AES_ctor Nk0 Nr0 input key encrypt) =
                   Ok (AES.mk 4 nk (nk + 6) (fill_state (parsed input) blank)
                              (parsed key) w (round_constants (nk + 6))) /\
                   schedule_prefix (round_constants (nk + 6)) (parsed key) nk
                                   (4 * (nk + 7)) w
            else snd (AES_ctor Nk0 Nr0 input key encrypt) = Throw invalid_argument
  else snd (AES_ctor Nk0 Nr0 input key encrypt) = Throw invalid_argument.
Proof.
  intros E Hnk. rewrite (AES_ctor_cases Nk0 Nr0 input key encrypt nk E Hnk).
  destruct (accepted input); [|reflexivity].
  destruct (String.length input <? 31)%nat; [reflexivity|].
  destruct (accepted key); [|reflexivity].
  destruct (KeyExpansion_valid (parsed key) nk
              (AES.mk 4 nk (nk + 6) blank (parsed key) [] (round_constants (nk + 6)))
              Hnk (length_parsed_key key nk E) eq_refl eq_refl eq_refl)
    as (w & EK & Hs).
  exists w. rewrite EK. split; [reflexivity | exact Hs].
Qed.

Lemma AES_ctor_outcome_witness :
  snd (AES_ctor 0 0 "0011223344556677" "000102030405060708090a0b0c0d0e0f" true)
    = Throw out_of_range /\
  snd (AES_ctor 0 0 "00112233445566778899aabbccddeeff"
                "000102030405060708090a0b0c0d0eg0" true)
    = Throw invalid_argument /\
  exists w,
    snd (AES_ctor 0 0 "00112233445566778899aabbccddeeff"
                  "000102030405060708090a0b0c0d0e0f" true) =
    Ok (AES.mk 4 4 10
          (fill_state (parsed "00112233445566778899aabbccddeeff") blank)
          (parsed "000102030405060708090a0b0c0d0e0f") w (round_constants 10)) /\
    schedule_prefix (round_constants 10)
      (parsed "000102030405060708090a0b0c0d0e0f") 4 44 w.
Proof.
  split; [|split].
  - exact (AES_ctor_outcome 0 0 "0011223344556677"
             "000102030405060708090a0b0c0d0e0f" true 4 eq_refl (or_introl eq_refl)).
  - exact (AES_ctor_outcome 0 0 "00112233445566778899aabbccddeeff"
             "000102030405060708090a0b0c0d0eg0" true 4 eq_refl (or_introl eq_refl)).
  - exact (AES_ctor_outcome 0 0 "00112233445566778899aabbccddeeff"
             "000102030405060708090a0b0c0d0e0f" true 4 eq_refl (or_introl eq_refl)).
Defined.

(* ================================================================== *)
(** * Further properties: encrypting and decrypting through text *)

Lemma set_state_set_state x st st' :
  set_state (set_state x st) st' = set_state x st'.
Proof. reflexivity. Qed.

Lemma cells_fill_state block :
  List.length block = 16%nat -> cells (fill_state block blank) = block.
Proof.
  intros H.
  do 16 (destruct block as [|? block]; [discriminate H|]).
  destruct block; [reflexivity | discriminate H].
Qed.

Section ThroughText.
Variables (Nk0 Nr0 : Z) (input key : string) (encrypt : bool) (x : AES.t).
Hypothesis Hlen :
Z.of_nat (String.length key) / 2 = 16 \/
Z.of_nat (String.length key) / 2 = 24 \/
Z.of_nat (String.length key) / 2 = 32.
Hypothesis Hx : snd (AES_ctor Nk0 Nr0 input key encrypt) = Ok x.

(** What the constructor returned. *)
Lemma AES_ctor_Ok_inv :
exists nk x0,
  Z.of_nat (String.length key) / 2 = 4 * nk /\
  (nk = 4 \/ nk = 6 \/ nk = 8) /\
  accepted key = true /\
  KeyExpansion (AES.mk 4 nk (nk + 6) blank (parsed key) []
                       (round_constants (nk + 6))) (parsed key) [] nk = Ok x0 /\
  AES.Nb x0 = 4 /\
  x = set_state x0 (fill_state (parsed input) blank) /\
  initState input blank = Ok (fill_state (parsed input) blank).
Proof.
assert (Hnk : exists nk, Z.of_nat (String.length key) / 2 = 4 * nk /\
                         (nk = 4 \/ nk = 6 \/ nk = 8)).
{ destruct Hlen as [E | [E | E]]; [exists 4 | exists 6 | exists 8];
    (split; [rewrite E; reflexivity | tauto]). }
destruct Hnk as (nk & E & Hnk). exists nk.
pose proof Hx as H. rewrite (AES_ctor_cases _ _ _ _ _ nk E Hnk) in H.
pose proof (initState_cases input blank) as HI.
destruct (accepted input); [|discriminate H].
destruct (String.length input <? 31)%nat; [discriminate H|].
destruct (accepted key); [|discriminate H].
destruct (KeyExpansion_valid (parsed key) nk
            (AES.mk 4 nk (nk + 6) blank (parsed key) [] (round_constants (nk + 6)))
            Hnk (length_parsed_key key nk E) eq_refl eq_refl eq_refl)
  as (w & EK & _).
rewrite EK in H. cbn [bind] in H. injection H as H.
eexists. repeat split; [exact E | exact Hnk | exact EK | reflexivity | | exact HI].
symmetry. exact H.
Qed.

Lemma AES_ctor_Ok_state : AES.Nb x = 4 /\ is_state (AES.state x) = true.
Proof.
destruct AES_ctor_Ok_inv as (nk & x0 & _ & _ & _ & _ & HNb & -> & HI).
split; [exact HNb|]. apply (initState_state input), HI.
Qed.

Lemma AES_ctor_again Nk1 Nr1 encrypt' this :
is_state (AES.state this) = true ->
snd (AES_ctor Nk1 Nr1 (printState this) key encrypt') =
Ok (set_state x (AES.state this)).
Proof.
intros Hst.
destruct AES_ctor_Ok_inv as (nk & x0 & E & Hnk & Hk & EK & _ & -> & _).
rewrite (AES_ctor_cases _ _ _ _ _ nk E Hnk).
rewrite printState_cells.
rewrite accepted_hex_of_bytes, parsed_hex_of_bytes by apply cells_bytes, Hst.
rewrite length_hex_of_bytes.
change (2 * List.length (cells (AES.state this)) <? 31)%nat with false.
cbv iota. rewrite Hk, EK. cbn [bind].
rewrite fill_cells by (exact Hst || reflexivity).
reflexivity.
Qed.
End ThroughText.

(** X22.  The way [main.cpp] uses the class, for every block and key
    text: when the constructor has built an object for a key of 16, 24 or
    32 bytes and [Cipher] has run on it, the constructor run on what
    [printState] writes and on the same key text, with either flag, builds
    the very object that [Cipher] left, and [Decipher] brings back the
    object of before.  When the block text was 16 bytes written as two
    lower-case digits each, [printState] then writes that text again. *)
Theorem decrypt_printed_ciphertext
    (Nk0 Nr0 Nk1 Nr1 : Z) (input key : string) (e1 e2 : bool) (x c : AES.t) :
  Z.of_nat (String.length key) / 2 = 16 \/
  Z.of_nat (String.length key) / 2 = 24 \/
  Z.of_nat (String.length key) / 2 = 32 ->
  snd (AES_ctor Nk0 Nr0 input key e1) = Ok x ->
  Cipher x = Ok c ->
  snd (AES_ctor Nk1 Nr1 (printState c) key e2) = Ok c /\
  Decipher c = Ok x /\
  (forall block, forallb is_byte block = true -> List.length block = 16%nat ->
     input = hex_of_bytes block -> printState x = input).
Proof.
  intros Hlen Hx Hc.
  destruct (AES_ctor_Ok_state _ _ _ _ _ _ Hlen Hx) as [HNb Hst].
  destruct (Cipher_frame x c Hc) as [Ec Hsc].
  split; [|split].
  - rewrite (AES_ctor_again _ _ _ _ _ _ Hlen Hx) by (apply Hsc; assumption).
    f_equal. symmetry. exact Ec.
  - destruct (AES_ctor_roundtrip _ _ _ _ _ _ Hlen Hx) as (c' & E1 & E2).
    rewrite Hc in E1. injection E1 as <-. exact E2.
  - intros block Hb Hl ->.
    destruct (AES_ctor_Ok_inv _ _ _ _ _ _ Hlen Hx)
      as (nk & x0 & _ & _ & _ & _ & _ & -> & _).
    rewrite printState_cells. cbn [set_state AES.state].
    rewrite parsed_hex_of_bytes by exact Hb.
    rewrite cells_fill_state by exact Hl. reflexivity.
Qed.

Lemma decrypt_printed_ciphertext_witness :
  exists x c,
    snd (AES_ctor 0 0 "00112233445566778899aabbccddeeff"
                  "000102030405060708090a0b0c0d0e0f" true) = Ok x /\
    Cipher x = Ok c /\
    snd (AES_ctor 7 9 (printState c) "000102030405060708090a0b0c0d0e0f" false)
      = Ok c /\
    Decipher c = Ok x /\
    printState x = "00112233445566778899aabbccddeeff"%string.
Proof.
  assert (E : {p : AES.t * AES.t |
                snd (AES_ctor 0 0 "00112233445566778899aabbccddeeff"
                              "000102030405060708090a0b0c0d0e0f" true) = Ok (fst p) /\
                Cipher (fst p) = Ok (snd p)}).
  { eexists (_, _). split; [vm_compute; reflexivity | vm_compute; reflexivity]. }
  destruct E as [[x c] [Ex Ec]]. cbn [fst snd] in Ex, Ec.
  exists x, c.
  pose proof (decrypt_printed_ciphertext 0 0 7 9 "00112233445566778899aabbccddeeff"
                "000102030405060708090a0b0c0d0e0f" true false x c
                (or_introl eq_refl) Ex Ec) as H.
  destruct H as (H1 & H2 & H3).
  split; [exact Ex|]. split; [exact Ec|]. split; [exact H1|]. split; [exact H2|].
  apply (H3 [0; 17; 34; 51; 68; 85; 102; 119; 136; 153; 170; 187; 204; 221; 238; 255]);
    reflexivity.
Defined.

(* ================================================================== *)
(** * SHA-1: the padding *)

Lemma append_assoc_s (a b c : string) : ((a ++ b) ++ c = a ++ (b ++ c))%string.
Proof. induction a as [|x a IH]; cbn; [reflexivity | rewrite IH; reflexivity]. Qed.

Lemma length_append_s (a b : string) :
  String.length (a ++ b) = (String.length a + String.length b)%nat.
Proof. induction a as [|x a IH]; cbn; [reflexivity | rewrite IH; reflexivity]. Qed.

Lemma length_string_of_list l :
  String.length (string_of_list_ascii l) = List.length l.
Proof. induction l as [|x l IH]; cbn; [reflexivity | rewrite IH; reflexivity]. Qed.

Lemma for_by_push n : forall i step s,
  for_by n i step (fun _ paddedMessage => push_char paddedMessage 0x00) s =
  (s ++ string_of_list_ascii (repeat (char_of 0) n))%string.
Proof.
  induction n as [|n IH]; intros i step s.
  - cbn. clear. induction s as [|x s IH]; cbn; [reflexivity | rewrite <- IH; reflexivity].
  - cbn [for_by repeat string_of_list_ascii]. rewrite IH. unfold push_char.
    rewrite append_assoc_s. reflexivity.
Qed.

Lemma mod_u64_512 x : u64 x mod 512 = x mod 512.
Proof.
  unfold u64. apply Z.mod_mod_divide.
  exists 36028797018963968. reflexivity.
Qed.

(** The number of zero bits that [pad_message] asks for. *)
Lemma paddingLength_eq n :
  u64 (u64 (448 - u64 (u64 (n * 8) + 8) mod 512) + 512) mod 512 =
  8 * ((55 - n) mod 64).
Proof.
  rewrite mod_u64_512.
  rewrite <- Z.add_mod_idemp_l by lia. rewrite mod_u64_512.
  rewrite Z.add_mod_idemp_l by lia.
  rewrite (mod_u64_512 (u64 (n * 8) + 8)).
  rewrite <- (Z.add_mod_idemp_l (u64 (n * 8))) by lia. rewrite mod_u64_512.
  rewrite Z.add_mod_idemp_l by lia.
  Z.to_euclidean_division_equations. lia.
Qed.

Lemma pad_message_eq message :
  pad_message message =
  (message ++
   String (char_of 0x80)
     (string_of_list_ascii
        (repeat (char_of 0)
                (Z.to_nat ((55 - Z.of_nat (String.length message)) mod 64))) ++
      string_of_list_ascii
        (map (fun s => char_of (Z.land (Z.shiftr
                (u64 (Z.of_nat (String.length message) * 8)) s) 255))
             [56; 48; 40; 32; 24; 16; 8; 0])))%string.
Proof.
  unfold pad_message, for_range_by. rewrite paddingLength_eq, for_by_push.
  replace ((8 * ((55 - Z.of_nat (String.length message)) mod 64) - 0 + 8 - 1) / 8)
    with ((55 - Z.of_nat (String.length message)) mod 64).
  2:{ pose proof (Z.mod_pos_bound (55 - Z.of_nat (String.length message)) 64
                    ltac:(lia)).
      apply (Z.div_unique _ 8 _ 7); lia. }
  unfold push_char. cbn [map]. rewrite Z.shiftr_0_r.
  rewrite !append_assoc_s. cbn [append string_of_list_ascii]. reflexivity.
Qed.

Lemma length_pad_message message :
  Z.of_nat (String.length (pad_message message)) =
  64 * ((Z.of_nat (String.length message) + 8) / 64 + 1).
Proof.
  rewrite pad_message_eq.
  rewrite length_append_s. cbn [String.length].
  rewrite length_append_s, !length_string_of_list, repeat_length.
  cbn [map List.length].
  zify. Z.to_euclidean_division_equations. lia.
Qed.

(** X23.  What [pad_message] returns: the message, one byte 0x80,
    [(55 - n) mod 64] zero bytes for a message of [n] bytes, and the eight
    bytes of the bit length [8 * n] (as a 64-bit number), highest first.
    Its length is the least multiple of 64 above [n + 8], so the padded
    message always splits into whole blocks of 64 bytes. *)
Theorem pad_message_shape (message : string) :
  let n := String.length message in
  pad_message message =
  (message ++
   String (char_of 0x80)
     (string_of_list_ascii
        (repeat (char_of 0) (Z.to_nat ((55 - Z.of_nat n) mod 64))) ++
      string_of_list_ascii
        (map (fun s => char_of (Z.land (Z.shiftr (u64 (Z.of_nat n * 8)) s) 255))
             [56; 48; 40; 32; 24; 16; 8; 0])))%string /\
  Z.of_nat (String.length (pad_message message)) = 64 * ((Z.of_nat n + 8) / 64 + 1).
Proof.
  intros n. split; [apply pad_message_eq | apply length_pad_message].
Qed.

(* ================================================================== *)
(** * SHA-1: the word functions *)

Lemma word_of_bits r :
  0 <= r -> (forall i, 32 <= i -> Z.testbit r i = false) -> is_word r = true.
Proof.
  intros H0 Hb. apply is_word_iff. split; [exact H0|].
  change 4294967296 with (2 ^ 32). apply bound_of_bits; [exact H0 | lia | exact Hb].
Qed.

Lemma u32_testbit x i :
  0 <= i -> Z.testbit (u32 x) i = (i <? 32) && Z.testbit x i.
Proof.
  intros Hi. unfold u32. change 4294967296 with (2 ^ 32).
  destruct (Z.ltb_spec i 32).
  - rewrite Z.mod_pow2_bits_low by lia. reflexivity.
  - rewrite Z.mod_pow2_bits_high by lia. reflexivity.
Qed.

(** The bits of a word rotated by [n] places. *)
Lemma rot_bits x n i :
  is_word x = true -> 0 < n < 32 -> 0 <= i ->
  Z.testbit (Z.lxor (u32 (Z.shiftl x n)) (Z.shiftr x (32 - n))) i =
  (i <? 32) && Z.testbit x ((i - n) mod 32).
Proof.
  intros Hx Hn Hi.
  rewrite Z.lxor_spec, u32_testbit, Z.shiftl_spec, Z.shiftr_spec by lia.
  destruct (Z.ltb_spec i 32) as [Hlt|Hge]; cbn [andb].
  - destruct (Z_lt_le_dec i n) as [Hs|Hl].
    + rewrite (Z.testbit_neg_r x (i - n)) by lia.
      replace ((i - n) mod 32) with (i + (32 - n))
        by (apply (Z.mod_unique _ _ (-1)); lia).
      reflexivity.
    + rewrite (word_testbit_high x (i + (32 - n)) Hx) by lia.
      rewrite Z.mod_small by lia. apply xorb_false_r.
  - apply (word_testbit_high x _ Hx). lia.
Qed.

Lemma rot_word x n :
  is_word x = true -> 0 < n < 32 ->
  is_word (Z.lxor (u32 (Z.shiftl x n)) (Z.shiftr x (32 - n))) = true.
Proof.
  intros Hx Hn. apply word_of_bits.
  - apply Z.lxor_nonneg. apply is_word_iff in Hx. split; intros _.
    + apply Z.shiftr_nonneg. lia.
    + unfold u32. apply Z.mod_pos_bound. lia.
  - intros i Hi. rewrite rot_bits by (assumption || lia).
    destruct (Z.ltb_spec i 32); [lia | reflexivity].
Qed.

Lemma ROTL_Ok x n :
  0 < n < 32 ->
  ROTL x n = Ok (Z.lxor (u32 (Z.shiftl x n)) (Z.shiftr x (32 - n))).
Proof.
  intros Hn. unfold ROTL.
  destruct (Z.ltb_spec 0 n); [|lia]. destruct (Z.ltb_spec n 32); [|lia].
  reflexivity.
Qed.

(** X24.  For a 32-bit word and a count from 1 to 31, [ROTL], which the
    code writes with an exclusive or, is the rotation that its comment
    defines with an inclusive or: it returns a 32-bit word, equal to
    [(x << n) | (x >> (32 - n))] in 32 bits, whose bit [i] is bit
    [(i - n) mod 32] of [x]; rotating the result by [32 - n] gives [x]
    back.  A count of 0, of 32 or more, or a negative one, is undefined. *)
Theorem ROTL_rotation (x n : Z) :
  is_word x = true -> 0 < n < 32 ->
  exists r,
    ROTL x n = Ok r /\
    is_word r = true /\
    r = Z.lor (u32 (Z.shiftl x n)) (Z.shiftr x (32 - n)) /\
    (forall i, 0 <= i < 32 -> Z.testbit r i = Z.testbit x ((i - n) mod 32)) /\
    ROTL r (32 - n) = Ok x /\
    (forall m, m <= 0 \/ 32 <= m -> ROTL x m = Throw undefined).
Proof.
  intros Hx Hn. eexists. split; [apply ROTL_Ok, Hn|].
  pose proof (rot_word x n Hx Hn) as Hr.
  split; [exact Hr|]. split; [|split; [|split]].
  - apply Z.bits_inj'. intros i Hi.
    rewrite rot_bits by assumption.
    rewrite Z.lor_spec, u32_testbit, Z.shiftl_spec, Z.shiftr_spec by lia.
    destruct (Z.ltb_spec i 32) as [Hlt|Hge]; cbn [andb].
    + destruct (Z_lt_le_dec i n) as [Hs|Hl].
      * rewrite (Z.testbit_neg_r x (i - n)) by lia.
        replace ((i - n) mod 32) with (i + (32 - n))
          by (apply (Z.mod_unique _ _ (-1)); lia).
        reflexivity.
      * rewrite (word_testbit_high x (i + (32 - n)) Hx) by lia.
        rewrite Z.mod_small by lia. symmetry. apply orb_false_r.
    + symmetry. apply (word_testbit_high x _ Hx). lia.
  - intros i Hi. rewrite rot_bits by (assumption || lia).
    destruct (Z.ltb_spec i 32); [reflexivity | lia].
  - rewrite ROTL_Ok by lia. f_equal.
    apply Z.bits_inj'. intros i Hi.
    rewrite rot_bits by (assumption || lia).
    destruct (Z.ltb_spec i 32) as [Hlt|Hge]; cbn [andb].
    + assert (Hj : 0 <= (i - (32 - n)) mod 32 < 32)
        by (apply Z.mod_pos_bound; lia).
      rewrite rot_bits by (assumption || lia).
      destruct (Z.ltb_spec ((i - (32 - n)) mod 32) 32); [|lia]. cbn [andb].
      f_equal. rewrite Zminus_mod_idemp_l.
      replace (i - (32 - n) - n) with (i + (-1) * 32) by lia.
      rewrite Z.mod_add by lia. apply Z.mod_small. lia.
    + symmetry. apply (word_testbit_high x _ Hx). lia.
  - intros m Hm. unfold ROTL.
    destruct (Z.ltb_spec 0 m); [|reflexivity].
    destruct (Z.ltb_spec m 32); [lia | reflexivity].
Qed.

Lemma ROTL_rotation_witness :
  ROTL 0x80000001 1 = Ok 3 /\ ROTL 3 31 = Ok 0x80000001.
Proof.
  destruct (ROTL_rotation 0x80000001 1) as (r & E & _ & _ & _ & Eb & _);
    [reflexivity | lia |].
  assert (Er : r = 3) by (vm_compute in E; congruence).
  subst r. split; [exact E | exact Eb].
Defined.

Lemma lnot_testbit x i :
  0 <= i -> Z.testbit (u32 (Z.lnot x)) i = (i <? 32) && negb (Z.testbit x i).
Proof.
  intros Hi. rewrite u32_testbit by exact Hi. rewrite Z.lnot_spec by exact Hi.
  reflexivity.
Qed.

(** X25.  The three round functions on 32-bit words, bit by bit: [Ch]
    chooses the bit of [y] where [x] has a one and the bit of [z] where it
    has a zero, [Maj] is the majority of the three bits, [Parity] is their
    sum modulo 2; each returns a 32-bit word. *)
Theorem round_functions_bitwise (x y z i : Z) :
  is_word x = true -> is_word y = true -> is_word z = true -> 0 <= i ->
  Z.testbit (Ch x y z) i = (if Z.testbit x i then Z.testbit y i else Z.testbit z i) /\
  Z.testbit (Maj x y z) i =
    (Z.testbit x i && Z.testbit y i) || (Z.testbit x i && Z.testbit z i)
    || (Z.testbit y i && Z.testbit z i) /\
  Z.testbit (Parity x y z) i = xorb (xorb (Z.testbit x i) (Z.testbit y i)) (Z.testbit z i) /\
  is_word (Ch x y z) = true /\ is_word (Maj x y z) = true /\
  is_word (Parity x y z) = true.
Proof.
  intros Hx Hy Hz Hi.
  assert (HCh : forall j, 0 <= j ->
            Z.testbit (Ch x y z) j =
            (if Z.testbit x j then Z.testbit y j else Z.testbit z j)).
  { intros j Hj. unfold Ch.
    rewrite Z.lxor_spec, !Z.land_spec, lnot_testbit by exact Hj.
    destruct (Z.ltb_spec j 32).
    - destruct (Z.testbit x j), (Z.testbit y j), (Z.testbit z j); reflexivity.
    - rewrite (word_testbit_high x j Hx), (word_testbit_high z j Hz) by lia.
      reflexivity. }
  assert (HMaj : forall j, 0 <= j ->
            Z.testbit (Maj x y z) j =
            (Z.testbit x j && Z.testbit y j) || (Z.testbit x j && Z.testbit z j)
            || (Z.testbit y j && Z.testbit z j)).
  { intros j Hj. unfold Maj. rewrite !Z.lxor_spec, !Z.land_spec.
    destruct (Z.testbit x j), (Z.testbit y j), (Z.testbit z j); reflexivity. }
  assert (HPar : forall j, 0 <= j ->
            Z.testbit (Parity x y z) j =
            xorb (xorb (Z.testbit x j) (Z.testbit y j)) (Z.testbit z j)).
  { intros j Hj. unfold Parity. rewrite !Z.lxor_spec. reflexivity. }
  assert (Hnn : forall a b, 0 <= a -> 0 <= b -> 0 <= Z.lxor a b).
  { intros a b Ha Hb. apply Z.lxor_nonneg. tauto. }
  pose proof Hx as Bx. pose proof Hy as By. pose proof Hz as Bz.
  apply is_word_iff in Bx, By, Bz.
  split; [apply HCh, Hi|]. split; [apply HMaj, Hi|]. split; [apply HPar, Hi|].
  split; [|split]; apply word_of_bits.
  - unfold Ch. apply Hnn; apply Z.land_nonneg; left; [lia|].
    unfold u32. apply Z.mod_pos_bound. lia.
  - intros j Hj. rewrite HCh by lia.
    rewrite (word_testbit_high x j Hx), (word_testbit_high z j Hz) by lia.
    reflexivity.
  - unfold Maj. apply Hnn; [apply Hnn|]; apply Z.land_nonneg; left; lia.
  - intros j Hj. rewrite HMaj by lia.
    rewrite (word_testbit_high x j Hx), (word_testbit_high y j Hy) by lia.
    reflexivity.
  - unfold Parity. apply Hnn; [apply Hnn|]; lia.
  - intros j Hj. rewrite HPar by lia.
    rewrite (word_testbit_high x j Hx), (word_testbit_high y j Hy),
      (word_testbit_high z j Hz) by lia.
    reflexivity.
Qed.

Lemma round_functions_bitwise_witness :
  Z.testbit (Ch 0xF0F0F0F0 0xFFFF0000 0x0000FFFF) 4 = Z.testbit 0xFFFF0000 4 /\
  is_word (Maj 0xF0F0F0F0 0xFFFF0000 0x0000FFFF) = true.
Proof.
  destruct (round_functions_bitwise 0xF0F0F0F0 0xFFFF0000 0x0000FFFF 4)
    as (H1 & _ & _ & _ & H2 & _); try reflexivity; [lia|].
  split; [exact H1 | exact H2].
Defined.

(* ================================================================== *)
(** * SHA-1: the digest *)

Lemma get_Some s : forall k,
  (k < String.length s)%nat -> exists c, String.get k s = Some c.
Proof.
  induction s as [|x s IH]; intros k Hk; [cbn in Hk; lia|].
  destruct k as [|k]; [exists x; reflexivity|].
  cbn [String.get]. apply IH. cbn in Hk. lia.
Qed.

Lemma char_at_Ok block k :
  0 <= k <= Z.of_nat (String.length block) -> exists b, char_at block k = Ok b.
Proof.
  intros Hk. unfold char_at. destruct (Z.ltb_spec k 0); [lia|].
  destruct (String.get (Z.to_nat k) block) as [c|] eqn:E; [eexists; reflexivity|].
  destruct (Z.eqb_spec k (Z.of_nat (String.length block))); [eexists; reflexivity|].
  destruct (get_Some block (Z.to_nat k)) as (c & Ec); [lia | congruence].
Qed.

Lemma length_upd {A : Type} (f : A -> A) l : forall n,
  List.length (upd n f l) = List.length l.
Proof.
  induction l as [|x l IH]; intros n; [destruct n; reflexivity|].
  destruct n as [|n]; cbn; [reflexivity | rewrite IH; reflexivity].
Qed.

Lemma store_Ok W t v :
  0 <= t < Z.of_nat (List.length W) ->
  exists W', store W t v = Ok W' /\ List.length W' = List.length W.
Proof.
  intros Ht. unfold store.
  destruct (Z.leb_spec 0 t); [|lia].
  destruct (Z.ltb_spec t (Z.of_nat (List.length W))); [|lia].
  eexists. split; [reflexivity | apply length_upd].
Qed.

Lemma index_Ok v i :
  0 <= i < Z.of_nat (List.length v) -> exists x, index v i = Ok x.
Proof.
  intros Hi. unfold index. destruct (Z.ltb_spec i 0); [lia|].
  destruct (nth_error v (Z.to_nat i)) as [x|] eqn:E; [eexists; reflexivity|].
  apply nth_error_None in E. lia.
Qed.

Lemma processBlock_round_Ok W i s :
  List.length W = 80%nat -> 0 <= i < 80 ->
  exists s', processBlock_round W i s = Ok s'.
Proof.
  intros HW Hi. destruct s as [[[[a b] c] d] e]. unfold processBlock_round.
  destruct (if i <? 20 then _ else _) as [f k].
  rewrite (ROTL_Ok a 5) by lia. cbn [bind].
  destruct (index_Ok W i) as (w & ->); [lia|]. cbn [bind].
  rewrite (ROTL_Ok b 30) by lia. cbn [bind]. eexists. reflexivity.
Qed.

(** [processBlock] returns on every block of 63 characters or more: the
    64th read may be the terminating zero. *)
Lemma processBlock_Ok this block :
  (63 <= String.length block)%nat -> exists this', processBlock this block = Ok this'.
Proof.
  intros Hlen. unfold processBlock, forM_range.
  change (Z.to_nat ((16 - 0 + 1 - 1) / 1)) with 16%nat.
  change (Z.to_nat ((80 - 16 + 1 - 1) / 1)) with 64%nat.
  change (Z.to_nat ((80 - 0 + 1 - 1) / 1)) with 80%nat.
  match goal with
  | |- context [forM 16 0 1 ?body ?s] =>
      destruct (forM_invariant body (fun _ W => List.length W = 80%nat) 16 0 s)
        as (W1 & E1 & H1)
  end.
  { reflexivity. }
  { intros t W Ht HW.
    destruct (char_at_Ok block (t * 4)) as (b0 & ->); [lia|].
    destruct (char_at_Ok block (t * 4 + 1)) as (b1 & ->); [lia|].
    destruct (char_at_Ok block (t * 4 + 2)) as (b2 & ->); [lia|].
    destruct (char_at_Ok block (t * 4 + 3)) as (b3 & ->); [lia|].
    cbn [bind].
    destruct (store_Ok W t (pack_word b0 b1 b2 b3)) as (W' & E & HL); [lia|].
    exists W'. split; [exact E | congruence]. }
  rewrite E1. cbn [bind].
  match goal with
  | |- context [forM 64 16 1 ?body W1] =>
      destruct (forM_invariant body (fun _ W => List.length W = 80%nat) 64 16 W1)
        as (W2 & E2 & H2)
  end.
  { exact H1. }
  { intros t W Ht HW.
    destruct (index_Ok W (t - 3)) as (w3 & ->); [lia|].
    destruct (index_Ok W (t - 8)) as (w8 & ->); [lia|].
    destruct (index_Ok W (t - 14)) as (w14 & ->); [lia|].
    destruct (index_Ok W (t - 16)) as (w16 & ->); [lia|].
    cbn [bind]. rewrite ROTL_Ok by lia. cbn [bind].
    match goal with
    | |- context [store W t ?v] =>
        destruct (store_Ok W t v) as (W' & E & HL); [lia|]
    end.
    exists W'. split; [exact E | congruence]. }
  rewrite E2. cbn [bind].
  destruct (forM_invariant (processBlock_round W2) (fun _ _ => True) 80 0
              (SHA1.H0 this, SHA1.H1 this, SHA1.H2 this, SHA1.H3 this, SHA1.H4 this))
    as (r & E3 & _).
  { exact I. }
  { intros i s Hi _. destruct (processBlock_round_Ok W2 i s H2) as (s' & E); [lia|].
    exists s'. split; [exact E | exact I]. }
  rewrite E3. cbn [bind]. destruct r as [[[[a b] c] d] e]. eexists. reflexivity.
Qed.

Lemma length_substring s : forall i m,
  (i + m <= String.length s)%nat -> String.length (substring i m s) = m.
Proof.
  induction s as [|x s IH]; intros i m H.
  - cbn in H. assert (i = 0%nat) by lia. assert (m = 0%nat) by lia. subst. reflexivity.
  - destruct i as [|i].
    + destruct m as [|m]; [reflexivity|]. cbn [substring String.length].
      f_equal. apply (IH 0%nat). cbn in H. lia.
    + cbn [substring]. apply IH. cbn in H. lia.
Qed.

(** A loop with a stride, each of whose iterations returns. *)
Lemma forM_by_Ok {St : Type} (body : Z -> St -> result St) step n :
  forall lo s,
  (forall j s', (j < n)%nat -> exists s'', body (lo + step * Z.of_nat j) s' = Ok s'') ->
  exists s', forM n lo step body s = Ok s'.
Proof.
  induction n as [|n IH]; intros lo s H; [exists s; reflexivity|].
  cbn [forM]. destruct (H 0%nat s) as (s1 & E); [lia|].
  rewrite Z.mul_0_r, Z.add_0_r in E. rewrite E. cbn [bind].
  apply IH. intros j s' Hj. destruct (H (S j) s') as (s'' & E'); [lia|].
  exists s''. rewrite <- E'. f_equal. lia.
Qed.

Lemma processBlocks_loop_Ok msg this :
  Z.of_nat (String.length msg) mod 64 = 0 ->
  exists this', processBlocks_loop msg this = Ok this'.
Proof.
  intros Hm. unfold processBlocks_loop, forM_range.
  apply forM_by_Ok. intros j s' Hj. apply processBlock_Ok.
  assert (Hfit : (Z.to_nat (0 + 64 * Z.of_nat j) + 64 <= String.length msg)%nat).
  { assert (Z.of_nat j < (Z.of_nat (String.length msg) - 0 + 64 - 1) / 64) by lia.
    zify. Z.to_euclidean_division_equations. lia. }
  rewrite length_substring by exact Hfit. lia.
Qed.

Lemma hex_char_land x : is_hex (hex_char (Z.land x 15)) = true.
Proof.
  apply hex_char_digit. change 15 with (Z.ones 4). rewrite Z.land_ones by lia.
  apply Z.mod_pos_bound. lia.
Qed.

Lemma getHash_hex this :
  String.length (getHash this) = 40%nat /\ is_hex_string (getHash this) = true.
Proof.
  split; [reflexivity|].
  unfold getHash, hex8, is_hex_string.
  cbn [map string_of_list_ascii append list_ascii_of_string forallb].
  rewrite !hex_char_land. reflexivity.
Qed.

(** X26.  [digest] returns for every message and from every state of the
    object: no read goes past the end of a block or of the schedule [W] and
    no shift count leaves 1..31.  What it returns is a text of exactly 40
    hexadecimal digits, the five hash values of the object it leaves. *)
Theorem digest_returns (this : SHA1.t) (message : string) :
  exists this' s,
    digest this message = Ok (this', s) /\
    s = getHash this' /\
    String.length s = 40%nat /\
    is_hex_string s = true.
Proof.
  unfold digest, processBlocks.
  destruct (processBlocks_loop_Ok (pad_message message)
              (SHA1.mk 0x67452301 0xEFCDAB89 0x98BADCFE 0x10325476 0xC3D2E1F0))
    as (this' & E).
  { rewrite length_pad_message. rewrite Z.mul_comm. apply Z.mod_mul. lia. }
  rewrite E. cbn [bind]. exists this', (getHash this').
  destruct (getHash_hex this') as [H1 H2]. auto.
Qed.

(* ================================================================== *)
(** * SHA-1: hashing a message that continues a padded one *)

Lemma pad_message_padding message :
  pad_message message = (message ++ padding (String.length message))%string.
Proof. apply pad_message_eq. Qed.

Lemma substring_app_l s1 s2 : forall i m,
  (i + m <= String.length s1)%nat ->
  substring i m (s1 ++ s2) = substring i m s1.
Proof.
  induction s1 as [|x s1 IH]; intros i m H.
  - cbn in H. assert (i = 0%nat) by lia. assert (m = 0%nat) by lia. subst.
    cbn [append]. rewrite !substring_0_0. reflexivity.
  - cbn [append]. destruct i as [|i].
    + destruct m as [|m]; [reflexivity|]. cbn [substring]. f_equal.
      apply (IH 0%nat). cbn in H. lia.
    + cbn [substring]. apply IH. cbn in H. lia.
Qed.

Lemma substring_app_r s1 s2 k m :
  substring (String.length s1 + k) m (s1 ++ s2) = substring k m s2.
Proof.
  induction s1 as [|x s1 IH]; [reflexivity|].
  cbn [String.length Nat.add append substring]. exact IH.
Qed.

Lemma forM_app {St : Type} (body : Z -> St -> result St) step n1 n2 :
  forall lo s,
  forM (n1 + n2) lo step body s =
  (s' <- forM n1 lo step body s ;; forM n2 (lo + step * Z.of_nat n1) step body s').
Proof.
  induction n1 as [|n1 IH]; intros lo s.
  - cbn [Nat.add forM bind]. rewrite Z.mul_0_r, Z.add_0_r. reflexivity.
  - cbn [Nat.add forM]. destruct (body lo s) as [s1|e]; cbn [bind]; [|reflexivity].
    rewrite IH.
    replace (lo + step * Z.of_nat (S n1)) with (lo + step + step * Z.of_nat n1) by lia.
    reflexivity.
Qed.

Lemma forM_ext_by {St : Type} (body body' : Z -> St -> result St) step n :
  forall lo lo' s,
  (forall j s', (j < n)%nat ->
     body (lo + step * Z.of_nat j) s' = body' (lo' + step * Z.of_nat j) s') ->
  forM n lo step body s = forM n lo' step body' s.
Proof.
  induction n as [|n IH]; intros lo lo' s H; [reflexivity|].
  cbn [forM]. pose proof (H 0%nat s ltac:(lia)) as E.
  rewrite !Z.mul_0_r, !Z.add_0_r in E. rewrite E.
  destruct (body' lo' s) as [s1|e]; cbn [bind]; [|reflexivity].
  apply IH. intros j s' Hj. pose proof (H (S j) s' ltac:(lia)) as E'.
  replace (lo + step + step * Z.of_nat j) with (lo + step * Z.of_nat (S j)) by lia.
  replace (lo' + step + step * Z.of_nat j) with (lo' + step * Z.of_nat (S j)) by lia.
  exact E'.
Qed.

(** The loop of [processBlocks] over a text whose first part is whole
    blocks: the first part, then the rest from where the first part
    ended. *)
Lemma processBlocks_loop_app s1 s2 this :
  Z.of_nat (String.length s1) mod 64 = 0 ->
  processBlocks_loop (s1 ++ s2) this =
  (h <- processBlocks_loop s1 this ;; processBlocks_loop s2 h).
Proof.
  intros Hm. unfold processBlocks_loop, forM_range.
  rewrite length_append_s.
  set (n1 := Z.to_nat ((Z.of_nat (String.length s1) - 0 + 64 - 1) / 64)).
  set (n2 := Z.to_nat ((Z.of_nat (String.length s2) - 0 + 64 - 1) / 64)).
  assert (H1 : Z.of_nat (String.length s1) = 64 * Z.of_nat n1).
  { subst n1. zify. Z.to_euclidean_division_equations. lia. }
  replace (Z.to_nat ((Z.of_nat (String.length s1 + String.length s2) - 0 + 64 - 1) / 64))
    with (n1 + n2)%nat.
  2:{ subst n2. rewrite Nat2Z.inj_add, H1.
      zify. Z.to_euclidean_division_equations. lia. }
  rewrite forM_app.
  rewrite (forM_ext_by _ (fun i this => processBlock this (substring (Z.to_nat i) 64 s1))
             64 n1 0 0).
  2:{ intros j s' Hj. f_equal. apply substring_app_l. lia. }
  destruct (forM n1 0 64 _ this) as [h|e]; cbn [bind]; [|reflexivity].
  apply forM_ext_by. intros j s' Hj. f_equal.
  replace (Z.to_nat (0 + 64 * Z.of_nat n1 + 64 * Z.of_nat j))
    with (String.length s1 + Z.to_nat (0 + 64 * Z.of_nat j))%nat by lia.
  apply substring_app_r.
Qed.

(** X27.  Length extension.  Once [digest] has returned for a message,
    leaving the hash values [h] in the object, the digest of the padded
    message followed by any text [x] is what the loop of [processBlocks]
    makes of [h] on [x] and its padding alone: it depends on the message
    only through [h] - the 40 digits that [digest] returned - and through
    its length. *)
Theorem digest_length_extension
    (this this' : SHA1.t) (message x : string) (h : SHA1.t) (s : string) :
  digest this message = Ok (h, s) ->
  digest this' (pad_message message ++ x) =
  (h' <- processBlocks_loop
           (x ++ padding (String.length (pad_message message) + String.length x)) h ;;
   Ok (h', getHash h')).
Proof.
  intros H. unfold digest in H.
  destruct (bind_Ok _ _ _ H) as (h0 & E & E'). injection E' as <- _.
  unfold processBlocks in E.
  unfold digest, processBlocks.
  rewrite (pad_message_padding (pad_message message ++ x)).
  rewrite length_append_s, append_assoc_s.
  rewrite processBlocks_loop_app.
  2:{ rewrite length_pad_message. rewrite Z.mul_comm. apply Z.mod_mul. lia. }
  rewrite E. cbn [bind]. reflexivity.
Qed.

Lemma digest_length_extension_witness :
  exists h s,
    digest (SHA1.mk 0 0 0 0 0) "abc" = Ok (h, s) /\
    s = "a9993e364706816aba3e25717850c26c9cd0d89d"%string /\
    digest (SHA1.mk 1 2 3 4 5) (pad_message "abc" ++ "def") =
    (h' <- processBlocks_loop ("def" ++ padding 67) h ;; Ok (h', getHash h')).
Proof.
  assert (E : {p : SHA1.t * string | digest (SHA1.mk 0 0 0 0 0) "abc" = Ok p})
    by (eexists; vm_compute; reflexivity).
  destruct E as [[h s] E]. exists h, s. split; [exact E|].
  split; [vm_compute in E; congruence|].
  exact (digest_length_extension (SHA1.mk 0 0 0 0 0) (SHA1.mk 1 2 3 4 5)
           "abc" "def" h s E).
Defined.

(* ================================================================== *)
(** * SHA-1: texts that are not whole blocks *)

Lemma get_None s : forall k,
  (String.length s <= k)%nat -> String.get k s = None.
Proof.
  induction s as [|x s IH]; intros k Hk; [destruct k; reflexivity|].
  destruct k as [|k]; [cbn in Hk; lia|].
  cbn [String.get]. apply IH. cbn in Hk. lia.
Qed.

Lemma char_at_cases block k :
  char_at block k = Throw undefined \/ exists b, char_at block k = Ok b.
Proof.
  unfold char_at. destruct (k <? 0); [left; reflexivity|].
  destruct (String.get (Z.to_nat k) block); [right; eexists; reflexivity|].
  destruct (k =? Z.of_nat (String.length block));
    [right; eexists; reflexivity | left; reflexivity].
Qed.

Lemma char_at_undefined block k :
  Z.of_nat (String.length block) < k -> char_at block k = Throw undefined.
Proof.
  intros H. unfold char_at. destruct (Z.ltb_spec k 0); [reflexivity|].
  rewrite get_None by lia.
  destruct (Z.eqb_spec k (Z.of_nat (String.length block))); [lia | reflexivity].
Qed.

Lemma store_cases W t v :
  store W t v = Throw undefined \/ exists W', store W t v = Ok W'.
Proof.
  unfold store. destruct (_ && _); [right; eexists | left]; reflexivity.
Qed.

Lemma index_cases v i :
  index v i = Throw undefined \/ exists x, index v i = Ok x.
Proof.
  unfold index. destruct (i <? 0); [left; reflexivity|].
  destruct (nth_error v (Z.to_nat i)); [right; eexists | left]; reflexivity.
Qed.

Lemma ROTL_cases x n :
  ROTL x n = Throw undefined \/ exists r, ROTL x n = Ok r.
Proof.
  unfold ROTL. destruct (_ && _); [right; eexists | left]; reflexivity.
Qed.

Ltac step_cases L :=
  match goal with
  | |- context [bind ?m _] =>
      let E := fresh "E" in
      destruct L as [E | [? E]]; rewrite E; cbn [bind]; [left; reflexivity|]
  end.

Lemma processBlock_cases this block :
  processBlock this block = Throw undefined \/
  exists this', processBlock this block = Ok this'.
Proof.
  unfold processBlock, forM_range.
  match goal with
  | |- context [forM ?n 0 1 ?body (repeat 0 80)] =>
      destruct (forM_cases body undefined n 0 (repeat 0 80)) as [E | [W1 E]]
  end.
  { intros t W _.
    step_cases (char_at_cases block (t * 4)).
    step_cases (char_at_cases block (t * 4 + 1)).
    step_cases (char_at_cases block (t * 4 + 2)).
    step_cases (char_at_cases block (t * 4 + 3)).
    apply store_cases. }
  { rewrite E. left. reflexivity. }
  rewrite E. cbn [bind]. clear E.
  match goal with
  | |- context [forM ?n 16 1 ?body W1] =>
      destruct (forM_cases body undefined n 16 W1) as [E | [W2 E]]
  end.
  { intros t W _.
    step_cases (index_cases W (t - 3)).
    step_cases (index_cases W (t - 8)).
    step_cases (index_cases W (t - 14)).
    step_cases (index_cases W (t - 16)).
    match goal with
    | |- context [ROTL ?v 1] => step_cases (ROTL_cases v 1)
    end.
    apply store_cases. }
  { rewrite E. left. reflexivity. }
  rewrite E. cbn [bind]. clear E.
  match goal with
  | |- context [forM ?n 0 1 (processBlock_round W2) ?s] =>
      destruct (forM_cases (processBlock_round W2) undefined n 0 s) as [E | [r E]]
  end.
  { intros i s _. destruct s as [[[[a b] c] d] e]. unfold processBlock_round.
    destruct (if i <? 20 then _ else _) as [f k].
    step_cases (ROTL_cases a 5).
    step_cases (index_cases W2 i).
    step_cases (ROTL_cases b 30).
    right. eexists. reflexivity. }
  { rewrite E. left. reflexivity. }
  rewrite E. cbn [bind]. destruct r as [[[[a b] c] d] e].
  right. eexists. reflexivity.
Qed.

(** A block of fewer than 63 characters: a read goes past its end. *)
Lemma processBlock_short this block :
  (String.length block < 63)%nat -> processBlock this block = Throw undefined.
Proof.
  intros Hlen. unfold processBlock, forM_range.
  change (Z.to_nat ((16 - 0 + 1 - 1) / 1)) with 16%nat.
  rewrite (forM_throws _ undefined); [reflexivity | |].
  - intros t W _.
    step_cases (char_at_cases block (t * 4)).
    step_cases (char_at_cases block (t * 4 + 1)).
    step_cases (char_at_cases block (t * 4 + 2)).
    step_cases (char_at_cases block (t * 4 + 3)).
    apply store_cases.
  - set (k := Z.of_nat (String.length block) + 1).
    exists (k / 4). split; [subst k; Z.to_euclidean_division_equations; lia|].
    intros W.
    assert (Hk : k = k / 4 * 4 \/ k = k / 4 * 4 + 1 \/ k = k / 4 * 4 + 2 \/
                 k = k / 4 * 4 + 3)
      by (Z.to_euclidean_division_equations; lia).
    pose proof (char_at_undefined block k ltac:(subst k; lia)) as Hu.
    destruct (char_at_cases block (k / 4 * 4)) as [E0 | [b0 E0]];
      rewrite E0; cbn [bind]; [reflexivity|].
    destruct (char_at_cases block (k / 4 * 4 + 1)) as [E1 | [b1 E1]];
      rewrite E1; cbn [bind]; [reflexivity|].
    destruct (char_at_cases block (k / 4 * 4 + 2)) as [E2 | [b2 E2]];
      rewrite E2; cbn [bind]; [reflexivity|].
    destruct (char_at_cases block (k / 4 * 4 + 3)) as [E3 | [b3 E3]];
      rewrite E3; cbn [bind]; [reflexivity|].
    destruct Hk as [Hk | [Hk | [Hk | Hk]]]; rewrite Hk in Hu; congruence.
Qed.

Lemma forM_by_throws {St : Type} (body : Z -> St -> result St) (e : exn) step n :
  forall lo s,
  (forall j s', (j < n)%nat ->
     body (lo + step * Z.of_nat j) s' = Throw e \/
     exists s'', body (lo + step * Z.of_nat j) s' = Ok s'') ->
  (exists j, (j < n)%nat /\ forall s', body (lo + step * Z.of_nat j) s' = Throw e) ->
  forM n lo step body s = Throw e.
Proof.
  induction n as [|n IH]; intros lo s Hc (j & Hj & Hbad); [lia|].
  cbn [forM].
  pose proof (Hc 0%nat s ltac:(lia)) as H0.
  rewrite Z.mul_0_r, Z.add_0_r in H0.
  destruct H0 as [E | [s1 E]]; rewrite E; cbn [bind]; [reflexivity|].
  apply IH.
  - intros i s' Hi. pose proof (Hc (S i) s' ltac:(lia)) as H1.
    replace (lo + step + step * Z.of_nat i) with (lo + step * Z.of_nat (S i)) by lia.
    exact H1.
  - destruct j as [|j].
    + specialize (Hbad s). rewrite Z.mul_0_r, Z.add_0_r in Hbad. congruence.
    + exists j. split; [lia|]. intros s'.
      replace (lo + step + step * Z.of_nat j) with (lo + step * Z.of_nat (S j)) by lia.
      apply Hbad.
Qed.

Lemma length_substring_le s : forall i m,
  (String.length (substring i m s) <= String.length s - i)%nat.
Proof.
  induction s as [|x s IH]; intros i m.
  - destruct i, m; cbn; lia.
  - destruct i as [|i].
    + destruct m as [|m]; [cbn; lia|]. cbn [substring String.length].
      specialize (IH 0%nat m). lia.
    + cbn [substring String.length]. specialize (IH i m). lia.
Qed.

Lemma length_substring_rest s : forall i m,
  (i <= String.length s)%nat -> (String.length s <= i + m)%nat ->
  String.length (substring i m s) = (String.length s - i)%nat.
Proof.
  induction s as [|x s IH]; intros i m Hi Hm.
  - destruct i, m; reflexivity.
  - destruct i as [|i].
    + destruct m as [|m]; [cbn in Hm; lia|]. cbn [substring String.length].
      rewrite (IH 0%nat m) by (cbn in Hm; lia). lia.
    + cbn [substring String.length]. apply IH; cbn in Hi, Hm; lia.
Qed.

Lemma processBlocks_loop_whole msg this :
  Z.of_nat (String.length msg) mod 64 = 0 \/
  Z.of_nat (String.length msg) mod 64 = 63 ->
  exists this', processBlocks_loop msg this = Ok this'.
Proof.
  intros Hm. unfold processBlocks_loop, forM_range.
  apply forM_by_Ok. intros j s' Hj. apply processBlock_Ok.
  assert (Hlt : Z.of_nat j < (Z.of_nat (String.length msg) - 0 + 64 - 1) / 64) by lia.
  destruct (Nat.le_gt_cases (Z.to_nat (0 + 64 * Z.of_nat j) + 64) (String.length msg))
    as [Hfit | Hlast].
  - rewrite length_substring by exact Hfit. lia.
  - rewrite length_substring_rest.
    + zify. Z.to_euclidean_division_equations. lia.
    + zify. Z.to_euclidean_division_equations. lia.
    + lia.
Qed.

Lemma processBlocks_loop_ragged msg this :
  Z.of_nat (String.length msg) mod 64 <> 0 ->
  Z.of_nat (String.length msg) mod 64 <> 63 ->
  processBlocks_loop msg this = Throw undefined.
Proof.
  intros H0 H63. unfold processBlocks_loop, forM_range.
  apply forM_by_throws.
  - intros j s' _. apply processBlock_cases.
  - exists (Z.to_nat (Z.of_nat (String.length msg) / 64)). split.
    + zify. Z.to_euclidean_division_equations. lia.
    + intros s'. apply processBlock_short.
      pose proof (length_substring_le msg
        (Z.to_nat (0 + 64 * Z.of_nat (Z.to_nat (Z.of_nat (String.length msg) / 64))))
        64) as Hle.
      zify. Z.to_euclidean_division_equations. lia.
Qed.

(** X28.  [processBlocks] is for padded text only: it returns exactly
    when the length of its text is 0 or 63 modulo 64 (the 64th read of the
    last block may be the terminating zero of the string), and on every
    other text a read goes past the end of the last block, which C++ leaves
    undefined. *)
Theorem processBlocks_returns_iff (this : SHA1.t) (msg : string) :
  ((exists this', processBlocks this msg = Ok this') <->
   Z.of_nat (String.length msg) mod 64 = 0 \/
   Z.of_nat (String.length msg) mod 64 = 63) /\
  (Z.of_nat (String.length msg) mod 64 <> 0 ->
   Z.of_nat (String.length msg) mod 64 <> 63 ->
   processBlocks this msg = Throw undefined).
Proof.
  unfold processBlocks. split; [split|].
  - intros (h & E).
    destruct (Z.eq_dec (Z.of_nat (String.length msg) mod 64) 0) as [H0|H0];
      [left; exact H0|].
    destruct (Z.eq_dec (Z.of_nat (String.length msg) mod 64) 63) as [H1|H1];
      [right; exact H1|].
    rewrite processBlocks_loop_ragged in E by assumption. discriminate E.
  - apply processBlocks_loop_whole.
  - apply processBlocks_loop_ragged.
Qed.

Lemma processBlocks_returns_iff_witness :
  processBlocks (SHA1.mk 0 0 0 0 0) "abc" = Throw undefined /\
  exists h, processBlocks (SHA1.mk 0 0 0 0 0) "" = Ok h.
Proof.
  split.
  - apply (processBlocks_returns_iff (SHA1.mk 0 0 0 0 0) "abc"); vm_compute; discriminate.
  - apply (processBlocks_returns_iff (SHA1.mk 0 0 0 0 0) ""). left. reflexivity.
Defined.
